(** * WriteExpressions: the annotation pass of ArrayInference

    A shallow embedding of [ArrayInference/writeExpressions.cpp].  The pass
    walks the region tree of a function, decides which loops or regions can
    be annotated and stores the pragmas in a map from source lines to text.

    Conventions of the embedding:
    - the members of the pass object and the statistics of the file are the
      fields of [PassState], threaded explicitly through every operation;
    - LLVM values are records; a [Loop*] or a [Region*] is a node of a finite
      tree, a [Function*] is the name of the function in the module;
    - the analyses the pass obtains with [getAnalysis] are the fields of
      [Analyses]; their code is not part of this file, so they are
      parameters of the development;
    - [int] values are integers of [Z]; the counters never come close to the
      width of their machine type, so no wrap-around is modelled for them.
      It is written out where a line is converted: from the [unsigned int]
      of the debug location to [int], from [int] to the [unsigned int] key
      of the comment map, and in the increment of the last line of a loop
      or a region, which can be [INT_MAX]. *)

From Stdlib Require Import ZArith NArith List Ascii String Lia.
From stdpp Require Import base option list gmap fin_maps strings pretty.

Local Open Scope Z_scope.

(** ** Strings: [std::string::find] *)

Module Str.

(** A line break, the last character of every pragma. *)
Definition nl : string := String (ascii_of_nat 10) EmptyString.

(** [find_at pat s pos] scans [s] from the left; [pos] is the index of the
    first character of [s] in the whole text. *)
Fixpoint find_at (pat s : string) (pos : nat) : option nat :=
  if String.prefix pat s then Some pos
  else match s with
       | EmptyString => None
       | String _ s' => find_at pat s' (S pos)
       end.

(** [find s pat] is [s.find(pat)]: the index of the first occurrence of
    [pat] in [s], [None] standing for [std::string::npos]. *)
Definition find (s pat : string) : option nat := find_at pat s 0.

(** [pat] occurs in [s] as a substring. *)
Definition occurs (pat s : string) : Prop :=
  exists a b : string, s = a +:+ pat +:+ b.

End Str.

(** ** The comment map *)

(** [Comments] is a [std::map<unsigned int, std::string>]. *)
Definition to_unsigned (line : Z) : N := Z.to_N (line mod 2 ^ 32).

Definition addCommentToLine (Comment : string) (Line : N)
    (Comments : gmap N string) : gmap N string :=
  match Comments !! Line with
  | None => <[Line := Comment]> Comments
  | Some text =>
      match Str.find text Comment with
      | None => <[Line := text +:+ Comment]> Comments
      | Some _ => Comments
      end
  end.

(** [copyComments] walks the entries of the map it is given in order. *)
Definition copyComments (CommentsIn : list (N * string))
    (Comments : gmap N string) : gmap N string :=
  fold_left (fun m e => addCommentToLine (snd e) (fst e) m) CommentsIn Comments.

(** The text of a line, empty when the line has no entry. *)
Definition lineText (Comments : gmap N string) (Line : N) : string :=
  default EmptyString (Comments !! Line).

(** A line holds a fragment when the fragment occurs in its text. *)
Definition hasFragment (Comments : gmap N string) (Line : N) (frag : string) : Prop :=
  exists text, Comments !! Line = Some text /\ Str.occurs frag text.

(** ** Configuration *)

Definition ERROR_VALUE : Z := -1.
Definition ACC : ascii := "0"%char.
Definition OMP_GPU : ascii := "1"%char.
Definition OMP_CPU : ascii := "2"%char.

(** The command line options of the pass. *)
Record Config := {
  ClEmitParallel : bool;
  ClEmitOMP : ascii;
  ClInput : string;
  ClDivergent : bool;
  ClCoalescing : bool
}.

(** ** The program: instructions, blocks, loops, regions, functions *)

(** What the pass reads of an instruction: the function it calls when it is
    a [CallInst] (calls are direct: the pass dereferences
    [getCalledFunction()] without a test), its name, and whether it carries
    the metadata [isParallel] and [isDivergent]. *)
Record Instruction := {
  getCalledFunction : option string;
  instName : string;
  mdIsParallel : bool;
  mdIsDivergent : bool
}.

Record BasicBlock := {
  blockId : nat;
  body : list Instruction;
  getTerminator : Instruction
}.

(** The instructions of a block from [begin()] to [end()]. *)
Definition instructions (BB : BasicBlock) : list Instruction :=
  body BB ++ [getTerminator BB].

(** The instructions the two nested [for] loops over blocks and instructions
    visit, in order. *)
Definition allInstructions (BBs : list BasicBlock) : list Instruction :=
  flat_map instructions BBs.

(** The induction principles of the two trees are stated below, with the
    hypothesis for the children that the generated ones lack. *)
Unset Elimination Schemes.

(** A loop of [LoopInfo]; [loopId] stands for the address of the loop. *)
Inductive Loop : Type := mkLoop {
  loopId : nat;
  getHeader : BasicBlock;
  getLoopLatch : option BasicBlock;
  getStartLine : Z;
  loopBlocks : list BasicBlock;
  getSubLoops : list Loop
}.

(** A region of [RegionInfo]; a region has at least its entry block, the
    first one of its block iterator. *)
Inductive Region : Type := mkRegion {
  regionId : nat;
  block_begin : BasicBlock;
  block_rest : list BasicBlock;
  getEnteringBlock : option BasicBlock;
  isTopLevelRegion : bool;
  subRegions : list Region
}.

Set Elimination Schemes.

Definition regionBlocks (R : Region) : list BasicBlock :=
  block_begin R :: block_rest R.

(** [R->contains(BB)]. *)
Definition contains (R : Region) (BB : BasicBlock) : bool :=
  existsb (fun B => Nat.eqb (blockId B) (blockId BB)) (regionBlocks R).

Record Function := {
  isDeclaration : bool;
  isIntrinsic : bool;
  hasAvailableExternallyLinkage : bool;
  fblocks : list BasicBlock
}.

(** A name the module does not define is a declaration without a body. *)
Definition externalDeclaration : Function :=
  {| isDeclaration := true; isIntrinsic := false;
     hasAvailableExternallyLinkage := false; fblocks := [] |}.

(** The module maps the name of a function to the function; a name is what
    a [Function*] is in this embedding. *)
Definition getFunction (M : gmap string Function) (F : string) : Function :=
  default externalDeclaration (M !! F).

(** All the loops of a nest, the root first. *)
Fixpoint loopNest (L : Loop) : list Loop :=
  L :: flat_map loopNest (getSubLoops L).

(** ** Loop predicates that read only the program *)

Section Predicates.

Variable cfg : Config.

Definition isLoopParallel (L : Loop) : bool :=
  match getLoopLatch L with
  | None => false
  | Some BB =>
      let MD := mdIsParallel (getTerminator BB) in
      let MDDivergent := mdIsDivergent (getTerminator BB) in
      if negb MD then false
      else if ClDivergent cfg && MDDivergent then false
      else true
  end.

(** The pragma of [denotateLoopParallel] for a guard [condition]. *)
Definition loopPragma (condition : string) : string :=
  if Ascii.eqb (ClEmitOMP cfg) OMP_GPU || Ascii.eqb (ClEmitOMP cfg) OMP_CPU
  then "#pragma omp parallel for " +:+ condition +:+ Str.nl
  else "#pragma acc loop independent " +:+ condition +:+ Str.nl.

(** The pragma of [writeKernels]. *)
Definition kernelsPragma (NAME : string) (restric : bool) : string :=
  let flag := if restric then " if(!RST_" +:+ NAME +:+ ")" else EmptyString in
  "#pragma acc kernels" +:+ flag +:+ Str.nl.

End Predicates.

(** ** The analyses and the state of the pass *)

Section Pass.

(** The state of [PtrRangeAnalysis]; the pass reads flags from it and
    changes it through [analyzeReducedRegion]. *)
Context {PtrRA : Type}.

(** The analyses [runOnFunction] obtains for the function it is given. The
    recovery of expressions ([RecoverCode]) is given the name of the
    computation, the target and the state of the range analysis; a
    success carries the guard of the restrict pragma or the restrict flag
    and the comments of the descriptor, in the order of its map. *)
Record Analyses := {
  li_getLoopFor : BasicBlock -> option Loop;
  rp_getRegionFor : BasicBlock -> Region;
  rp_topLevelRegion : Region;
  ptrRA_initial : PtrRA;
  ptrRA_HasFullSideEffectInfo : PtrRA -> Region -> bool;
  ptrRA_analyzeReducedRegion : Region -> PtrRA -> PtrRA;
  rr_isSafetly : Region -> bool;
  rr_returnReducedRegion : Region -> option Region;
  st_isSafetlyRegionLoops : Region -> bool;
  st_getStartRegionLoops : Region -> Z;
  st_getEndRegionLoops : Region -> Z;
  RC_analyzeLoop :
    string -> ascii -> PtrRA -> Loop -> Z -> option (string * list (N * string));
  RC_analyzeRegion :
    string -> ascii -> PtrRA -> Region -> Z -> option (bool * list (N * string))
}.

(** The members of the pass, the four statistics of the file and the
    state of the range analysis. [Descriptors] is a trace: the sequence
    numbers of the names given to [RC.setNAME], the latest first.
    [undefinedBehaviour] is a mark, not a member: it is set when control has
    flowed off the end of [annotateAccKernels], a function that returns
    [bool], without a [return] statement. The language leaves the behaviour
    of the program undefined from there on: the fields of a state with the
    mark are those of a run in which the call comes back to
    [writeComputation] and [writeComputation] returns at once, and the
    language does not promise them. *)
Record PassState := {
  NewVars : Z;
  Comments : gmap N string;
  routines : gmap string bool;
  isknowedLoop : gmap nat bool;
  Expression : list string;
  numL : N;
  numAL : N;
  numWL : N;
  numFLC : N;
  ptrRA : PtrRA;
  Descriptors : list Z;
  undefinedBehaviour : bool
}.

Definition set_NewVars (v : Z) (s : PassState) : PassState :=
  {| NewVars := v; Comments := Comments s; routines := routines s;
     isknowedLoop := isknowedLoop s; Expression := Expression s;
     numL := numL s; numAL := numAL s; numWL := numWL s; numFLC := numFLC s;
     ptrRA := ptrRA s; Descriptors := Descriptors s;
     undefinedBehaviour := undefinedBehaviour s |}.

Definition set_Comments (f : gmap N string -> gmap N string) (s : PassState)
    : PassState :=
  {| NewVars := NewVars s; Comments := f (Comments s); routines := routines s;
     isknowedLoop := isknowedLoop s; Expression := Expression s;
     numL := numL s; numAL := numAL s; numWL := numWL s; numFLC := numFLC s;
     ptrRA := ptrRA s; Descriptors := Descriptors s;
     undefinedBehaviour := undefinedBehaviour s |}.

Definition set_routines (f : gmap string bool -> gmap string bool)
    (s : PassState) : PassState :=
  {| NewVars := NewVars s; Comments := Comments s; routines := f (routines s);
     isknowedLoop := isknowedLoop s; Expression := Expression s;
     numL := numL s; numAL := numAL s; numWL := numWL s; numFLC := numFLC s;
     ptrRA := ptrRA s; Descriptors := Descriptors s;
     undefinedBehaviour := undefinedBehaviour s |}.

Definition set_isknowedLoop (m : gmap nat bool) (s : PassState) : PassState :=
  {| NewVars := NewVars s; Comments := Comments s; routines := routines s;
     isknowedLoop := m; Expression := Expression s;
     numL := numL s; numAL := numAL s; numWL := numWL s; numFLC := numFLC s;
     ptrRA := ptrRA s; Descriptors := Descriptors s;
     undefinedBehaviour := undefinedBehaviour s |}.

Definition set_Expression (e : list string) (s : PassState) : PassState :=
  {| NewVars := NewVars s; Comments := Comments s; routines := routines s;
     isknowedLoop := isknowedLoop s; Expression := e;
     numL := numL s; numAL := numAL s; numWL := numWL s; numFLC := numFLC s;
     ptrRA := ptrRA s; Descriptors := Descriptors s;
     undefinedBehaviour := undefinedBehaviour s |}.

Definition incr_numL (s : PassState) : PassState :=
  {| NewVars := NewVars s; Comments := Comments s; routines := routines s;
     isknowedLoop := isknowedLoop s; Expression := Expression s;
     numL := N.succ (numL s); numAL := numAL s; numWL := numWL s;
     numFLC := numFLC s; ptrRA := ptrRA s; Descriptors := Descriptors s;
     undefinedBehaviour := undefinedBehaviour s |}.

Definition incr_numAL (s : PassState) : PassState :=
  {| NewVars := NewVars s; Comments := Comments s; routines := routines s;
     isknowedLoop := isknowedLoop s; Expression := Expression s;
     numL := numL s; numAL := N.succ (numAL s); numWL := numWL s;
     numFLC := numFLC s; ptrRA := ptrRA s; Descriptors := Descriptors s;
     undefinedBehaviour := undefinedBehaviour s |}.

Definition incr_numWL (s : PassState) : PassState :=
  {| NewVars := NewVars s; Comments := Comments s; routines := routines s;
     isknowedLoop := isknowedLoop s; Expression := Expression s;
     numL := numL s; numAL := numAL s; numWL := N.succ (numWL s);
     numFLC := numFLC s; ptrRA := ptrRA s; Descriptors := Descriptors s;
     undefinedBehaviour := undefinedBehaviour s |}.

Definition incr_numFLC (s : PassState) : PassState :=
  {| NewVars := NewVars s; Comments := Comments s; routines := routines s;
     isknowedLoop := isknowedLoop s; Expression := Expression s;
     numL := numL s; numAL := numAL s; numWL := numWL s;
     numFLC := N.succ (numFLC s); ptrRA := ptrRA s;
     Descriptors := Descriptors s;
     undefinedBehaviour := undefinedBehaviour s |}.

Definition set_ptrRA (p : PtrRA) (s : PassState) : PassState :=
  {| NewVars := NewVars s; Comments := Comments s; routines := routines s;
     isknowedLoop := isknowedLoop s; Expression := Expression s;
     numL := numL s; numAL := numAL s; numWL := numWL s; numFLC := numFLC s;
     ptrRA := p; Descriptors := Descriptors s;
     undefinedBehaviour := undefinedBehaviour s |}.

Definition record_Descriptor (n : Z) (s : PassState) : PassState :=
  {| NewVars := NewVars s; Comments := Comments s; routines := routines s;
     isknowedLoop := isknowedLoop s; Expression := Expression s;
     numL := numL s; numAL := numAL s; numWL := numWL s; numFLC := numFLC s;
     ptrRA := ptrRA s; Descriptors := n :: Descriptors s;
     undefinedBehaviour := undefinedBehaviour s |}.

Definition mark_undefined (s : PassState) : PassState :=
  {| NewVars := NewVars s; Comments := Comments s; routines := routines s;
     isknowedLoop := isknowedLoop s; Expression := Expression s;
     numL := numL s; numAL := numAL s; numWL := numWL s; numFLC := numFLC s;
     ptrRA := ptrRA s; Descriptors := Descriptors s;
     undefinedBehaviour := true |}.

(** The two ways a call of [annotateAccKernels] ends: with [return false],
    or at the closing brace of the function, which no [return] statement
    precedes. Each carries the state of the pass at that point. *)
Inductive KernelsEnd : Type :=
| ReturnsFalse (st : PassState)
| FlowsOffEnd (st : PassState).

Definition stateAt (e : KernelsEnd) : PassState :=
  match e with
  | ReturnsFalse st => st
  | FlowsOffEnd st => st
  end.

End Pass.

Arguments Analyses : clear implicits.
Arguments PassState : clear implicits.
Arguments KernelsEnd : clear implicits.

(** ** The operations of the pass *)

Definition isNull {A : Type} (p : option A) : bool :=
  match p with
  | None => true
  | Some _ => false
  end.

Section Operations.

Context {PtrRA : Type}.
Variable cfg : Config.
Variable M : gmap string Function.
Variable an : Analyses PtrRA.

Abbreviation State := (PassState PtrRA).

Definition regionofBasicBlock (bb : BasicBlock) : Region :=
  rp_getRegionFor an bb.

Definition isLoopAnalyzable (st : State) (L : Loop) : bool :=
  if negb (ptrRA_HasFullSideEffectInfo an (ptrRA st)
             (rp_getRegionFor an (getHeader L)))
  then false
  else forallb
         (fun B => ptrRA_HasFullSideEffectInfo an (ptrRA st) (regionofBasicBlock B))
         (loopBlocks L).

Definition analyzeCalls (L : Loop) (st : State) : State :=
  if negb (isLoopAnalyzable st L) then st
  else
    fold_left
      (fun s Inst =>
         match getCalledFunction Inst with
         | Some _ =>
             if negb (String.eqb (instName Inst) EmptyString) then incr_numFLC s
             else s
         | None => s
         end)
      (allInstructions (loopBlocks L)) st.

Definition clearExpression (st : State) : State := set_Expression [] st.

Fixpoint denotateLoopParallel (L : Loop) (condition : string) (st : State)
    : State :=
  let pragma := loopPragma cfg condition in
  match getLoopLatch L with
  | None => st
  | Some BB =>
      let MD := mdIsParallel (getTerminator BB) in
      let MDDivergent := mdIsDivergent (getTerminator BB) in
      if ClDivergent cfg && MDDivergent then st
      else if negb MD then st
      else
        let line := getStartLine L in
        let st := incr_numWL st in
        let st := set_Comments (addCommentToLine pragma (to_unsigned line)) st in
        fold_left (fun s SubLoop => denotateLoopParallel SubLoop condition s)
          (getSubLoops L) st
  end.

Fixpoint marknumAL (L : Loop) (st : State) : State :=
  fold_left (fun s SubLoop => marknumAL SubLoop s) (getSubLoops L)
    (incr_numAL st).

Fixpoint marknumWL (L : Loop) (st : State) : State :=
  fold_left (fun s SubLoop => marknumWL SubLoop s) (getSubLoops L)
    (incr_numWL st).

(** The body of the [for] loop of [isSafeMemoryCoalescing]; [loops] is the
    local map of the function, keyed by the loop. *)
Fixpoint safeCoalescingBlocks (BBs : list BasicBlock) (loops : gmap nat bool)
    : bool :=
  match BBs with
  | [] => true
  | BB :: rest =>
      match li_getLoopFor an BB with
      | None => safeCoalescingBlocks rest loops
      | Some l =>
          let loops :=
            if decide (loops !! loopId l = None)
            then fold_left (fun m subLoop => <[loopId subLoop := true]> m)
                   (getSubLoops l) loops
            else loops in
          if negb (isLoopParallel cfg l) then false
          else safeCoalescingBlocks rest loops
      end
  end.

Definition isSafeMemoryCoalescing (R : Region) : bool :=
  if isNull (getEnteringBlock R) && negb (isTopLevelRegion R) then false
  else if negb (ClEmitParallel cfg) then true
  else safeCoalescingBlocks (regionBlocks R) ∅.

(** *** The routine registry *)

(** The walk over call instructions shared by [findACCroutines],
    [regionIdentify] and [writeComputation]: a callee that is not in the
    registry is visited, and the registry the visit returns is the one the
    next instruction tests. *)
Fixpoint forCalls (visit : string -> gmap string bool -> option (gmap string bool))
    (Insts : list Instruction) (r : gmap string bool) : option (gmap string bool) :=
  match Insts with
  | [] => Some r
  | Inst :: rest =>
      match getCalledFunction Inst with
      | Some callee =>
          if decide (r !! callee = None)
          then match visit callee r with
               | Some r' => forCalls visit rest r'
               | None => None
               end
          else forCalls visit rest r
      | None => forCalls visit rest r
      end
  end.

(** [findACCroutines] recurses along the call graph, which may have
    cycles; [fuel] bounds the depth of the recursion and [None] means that
    the bound was reached. *)
Fixpoint findACCroutines_fuel (fuel : nat) (F : string) (r : gmap string bool)
    : option (gmap string bool) :=
  match fuel with
  | O => None
  | S fuel' =>
      let Fd := getFunction M F in
      if isDeclaration Fd || isIntrinsic Fd || hasAvailableExternallyLinkage Fd
         || negb (Ascii.eqb (ClEmitOMP cfg) ACC)
      then Some r
      else
        let r := if decide (r !! F = None) then <[F := true]> r else r in
        forCalls (findACCroutines_fuel fuel') (allInstructions (fblocks Fd)) r
  end.

(** The depth of the recursion never exceeds the number of functions of
    the module by more than one (lemma [findACCroutines_total]), so this
    fuel is never used up. *)
Definition findACCroutines (F : string) (r : gmap string bool)
    : gmap string bool :=
  default r (findACCroutines_fuel (size M + 2) F r).

Definition registerCalls (BBs : list BasicBlock) (r : gmap string bool)
    : gmap string bool :=
  fold_left
    (fun r Inst =>
       match getCalledFunction Inst with
       | Some callee =>
           if decide (r !! callee = None) then findACCroutines callee r else r
       | None => r
       end)
    (allInstructions BBs) r.

(** *** Policy A: loops with the parallel metadata *)

(** [NewVars++] and the name of the new descriptor. *)
Definition newDescriptor (st : State) : string * State :=
  let st := set_NewVars (NewVars st + 1) st in
  let computationName := "AI" +:+ pretty (NewVars st) in
  (computationName, record_Descriptor (NewVars st) st).

Fixpoint regionIdentify (R : Region) (st : State) : State :=
  match li_getLoopFor an (block_begin R) with
  | None => fold_left (fun s SR => regionIdentify SR s) (subRegions R) st
  | Some l =>
      if negb (isLoopParallel cfg l) && ClEmitParallel cfg
      then fold_left (fun s SR => regionIdentify SR s) (subRegions R) st
      else if negb (isLoopAnalyzable st l) || negb (st_isSafetlyRegionLoops an R)
      then fold_left (fun s SR => regionIdentify SR s) (subRegions R) st
      else
        let st := marknumAL l st in
        let line := getStartLine l in
        if line =? ERROR_VALUE then st
        else
          let '(computationName, st) := newDescriptor st in
          match RC_analyzeLoop an computationName (ClEmitOMP cfg) (ptrRA st)
                  l line with
          | None => st
          | Some (test, RCComments) =>
              let st := set_routines (registerCalls (loopBlocks l)) st in
              let st := set_Comments (copyComments RCComments) st in
              let st := clearExpression st in
              if ClEmitParallel cfg then denotateLoopParallel l test st
              else marknumWL l st
          end
  end.

(** *** Policy B: memory coalescing *)

Definition writeKernels (L : Loop) (NAME : string) (restric : bool)
    (st : State) : State :=
  let line := getStartLine L in
  let pragma := kernelsPragma NAME restric in
  if negb (ClEmitParallel cfg) && Ascii.eqb (ClEmitOMP cfg) ACC
  then set_Comments (addCommentToLine pragma (to_unsigned line)) st
  else
    match getLoopLatch L with
    | None => st
    | Some BB =>
        if negb (mdIsParallel (getTerminator BB)) then st
        else
          let st := incr_numWL st in
          let st :=
            if Ascii.eqb (ClEmitOMP cfg) ACC
            then set_Comments (addCommentToLine pragma (to_unsigned line)) st
            else st in
          if ClEmitParallel cfg
          then marknumWL L (denotateLoopParallel L EmptyString st)
          else st
    end.

(** The queue of [annotateAccKernels] marks every loop of the nest of [l];
    the order in which a map receives the marks does not change it. For a
    region that fails [isSafeMemoryCoalescing] the function returns [false].
    For any other region it walks the blocks and then reaches its end
    without a [return] statement: the call has no defined result, and the
    state at that point is marked. *)
Definition annotateAccKernels (R : Region) (NAME : string) (restric : bool)
    (st : State) : KernelsEnd PtrRA :=
  if negb (isSafeMemoryCoalescing R) then ReturnsFalse st
  else
    FlowsOffEnd (mark_undefined (snd
      (fold_left
         (fun (acc : gmap nat bool * State) BB =>
            let '(loops, s) := acc in
            match li_getLoopFor an BB with
            | None => (loops, s)
            | Some l =>
                if negb (contains R (getHeader l)) then (loops, s)
                else
                  let '(loops, s) :=
                    if decide (loops !! loopId l = None)
                    then (<[loopId l := true]> loops, writeKernels l NAME restric s)
                    else (loops, s) in
                  (fold_left (fun m ll => <[loopId ll := true]> m)
                     (loopNest l) loops, s)
            end)
         (regionBlocks R) (∅, st)))).

(** The closing brace is written after [annotateAccKernels] has returned;
    when that call flows off its end nothing is written any more. *)
Definition writeComputation (line lineEnd : Z) (R : Region) (st : State)
    : State :=
  let '(computationName, st) := newDescriptor st in
  match RC_analyzeRegion an computationName (ClEmitOMP cfg) (ptrRA st)
          R line with
  | None => st
  | Some (restric, RCComments) =>
      let st := set_routines (registerCalls (regionBlocks R)) st in
      let st := set_Comments (copyComments RCComments) st in
      let st := clearExpression st in
      match annotateAccKernels R computationName restric st with
      | ReturnsFalse st =>
          let pragma := "}" +:+ Str.nl in
          set_Comments (addCommentToLine pragma (to_unsigned lineEnd)) st
      | FlowsOffEnd st => st
      end
  end.

Fixpoint regionIdentifyCoalescing (R : Region) (st : State) : State :=
  let line := st_getStartRegionLoops an R in
  let lineEnd := st_getEndRegionLoops an R + 1 in
  if negb (isSafeMemoryCoalescing R) || negb (st_isSafetlyRegionLoops an R)
  then fold_left (fun s SR => regionIdentifyCoalescing SR s) (subRegions R) st
  else
    let regionInvalid :=
      negb (ptrRA_HasFullSideEffectInfo an (ptrRA st) R)
      || negb (rr_isSafetly an R) in
    if regionInvalid then
      let st := set_ptrRA (ptrRA_analyzeReducedRegion an R (ptrRA st)) st in
      match rr_returnReducedRegion an R with
      | Some RR =>
          let safe := rr_isSafetly an RR in
          if safe && ptrRA_HasFullSideEffectInfo an (ptrRA st) RR
          then writeComputation line lineEnd RR st
          else fold_left (fun s SR => regionIdentifyCoalescing SR s)
                 (subRegions R) st
      | None =>
          fold_left (fun s SR => regionIdentifyCoalescing SR s)
            (subRegions R) st
      end
    else writeComputation line lineEnd R st.

(** *** The entry points *)

(** The first [for] loop of [functionIdentify] counts the loops of the
    function once each. *)
Definition countLoops (BBs : list BasicBlock) (st : State) : State :=
  snd
    (fold_left
       (fun (acc : gmap nat bool * State) B =>
          let '(loops, s) := acc in
          match li_getLoopFor an B with
          | Some l =>
              if decide (loops !! loopId l = None)
              then (<[loopId l := true]> loops, incr_numL s)
              else (loops, s)
          | None => (loops, s)
          end)
       BBs (∅, st)).

(** The walk from the region of the entry block along the parent links
    ends at the root of the region tree, [rp_topLevelRegion]. *)
Definition functionIdentify (F : Function) (st : State) : State :=
  let st := countLoops (fblocks F) st in
  let topRegion := rp_topLevelRegion an in
  if ClCoalescing cfg then regionIdentifyCoalescing topRegion st
  else regionIdentify topRegion st.

Definition runOnFunction (F : Function) (st : State) : State :=
  let st := set_ptrRA (ptrRA_initial an) st in
  let st := set_NewVars 0 st in
  let st := set_Comments (fun _ => ∅) st in
  let st := set_isknowedLoop ∅ st in
  functionIdentify F st.

End Operations.

(** ** A run of the pass *)

(** The state of a fresh pass object: the registry and the comment map are
    empty and the statistics are zero. *)
Definition initialState {PtrRA : Type} (p : PtrRA) : PassState PtrRA :=
  {| NewVars := 0; Comments := ∅; routines := ∅; isknowedLoop := ∅;
     Expression := []; numL := 0; numAL := 0; numWL := 0; numFLC := 0;
     ptrRA := p; Descriptors := []; undefinedBehaviour := false |}.

(** The pass manager calls [runOnFunction] on the functions of the module
    that have a body, one after the other, each with its own analyses. *)
Definition runPass {PtrRA : Type} (cfg : Config) (M : gmap string Function)
    (Fs : list (Analyses PtrRA * Function)) (st : PassState PtrRA)
    : PassState PtrRA :=
  fold_left (fun s anF => runOnFunction cfg M (fst anF) (snd anF) s) Fs st.

(** ** Concrete programs *)

Module Examples.

Definition plain : Instruction :=
  {| getCalledFunction := None; instName := EmptyString;
     mdIsParallel := false; mdIsDivergent := false |}.

(** A terminator that carries [isParallel]. *)
Definition parallelBr : Instruction :=
  {| getCalledFunction := None; instName := EmptyString;
     mdIsParallel := true; mdIsDivergent := false |}.

Definition call (callee : string) : Instruction :=
  {| getCalledFunction := Some callee; instName := "r";
     mdIsParallel := false; mdIsDivergent := false |}.

Definition block (n : nat) (term : Instruction) : BasicBlock :=
  {| blockId := n; body := []; getTerminator := term |}.

(** *** A nest of two loops: the outer one is marked, the inner one not *)

Definition inner : Loop :=
  mkLoop 2 (block 3 plain) (Some (block 4 plain)) 12
    [block 3 plain; block 4 plain] [].

Definition outer : Loop :=
  mkLoop 1 (block 1 plain) (Some (block 5 parallelBr)) 10
    [block 1 plain; block 3 plain; block 4 plain; block 5 parallelBr] [inner].

(** The same nest with both loops marked. *)
Definition innerMarked : Loop :=
  mkLoop 2 (block 3 plain) (Some (block 4 parallelBr)) 12
    [block 3 plain; block 4 parallelBr] [].

Definition outerMarked : Loop :=
  mkLoop 1 (block 1 plain) (Some (block 5 parallelBr)) 10
    [block 1 plain; block 3 plain; block 4 parallelBr; block 5 parallelBr]
    [innerMarked].

Definition cfgParallel : Config :=
  {| ClEmitParallel := true; ClEmitOMP := ACC; ClInput := EmptyString;
     ClDivergent := false; ClCoalescing := false |}.

(** *** A region without full information and its reduced region *)

(** The range analysis is the set of the regions with full side-effect
    information. *)
Definition loopOfChild : Loop :=
  mkLoop 1 (block 2 plain) (Some (block 2 plain)) 20 [block 2 plain] [].

Definition child : Region :=
  mkRegion 2 (block 2 plain) [] (Some (block 1 plain)) false [].

Definition top : Region :=
  mkRegion 1 (block 1 plain) [block 2 plain] None true [child].

Definition cfgCoalescing : Config :=
  {| ClEmitParallel := false; ClEmitOMP := ACC; ClInput := EmptyString;
     ClDivergent := false; ClCoalescing := true |}.

Definition dataPragma (NAME : string) : string :=
  "#pragma acc data " +:+ NAME +:+ Str.nl +:+ "{" +:+ Str.nl.

Definition anCoalescing : Analyses (gset nat) :=
  {| li_getLoopFor := fun BB => if Nat.eqb (blockId BB) 2 then Some loopOfChild else None;
     rp_getRegionFor := fun BB => if Nat.eqb (blockId BB) 2 then child else top;
     rp_topLevelRegion := top;
     ptrRA_initial := {[ 2%nat ]};
     ptrRA_HasFullSideEffectInfo := fun p R => bool_decide (regionId R ∈ p);
     ptrRA_analyzeReducedRegion := fun _ p => p;
     rr_isSafetly := fun _ => true;
     rr_returnReducedRegion := fun R => if Nat.eqb (regionId R) 1 then Some child else None;
     st_isSafetlyRegionLoops := fun _ => true;
     st_getStartRegionLoops := fun R => if Nat.eqb (regionId R) 1 then 5 else 20;
     st_getEndRegionLoops := fun R => if Nat.eqb (regionId R) 1 then 40 else 30;
     RC_analyzeLoop := fun NAME _ _ _ line => Some (EmptyString, [(to_unsigned line, dataPragma NAME)]);
     RC_analyzeRegion := fun NAME _ _ _ line => Some (false, [(to_unsigned line, dataPragma NAME)]) |}.

Definition theFunction : Function :=
  {| isDeclaration := false; isIntrinsic := false;
     hasAvailableExternallyLinkage := false;
     fblocks := [block 1 plain; block 2 plain] |}.

(** The state in which [regionIdentifyCoalescing] is entered. *)
Definition entryState : PassState (gset nat) :=
  initialState ({[ 2%nat ]} : gset nat).

(** A region without entering block that is not the top-level region. *)
Definition orphan : Region :=
  mkRegion 9 (block 1 plain) [] None false [].

(** A run over two functions of the same shape. *)
Definition twoFunctions : list (Analyses (gset nat) * Function) :=
  [(anCoalescing, theFunction); (anCoalescing, theFunction)].

(** *** Two functions that call each other *)

Definition callerOf (callee : string) : Function :=
  {| isDeclaration := false; isIntrinsic := false;
     hasAvailableExternallyLinkage := false;
     fblocks := [ {| blockId := 0; body := [call callee]; getTerminator := plain |} ] |}.

Definition cycle : gmap string Function :=
  <["F" := callerOf "G"]> (<["G" := callerOf "F"]> ∅).

End Examples.

(** ** Relations used in the statements *)

(** [markedChain cfg L L'] : [L'] is reached from [L] through sub-loops, and
    [L], [L'] and every loop between them pass [isLoopParallel]. *)
Inductive markedChain (cfg : Config) : Loop -> Loop -> Prop :=
| markedChain_here (L : Loop) :
    isLoopParallel cfg L = true -> markedChain cfg L L
| markedChain_sub (L SubLoop L' : Loop) :
    isLoopParallel cfg L = true ->
    In SubLoop (getSubLoops L) ->
    markedChain cfg SubLoop L' ->
    markedChain cfg L L'.

(** The number of functions of the module that are not in the registry:
    the measure that bounds the recursion of [findACCroutines]. *)
Definition unvisitedFunctions (M : gmap string Function) (r : gmap string bool)
    : nat :=
  size ((dom M : gset string) ∖ dom r).

(** [allocates st st'] : between [st] and [st'] the counter [NewVars] did
    not decrease, and the descriptors created in between received pairwise
    distinct sequence numbers, all of them above the counter of [st] and
    none above the counter of [st']. *)
Definition allocates {PtrRA : Type} (st st' : PassState PtrRA) : Prop :=
  NewVars st <= NewVars st'
  /\ exists new : list Z,
       Descriptors st' = new ++ Descriptors st
       /\ NoDup new
       /\ Forall (fun k => NewVars st < k <= NewVars st') new.

(** ** Source lines *)

Definition INT_MAX : Z := 2 ^ 31 - 1.

(** The value an [int] holds after an arithmetic operation whose result on
    unbounded integers is [z]: the result is reduced to 32 bits, in two's
    complement, as the machine does it. Past [INT_MAX] it wraps around to
    the negative numbers. *)
Definition wrap_int (z : Z) : Z := (z + 2 ^ 31) mod 2 ^ 32 - 2 ^ 31.

(** The conversion of an [unsigned int] to [int]. *)
Definition to_int (n : N) : Z :=
  let z := Z.of_N n mod 2 ^ 32 in
  if z <? 2 ^ 31 then z else z - 2 ^ 32.

(** A metadata node is a [DILocation] with its line or another node. *)
Inductive MDNode : Type :=
| DILocation (line : N)
| MDOther.

(** A value is an instruction, with the node of its [dbg] metadata when it
    has one, or some other value. *)
Inductive Value : Type :=
| ValInstruction (dbg : option MDNode)
| ValOther.

(** [getLineNo] is given a pointer, which may be null. *)
Definition getLineNo (V : option Value) : Z :=
  match V with
  | None => ERROR_VALUE
  | Some (ValInstruction (Some (DILocation line))) => to_int line
  | Some _ => ERROR_VALUE
  end.

Section Lines.

(** The [dbg] metadata of the instructions of a block, in the order of the
    block. *)
Variable dbg : BasicBlock -> list (option MDNode).

(** The two nested [for] loops of [returnLoopEndLine] and
    [returnRegionEndLine]: the largest line of an instruction, starting
    from [ERROR_VALUE]. *)
Definition maxInstructionLine (BBs : list BasicBlock) : Z :=
  fold_left
    (fun maxLine BB =>
       fold_left
         (fun maxLine d =>
            let line := getLineNo (Some (ValInstruction d)) in
            if negb (line =? ERROR_VALUE) && (maxLine <? line) then line
            else maxLine)
         (dbg BB) maxLine)
    BBs ERROR_VALUE.

(** [maxLine++] is the increment of an [int]. *)
Definition returnRegionEndLine (R : Region) : Z :=
  let maxLine := maxInstructionLine (regionBlocks R) in
  if negb (maxLine =? ERROR_VALUE) then wrap_int (maxLine + 1) else maxLine.

(** [getUniqueExitBlock] is not among the fields of [Loop]; it is given by
    [LoopInfo]. *)
Definition returnLoopEndLine (getUniqueExitBlock : Loop -> option BasicBlock)
    (L : Loop) : Z :=
  match getUniqueExitBlock L with
  | None => ERROR_VALUE
  | Some _ =>
      let maxLine := maxInstructionLine (loopBlocks L) in
      if negb (maxLine =? ERROR_VALUE) then wrap_int (maxLine + 1) else maxLine
  end.

End Lines.

(** The first loop of [returnRegionStartLine]: the loops of the blocks of
    the region, each one once, keyed by the loop. *)
Definition loopsOfBlocks {PtrRA : Type} (an : Analyses PtrRA)
    (BBs : list BasicBlock) : gmap nat Loop :=
  fold_left
    (fun loops BB =>
       match li_getLoopFor an BB with
       | Some L =>
           if decide (loops !! loopId L = None) then <[loopId L := L]> loops
           else loops
       | None => loops
       end)
    BBs ∅.

Definition returnRegionStartLine {PtrRA : Type} (an : Analyses PtrRA)
    (R : Region) : Z :=
  map_fold
    (fun (_ : nat) (L : Loop) (minLine : Z) =>
       let line := getStartLine L in
       if line <? minLine then line else minLine)
    INT_MAX (loopsOfBlocks an (regionBlocks R)).

Definition hasLoopParallel (R : Region) : bool :=
  existsb (fun B => mdIsParallel (getTerminator B)) (regionBlocks R).

(** ** The file of parallel loops *)

(** What [readParallelLoops] uses of an input stream: the characters that
    are left to read and the two state bits [eofbit] and [failbit]. A stream
    on a file that could not be opened has [failbit] set and nothing to
    read. Read errors of the device are not modelled. *)
Record IStream := {
  buffer : string;
  eofbit : bool;
  failbit : bool
}.

(** The stream of [fstream Infile(name)]; [None] is a file that cannot be
    opened. *)
Definition openFile (content : option string) : IStream :=
  match content with
  | Some s => {| buffer := s; eofbit := false; failbit := false |}
  | None => {| buffer := EmptyString; eofbit := false; failbit := true |}
  end.

Definition isNewline (c : ascii) : bool := Ascii.eqb c (ascii_of_nat 10).

(** The characters before the first line break, and what follows the line
    break when there is one. *)
Fixpoint extractLine (s : string) : string * option string :=
  match s with
  | EmptyString => (EmptyString, None)
  | String c s' =>
      if isNewline c then (EmptyString, Some s')
      else let '(l, rest) := extractLine s' in (String c l, rest)
  end.

(** [std::getline(Infile, Line)]: a stream that is not good only gets
    [failbit] and [Line] is left as it is; otherwise the characters up to
    the line break are stored and the line break is dropped; when the end of
    the file is met first, [eofbit] is set, and [failbit] too when no
    character was stored. *)
Definition getline (Infile : IStream) (Line : string) : IStream * string :=
  if eofbit Infile || failbit Infile
  then ({| buffer := buffer Infile; eofbit := eofbit Infile; failbit := true |}, Line)
  else
    match extractLine (buffer Infile) with
    | (l, Some rest) =>
        ({| buffer := rest; eofbit := false; failbit := false |}, l)
    | (l, None) =>
        ({| buffer := EmptyString; eofbit := true;
            failbit := match l with EmptyString => true | _ => false end |}, l)
    end.

(** The value of a [char] as an [int]; whether [char] is signed is a choice
    of the platform. *)
Definition charValue (char_signed : bool) (c : ascii) : Z :=
  let n := Z.of_nat (nat_of_ascii c) in
  if char_signed && (128 <=? n) then n - 256 else n.

(** The inner [for] loop of [readParallelLoops], on the [unsigned int]
    [nLine]. *)
Fixpoint parseLineFrom (char_signed : bool) (nLine : Z) (Line : string) : Z :=
  match Line with
  | EmptyString => nLine
  | String c rest =>
      let nLine := (nLine * 10) mod 2 ^ 32 in
      let nLine := (nLine + (charValue char_signed c - 48)) mod 2 ^ 32 in
      parseLineFrom char_signed nLine rest
  end.

Definition parseLine (char_signed : bool) (Line : string) : N :=
  Z.to_N (parseLineFrom char_signed 0 Line).

(** The pragma of [readParallelLoops]. *)
Definition filePragma (cfg : Config) : string :=
  if Ascii.eqb (ClEmitOMP cfg) OMP_GPU || Ascii.eqb (ClEmitOMP cfg) OMP_CPU
  then "#pragma omp parallel for" +:+ Str.nl
  else "#pragma acc loop independent" +:+ Str.nl.

(** The [while] loop of [readParallelLoops]; [fuel] bounds the number of
    its iterations and [None] means that the bound was reached. *)
Fixpoint readParallelLoops_loop {PtrRA : Type} (cfg : Config)
    (char_signed : bool) (fuel : nat) (Infile : IStream)
    (st : PassState PtrRA) : option (PassState PtrRA) :=
  match fuel with
  | O => None
  | S fuel' =>
      if eofbit Infile then Some st
      else
        let '(Infile, Line) := getline Infile EmptyString in
        let nLine := parseLine char_signed Line in
        let pragma := filePragma cfg in
        readParallelLoops_loop cfg char_signed fuel' Infile
          (set_Comments (addCommentToLine pragma nLine) st)
  end.

(** [file] is the content of the file named by [ClInput]. *)
Definition readParallelLoops {PtrRA : Type} (cfg : Config) (char_signed : bool)
    (fuel : nat) (file : option string) (st : PassState PtrRA)
    : option (PassState PtrRA) :=
  readParallelLoops_loop cfg char_signed fuel (openFile file) st.

(** The lines of a text: the pieces between its line breaks. A text that is
    empty or ends with a line break has an empty last line. *)
Fixpoint fileLines (s : string) : list string :=
  match s with
  | EmptyString => [EmptyString]
  | String c s' =>
      if isNewline c then EmptyString :: fileLines s'
      else match fileLines s' with
           | l :: ls => String c l :: ls
           | [] => [String c EmptyString]
           end
  end.

(** The state after the pragma was added for each line of a list. *)
Definition addPragmaForLines {PtrRA : Type} (cfg : Config) (char_signed : bool)
    (Lines : list string) (st : PassState PtrRA) : PassState PtrRA :=
  fold_left
    (fun s Line =>
       set_Comments
         (addCommentToLine (filePragma cfg) (parseLine char_signed Line)) s)
    Lines st.

(** ** The call graph *)

(** A function passes the guard of [findACCroutines]. *)
Definition eligible (cfg : Config) (M : gmap string Function) (F : string)
    : bool :=
  negb (isDeclaration (getFunction M F) || isIntrinsic (getFunction M F)
        || hasAvailableExternallyLinkage (getFunction M F)
        || negb (Ascii.eqb (ClEmitOMP cfg) ACC)).

(** The functions the call instructions of a list of instructions call. *)
Definition callees (Insts : list Instruction) : list string :=
  omap getCalledFunction Insts.

Definition callsOf (M : gmap string Function) (F : string) : list string :=
  callees (allInstructions (fblocks (getFunction M F))).

(** [reachable cfg M F G] : [G] is reached from [F] along calls, and [F],
    [G] and every function between them pass the guard. *)
Inductive reachable (cfg : Config) (M : gmap string Function)
    : string -> string -> Prop :=
| reachable_here (F : string) :
    eligible cfg M F = true -> reachable cfg M F F
| reachable_call (F g G : string) :
    eligible cfg M F = true ->
    In g (callsOf M F) ->
    reachable cfg M g G ->
    reachable cfg M F G.

(** The loops [denotateLoopParallel] annotates in a nest. *)
Fixpoint annotatedLoops (cfg : Config) (L : Loop) : list Loop :=
  if isLoopParallel cfg L
  then L :: flat_map (annotatedLoops cfg) (getSubLoops L)
  else [].


(** The call instructions [analyzeCalls] counts. *)
Definition namedCalls (Insts : list Instruction) : list Instruction :=
  filter (fun Inst => is_Some (getCalledFunction Inst)
                      /\ instName Inst <> EmptyString) Insts.

(** The loops of the blocks of a list, as the set of their keys. *)
Definition loopIdsOfBlocks {PtrRA : Type} (an : Analyses PtrRA)
    (BBs : list BasicBlock) : gset nat :=
  list_to_set (omap (fun BB => loopId <$> li_getLoopFor an BB) BBs).

(** A configuration with an OpenMP target for the host. *)
Definition cfgOpenMP : Config :=
  {| ClEmitParallel := false; ClEmitOMP := OMP_CPU; ClInput := EmptyString;
     ClDivergent := false; ClCoalescing := true |}.


(** [commentsExtended m m'] : every line of [m] is a line of [m'], and the
    text it has in [m] is the beginning of the text it has in [m']. *)
Definition commentsExtended (m m' : gmap N string) : Prop :=
  forall (Line : N) (text : string),
    m !! Line = Some text ->
    exists suffix, m' !! Line = Some (text +:+ suffix).


(** [closedUnderCalls cfg M r r'] : the functions that [r'] has and [r] has
    not have all their eligible callees in [r']. *)
Definition closedUnderCalls (cfg : Config) (M : gmap string Function)
    (r r' : gmap string bool) : Prop :=
  forall G, G ∈ (dom r' : gset string) -> G ∉ (dom r : gset string) ->
    forall g, In g (callsOf M G) -> eligible cfg M g = true ->
      g ∈ (dom r' : gset string).

(** The lines [getLineNo] returns for the instructions of a list of blocks,
    in the order of the two nested loops. *)
Definition instructionLines (dbg : BasicBlock -> list (option MDNode))
    (BBs : list BasicBlock) : list Z :=
  map (fun d => getLineNo (Some (ValInstruction d))) (flat_map dbg BBs).

(** A block whose only instruction is at the given line. *)
Definition dbgAtLine (line : N) : BasicBlock -> list (option MDNode) :=
  fun _ => [Some (DILocation line)].


(** One step of the search for the largest line in [maxInstructionLine]. *)
Definition keepMax (maxLine line : Z) : Z :=
  if negb (line =? ERROR_VALUE) && (maxLine <? line) then line else maxLine.

(** The inner loop of [readParallelLoops] on unbounded integers. *)
Fixpoint parseExact (char_signed : bool) (nLine : Z) (Line : string) : Z :=
  match Line with
  | EmptyString => nLine
  | String c rest =>
      parseExact char_signed (nLine * 10 + (charValue char_signed c - 48)) rest
  end.


(** Analyses for a function whose top-level region starts in the marked
    nest [Examples.outerMarked]; every region has full information. *)
Definition anMarkedNest : Analyses (gset nat) :=
  {| li_getLoopFor := fun _ => Some Examples.outerMarked;
     rp_getRegionFor := fun _ => Examples.top;
     rp_topLevelRegion := Examples.top;
     ptrRA_initial := ∅;
     ptrRA_HasFullSideEffectInfo := fun _ _ => true;
     ptrRA_analyzeReducedRegion := fun _ p => p;
     rr_isSafetly := fun _ => true;
     rr_returnReducedRegion := fun _ => None;
     st_isSafetlyRegionLoops := fun _ => true;
     st_getStartRegionLoops := fun _ => 10;
     st_getEndRegionLoops := fun _ => 14;
     RC_analyzeLoop :=
       fun NAME _ _ _ line =>
         Some ("if(1)"%string, [(to_unsigned line, Examples.dataPragma NAME)]);
     RC_analyzeRegion :=
       fun NAME _ _ _ line =>
         Some (false, [(to_unsigned line, Examples.dataPragma NAME)]) |}.


(** A loop whose start line is unknown, and analyses for a function whose
    top-level region starts in it. *)
Definition loopWithoutLine : Loop :=
  mkLoop 6 (Examples.block 1 Examples.plain)
    (Some (Examples.block 1 Examples.plain)) ERROR_VALUE
    [Examples.block 1 Examples.plain] [Examples.inner].

Definition anWithoutLine : Analyses (gset nat) :=
  {| li_getLoopFor := fun _ => Some loopWithoutLine;
     rp_getRegionFor := fun _ => Examples.top;
     rp_topLevelRegion := Examples.top;
     ptrRA_initial := ∅;
     ptrRA_HasFullSideEffectInfo := fun _ _ => true;
     ptrRA_analyzeReducedRegion := fun _ p => p;
     rr_isSafetly := fun _ => true;
     rr_returnReducedRegion := fun _ => None;
     st_isSafetlyRegionLoops := fun _ => true;
     st_getStartRegionLoops := fun _ => 10;
     st_getEndRegionLoops := fun _ => 14;
     RC_analyzeLoop := fun _ _ _ _ _ => None;
     RC_analyzeRegion := fun _ _ _ _ _ => None |}.


(** ** More concrete programs *)

(** The traversal of the loops with the parallel metadata, without the
    parallel mode. *)
Definition cfgLoops : Config :=
  {| ClEmitParallel := false; ClEmitOMP := ACC; ClInput := EmptyString;
     ClDivergent := false; ClCoalescing := false |}.

(** Analyses in which the range analysis is the set of the regions with
    full side-effect information, the analysis of a reduced region changes
    nothing, every region is safe for the reconstruction and for the scope
    tree, and the recovery of expressions always succeeds with one comment,
    on the line it is given. *)
Definition analysesOf (loopFor : BasicBlock -> option Loop)
    (regionFor : BasicBlock -> Region) (top : Region) (full : gset nat)
    (reducedOf : Region -> option Region) (startOf endOf : Region -> Z)
    : Analyses (gset nat) :=
  {| li_getLoopFor := loopFor;
     rp_getRegionFor := regionFor;
     rp_topLevelRegion := top;
     ptrRA_initial := full;
     ptrRA_HasFullSideEffectInfo := fun p R => bool_decide (regionId R ∈ p);
     ptrRA_analyzeReducedRegion := fun _ p => p;
     rr_isSafetly := fun _ => true;
     rr_returnReducedRegion := reducedOf;
     st_isSafetlyRegionLoops := fun _ => true;
     st_getStartRegionLoops := startOf;
     st_getEndRegionLoops := endOf;
     RC_analyzeLoop :=
       fun NAME _ _ _ line =>
         Some (EmptyString, [(to_unsigned line, Examples.dataPragma NAME)]);
     RC_analyzeRegion :=
       fun NAME _ _ _ line =>
         Some (false, [(to_unsigned line, Examples.dataPragma NAME)]) |}.

(** A region without full information whose reduced region has no entering
    block and is not the top-level region: [annotateAccKernels] returns
    [false] for it. The region spans the lines 5 to 40, the reduced region
    the lines 20 to 30. *)
Module Reduction.

Definition reduced : Region :=
  mkRegion 2 (Examples.block 2 Examples.plain) [] None false [].

Definition top : Region :=
  mkRegion 1 (Examples.block 1 Examples.plain) [Examples.block 2 Examples.plain]
    None true [reduced].

Definition an : Analyses (gset nat) :=
  analysesOf
    (fun BB => if Nat.eqb (blockId BB) 2 then Some Examples.loopOfChild else None)
    (fun BB => if Nat.eqb (blockId BB) 2 then reduced else top)
    top {[ 2%nat ]}
    (fun R => if Nat.eqb (regionId R) 1 then Some reduced else None)
    (fun R => if Nat.eqb (regionId R) 1 then 5 else 20)
    (fun R => if Nat.eqb (regionId R) 1 then 40 else 30).

(** The state [regionIdentifyCoalescing] leaves for [top]. *)
Definition annotated : PassState (gset nat) :=
  regionIdentifyCoalescing Examples.cfgCoalescing ∅ an top Examples.entryState.

(** The state a descent into the children of [top] leaves. *)
Definition descended : PassState (gset nat) :=
  fold_left
    (fun s SR => regionIdentifyCoalescing Examples.cfgCoalescing ∅ an SR s)
    (subRegions top) Examples.entryState.

(** The state [writeComputation] leaves for [reduced] when it is given the
    lines of [reduced]. *)
Definition reducedAtOwnLines : PassState (gset nat) :=
  writeComputation Examples.cfgCoalescing ∅ an
    (st_getStartRegionLoops an reduced) (st_getEndRegionLoops an reduced + 1)
    reduced Examples.entryState.

End Reduction.

(** A region without full information that shares its first block with a
    child region that has full information. The first block is a loop, and
    a second child holds another loop. *)
Module SharedEntry.

Definition loopAtEntry : Loop :=
  mkLoop 1 (Examples.block 1 Examples.plain)
    (Some (Examples.block 1 Examples.plain)) 7
    [Examples.block 1 Examples.plain] [].

Definition loopAfter : Loop :=
  mkLoop 2 (Examples.block 3 Examples.plain)
    (Some (Examples.block 3 Examples.plain)) 9
    [Examples.block 3 Examples.plain] [].

Definition inside : Region :=
  mkRegion 2 (Examples.block 1 Examples.plain) []
    (Some (Examples.block 0 Examples.plain)) false [].

Definition after : Region :=
  mkRegion 3 (Examples.block 3 Examples.plain) []
    (Some (Examples.block 1 Examples.plain)) false [].

Definition outside : Region :=
  mkRegion 1 (Examples.block 1 Examples.plain) [Examples.block 3 Examples.plain]
    (Some (Examples.block 0 Examples.plain)) false [inside; after].

Definition an : Analyses (gset nat) :=
  analysesOf
    (fun BB => if Nat.eqb (blockId BB) 1 then Some loopAtEntry
               else if Nat.eqb (blockId BB) 3 then Some loopAfter else None)
    (fun BB => if Nat.eqb (blockId BB) 1 then inside
               else if Nat.eqb (blockId BB) 3 then after else outside)
    outside {[ 2%nat; 3%nat ]} (fun _ => None) (fun _ => 7) (fun _ => 9).

Definition entryState : PassState (gset nat) :=
  initialState ({[ 2%nat; 3%nat ]} : gset nat).

(** The state [regionIdentify] leaves for [outside]. *)
Definition annotated : PassState (gset nat) :=
  regionIdentify cfgLoops ∅ an outside entryState.

(** The state a descent into the children of [outside] leaves. *)
Definition descended : PassState (gset nat) :=
  fold_left (fun s SR => regionIdentify cfgLoops ∅ an SR s)
    (subRegions outside) entryState.

End SharedEntry.

(** A marked loop inside a loop that is not marked, with a block of the
    outer loop that is in no inner loop. *)
Module Nested.

Definition markedInner : Loop :=
  mkLoop 2 (Examples.block 3 Examples.plain)
    (Some (Examples.block 4 Examples.parallelBr)) 12
    [Examples.block 3 Examples.plain; Examples.block 4 Examples.parallelBr] [].

Definition unmarkedOuter : Loop :=
  mkLoop 1 (Examples.block 1 Examples.plain)
    (Some (Examples.block 5 Examples.plain)) 10
    [Examples.block 1 Examples.plain; Examples.block 3 Examples.plain;
     Examples.block 4 Examples.parallelBr; Examples.block 6 Examples.plain;
     Examples.block 5 Examples.plain]
    [markedInner].

(** The region of the inner loop. *)
Definition regionOfInner : Region :=
  mkRegion 2 (Examples.block 3 Examples.plain)
    [Examples.block 4 Examples.parallelBr]
    (Some (Examples.block 1 Examples.plain)) false [].

(** The region of a conditional in the body of the outer loop. *)
Definition regionOfIf : Region :=
  mkRegion 3 (Examples.block 6 Examples.plain) []
    (Some (Examples.block 4 Examples.parallelBr)) false [].

Definition an : Analyses (gset nat) :=
  analysesOf
    (fun BB => if Nat.eqb (blockId BB) 3 || Nat.eqb (blockId BB) 4
               then Some markedInner else Some unmarkedOuter)
    (fun BB => if Nat.eqb (blockId BB) 3 || Nat.eqb (blockId BB) 4
               then regionOfInner else regionOfIf)
    regionOfInner ∅ (fun _ => None) (fun _ => 10) (fun _ => 14).

End Nested.


(** The two readings of [a loop whose blocks lie in the region]: every
    block of the loop is a block of the region, or some block of the loop
    is one. *)
Definition blocksLieIn (R : Region) (L : Loop) : bool :=
  forallb (contains R) (loopBlocks L).

Definition someBlockLiesIn (R : Region) (L : Loop) : bool :=
  existsb (contains R) (loopBlocks L).


(** * Properties *)

(** ** Strings *)

Lemma Str_app_nil_l (s : string) : EmptyString +:+ s = s.
Proof. reflexivity. Qed.

Lemma Str_app_cons (c : ascii) (s t : string) :
  String c s +:+ t = String c (s +:+ t).
Proof. reflexivity. Qed.

Lemma Str_app_nil_r (s : string) : s +:+ EmptyString = s.
Proof.
  induction s as [|c s IH]; [reflexivity|].
  now rewrite Str_app_cons, IH.
Qed.

Lemma Str_app_assoc (a b c : string) : (a +:+ b) +:+ c = a +:+ b +:+ c.
Proof.
  induction a as [|x a IH]; [reflexivity|].
  now rewrite !Str_app_cons, IH.
Qed.

Lemma Str_prefix_app (p s : string) :
  String.prefix p s = true <-> exists b, s = p +:+ b.
Proof.
  revert s. induction p as [|c p IH]; intros [|d s].
  - split; [now exists EmptyString | reflexivity].
  - split; [now exists (String d s) | reflexivity].
  - split; [discriminate | intros [b Hb]].
    rewrite Str_app_cons in Hb. discriminate.
  - cbn [String.prefix]. destruct (ascii_dec c d) as [->|Hne].
    + rewrite IH. split; intros [b Hb]; exists b.
      * rewrite Str_app_cons. congruence.
      * rewrite Str_app_cons in Hb. congruence.
    + split; [discriminate | intros [b Hb]].
      rewrite Str_app_cons in Hb. congruence.
Qed.

Lemma Str_find_at_Some (pat s : string) (pos i : nat) :
  Str.find_at pat s pos = Some i -> Str.occurs pat s.
Proof.
  revert pos. induction s as [|c s IH]; intros pos; cbn [Str.find_at].
  - destruct (String.prefix pat EmptyString) eqn:Hp; [|discriminate].
    intros _. apply Str_prefix_app in Hp as [b Hb].
    exists EmptyString, b. exact Hb.
  - destruct (String.prefix pat (String c s)) eqn:Hp.
    + intros _. apply Str_prefix_app in Hp as [b Hb].
      exists EmptyString, b. exact Hb.
    + intros H. apply IH in H as (a & b & ->). now exists (String c a), b.
Qed.

Lemma Str_find_at_None (pat s : string) (pos : nat) :
  Str.find_at pat s pos = None -> ~ Str.occurs pat s.
Proof.
  revert pos. induction s as [|c s IH]; intros pos; cbn [Str.find_at].
  - destruct (String.prefix pat EmptyString) eqn:Hp; [discriminate|].
    intros _ (a & b & Hab). destruct a as [|d a].
    + assert (String.prefix pat EmptyString = true) as Ht
        by (apply Str_prefix_app; now exists b).
      congruence.
    + rewrite Str_app_cons in Hab. discriminate.
  - destruct (String.prefix pat (String c s)) eqn:Hp; [discriminate|].
    intros H (a & b & Hab). destruct a as [|d a].
    + assert (String.prefix pat (String c s) = true) as Ht
        by (apply Str_prefix_app; now exists b).
      congruence.
    + rewrite Str_app_cons in Hab. injection Hab as _ Hs.
      apply (IH _ H). now exists a, b.
Qed.

(** [find] finds a fragment exactly when the fragment is a substring. *)
Lemma Str_find_occurs (s pat : string) :
  is_Some (Str.find s pat) <-> Str.occurs pat s.
Proof.
  unfold Str.find. split.
  - intros [i Hi]. exact (Str_find_at_Some _ _ _ _ Hi).
  - intros Ho. destruct (Str.find_at pat s 0) eqn:Hf; [eauto|].
    now destruct (Str_find_at_None _ _ _ Hf).
Qed.

Lemma Str_find_None (s pat : string) :
  Str.find s pat = None <-> ~ Str.occurs pat s.
Proof.
  rewrite <- Str_find_occurs. split.
  - intros -> [x Hx]. discriminate.
  - intros H. destruct (Str.find s pat); [destruct H; eauto | reflexivity].
Qed.

Lemma Str_occurs_app_r (pat t : string) : Str.occurs pat (t +:+ pat).
Proof. exists t, EmptyString. now rewrite Str_app_nil_r. Qed.

Lemma Str_occurs_app_l (pat t u : string) :
  Str.occurs pat t -> Str.occurs pat (t +:+ u).
Proof.
  intros (a & b & ->). exists a, (b +:+ u). now rewrite !Str_app_assoc.
Qed.

(** ** The comment map *)

Lemma addCommentToLine_present (m : gmap N string) (Line : N) (frag text : string) :
  m !! Line = Some text -> Str.occurs frag text ->
  addCommentToLine frag Line m = m.
Proof.
  intros Hm Ho. unfold addCommentToLine. rewrite Hm.
  apply Str_find_occurs in Ho as [i ->]. reflexivity.
Qed.

Lemma addCommentToLine_append (m : gmap N string) (Line : N) (frag text : string) :
  m !! Line = Some text -> ~ Str.occurs frag text ->
  addCommentToLine frag Line m = <[Line := text +:+ frag]> m.
Proof.
  intros Hm Ho. unfold addCommentToLine. rewrite Hm.
  apply Str_find_None in Ho as ->. reflexivity.
Qed.

Lemma addCommentToLine_fresh (m : gmap N string) (Line : N) (frag : string) :
  m !! Line = None -> addCommentToLine frag Line m = <[Line := frag]> m.
Proof. intros Hm. unfold addCommentToLine. now rewrite Hm. Qed.

(** After an insertion the line holds the fragment. *)
Lemma addCommentToLine_hasFragment (m : gmap N string) (Line : N) (frag : string) :
  hasFragment (addCommentToLine frag Line m) Line frag.
Proof.
  unfold hasFragment. destruct (m !! Line) as [text|] eqn:Hm.
  - destruct (Str.find text frag) as [i|] eqn:Hf.
    + exists text. split.
      * unfold addCommentToLine. now rewrite Hm, Hf.
      * apply Str_find_occurs. eauto.
    + exists (text +:+ frag). split.
      * unfold addCommentToLine. rewrite Hm, Hf. apply lookup_insert_eq.
      * apply Str_occurs_app_r.
  - exists frag. split.
    + rewrite addCommentToLine_fresh by assumption. apply lookup_insert_eq.
    + exists EmptyString, EmptyString. now rewrite Str_app_nil_r.
Qed.

(** An insertion changes the text of a line only by adding at its end. *)
Lemma addCommentToLine_extends (m : gmap N string) (Line L : N) (frag : string) :
  exists suffix,
    lineText (addCommentToLine frag Line m) L = lineText m L +:+ suffix.
Proof.
  unfold addCommentToLine, lineText.
  destruct (m !! Line) as [text|] eqn:Hm.
  - destruct (Str.find text frag).
    + exists EmptyString. now rewrite Str_app_nil_r.
    + destruct (decide (Line = L)) as [->|Hne].
      * rewrite lookup_insert_eq, Hm. now exists frag.
      * rewrite lookup_insert_ne by assumption.
        exists EmptyString. now rewrite Str_app_nil_r.
  - destruct (decide (Line = L)) as [->|Hne].
    + rewrite lookup_insert_eq, Hm. now exists frag.
    + rewrite lookup_insert_ne by assumption.
      exists EmptyString. now rewrite Str_app_nil_r.
Qed.

Lemma copyComments_extends (l : list (N * string)) (m : gmap N string) (L : N) :
  exists suffix, lineText (copyComments l m) L = lineText m L +:+ suffix.
Proof.
  revert m. induction l as [|[k f] l IH]; intros m; cbn.
  - exists EmptyString. now rewrite Str_app_nil_r.
  - destruct (IH (addCommentToLine f k m)) as [s2 H2].
    destruct (addCommentToLine_extends m k L f) as [s1 H1].
    exists (s1 +:+ s2). unfold copyComments in H2.
    now rewrite H2, H1, Str_app_assoc.
Qed.

(** An insertion that the substring rule does not drop appends. *)
Lemma addCommentToLine_text (m : gmap N string) (Line : N) (frag : string) :
  ~ hasFragment m Line frag ->
  lineText (addCommentToLine frag Line m) Line = lineText m Line +:+ frag.
Proof.
  intros Hn. unfold lineText. destruct (m !! Line) as [text|] eqn:Hm.
  - rewrite (addCommentToLine_append m Line frag text Hm).
    + now rewrite lookup_insert_eq.
    + intros Ho. apply Hn. now exists text.
  - rewrite addCommentToLine_fresh by assumption. now rewrite lookup_insert_eq.
Qed.

(** A line keeps the fragments it holds. *)
Lemma addCommentToLine_keeps (m : gmap N string) (Line L : N) (frag f : string) :
  hasFragment m L f -> hasFragment (addCommentToLine frag Line m) L f.
Proof.
  intros (text & Hm & Ho). unfold hasFragment, addCommentToLine.
  destruct (m !! Line) as [t|] eqn:HL.
  - destruct (Str.find t frag); [now exists text|].
    destruct (decide (Line = L)) as [->|Hne].
    + rewrite lookup_insert_eq. exists (t +:+ frag). split; [reflexivity|].
      apply Str_occurs_app_l. congruence.
    + rewrite lookup_insert_ne by assumption. now exists text.
  - destruct (decide (Line = L)) as [->|Hne]; [congruence|].
    rewrite lookup_insert_ne by assumption. now exists text.
Qed.

Lemma copyComments_keeps (l : list (N * string)) (m : gmap N string) (L : N)
    (f : string) :
  hasFragment m L f -> hasFragment (copyComments l m) L f.
Proof.
  revert m. induction l as [|[k g] l IH]; intros m H; cbn; [exact H|].
  apply IH. now apply addCommentToLine_keeps.
Qed.

Lemma copyComments_In (l : list (N * string)) (m : gmap N string)
    (Line : N) (frag : string) :
  In (Line, frag) l -> hasFragment (copyComments l m) Line frag.
Proof.
  revert m. induction l as [|[k f] l IH]; intros m; cbn; [intros []|].
  intros [E|Hin].
  - injection E as -> ->. apply copyComments_keeps.
    apply addCommentToLine_hasFragment.
  - now apply IH.
Qed.

(** C4: the substring rule of [addCommentToLine]. When the line has a text
    in which the fragment occurs, the insertion leaves the map as it is;
    when the line has a text in which the fragment does not occur, the
    fragment is appended to that text; a line without an entry receives the
    fragment as its text; and inserting the same fragment for the same line
    twice gives the same map as inserting it once. *)
Theorem addCommentToLine_idempotent (m : gmap N string) (Line : N) (frag : string) :
  (forall text, m !! Line = Some text -> Str.occurs frag text ->
     addCommentToLine frag Line m = m)
  /\ (forall text, m !! Line = Some text -> ~ Str.occurs frag text ->
        addCommentToLine frag Line m = <[Line := text +:+ frag]> m)
  /\ (m !! Line = None -> addCommentToLine frag Line m = <[Line := frag]> m)
  /\ addCommentToLine frag Line (addCommentToLine frag Line m)
     = addCommentToLine frag Line m.
Proof.
  split; [|split; [|split]].
  - intros text. apply addCommentToLine_present.
  - intros text. apply addCommentToLine_append.
  - apply addCommentToLine_fresh.
  - destruct (addCommentToLine_hasFragment m Line frag) as (text & Ht & Ho).
    exact (addCommentToLine_present _ _ _ _ Ht Ho).
Qed.

Lemma addCommentToLine_idempotent_witness :
  addCommentToLine "b" 10%N {[ 10%N := "abc" ]} = {[ 10%N := "abc" ]}
  /\ addCommentToLine "d" 10%N {[ 10%N := "abc" ]} = <[ 10%N := "abcd" ]> {[ 10%N := "abc" ]}
  /\ addCommentToLine "d" 10%N (∅ : gmap N string) = <[ 10%N := "d" ]> ∅.
Proof.
  pose proof (addCommentToLine_idempotent {[ 10%N := "abc" ]} 10%N "b") as (H1 & _).
  pose proof (addCommentToLine_idempotent {[ 10%N := "abc" ]} 10%N "d") as (_ & H2 & _).
  pose proof (addCommentToLine_idempotent ∅ 10%N "d") as (_ & _ & H3 & _).
  split; [|split].
  - apply (H1 "abc"); [reflexivity | now exists "a", "c"].
  - apply (H2 "abc"); [reflexivity | apply Str_find_None; reflexivity].
  - apply H3. reflexivity.
Defined.

(** C9: the order of the fragments of a line. Fragment [A] is inserted for
    [Line], then the entries of [between], then fragment [B] for the same
    line, then the entries of [later]. When neither [A] nor [B] is dropped by
    the substring rule, the final text of the line is the text before [A]
    was inserted, then [A], then what was added in between, then [B], then
    what was added later: [A] stands before [B]. *)
Theorem addCommentToLine_insertion_order (m : gmap N string) (Line : N)
    (A B : string) (between later : list (N * string)) :
  let m2 := copyComments between (addCommentToLine A Line m) in
  let m4 := copyComments later (addCommentToLine B Line m2) in
  ~ hasFragment m Line A ->
  ~ hasFragment m2 Line B ->
  exists mid post,
    lineText m4 Line = lineText m Line +:+ A +:+ mid +:+ B +:+ post.
Proof.
  intros m2 m4 HA HB.
  destruct (copyComments_extends later (addCommentToLine B Line m2) Line) as [post H4].
  destruct (copyComments_extends between (addCommentToLine A Line m) Line) as [mid H2].
  exists mid, post. subst m4. rewrite H4.
  rewrite (addCommentToLine_text m2 Line B HB). subst m2. rewrite H2.
  rewrite (addCommentToLine_text m Line A HA).
  now rewrite !Str_app_assoc.
Qed.

Lemma addCommentToLine_insertion_order_witness :
  exists mid post,
    lineText
      (copyComments [(7%N, "z")]
         (addCommentToLine "B" 3%N
            (copyComments [(3%N, "x"); (4%N, "y")]
               (addCommentToLine "A" 3%N {[ 3%N := "t" ]})))) 3%N
    = lineText {[ 3%N := "t" ]} 3%N +:+ "A" +:+ mid +:+ "B" +:+ post.
Proof.
  apply (addCommentToLine_insertion_order {[ 3%N := "t" ]} 3%N "A" "B"
           [(3%N, "x"); (4%N, "y")] [(7%N, "z")]).
  - intros (text & Ht & Ho). vm_compute in Ht. injection Ht as <-.
    apply Str_find_occurs in Ho. vm_compute in Ho. destruct Ho as [i Hi]. discriminate.
  - intros (text & Ht & Ho). vm_compute in Ht. injection Ht as <-.
    apply Str_find_occurs in Ho. vm_compute in Ho. destruct Ho as [i Hi]. discriminate.
Defined.

(** ** Induction on the trees *)

Lemma Loop_tree_ind (P : Loop -> Prop) :
  (forall id h la line bl subs,
      Forall P subs -> P (mkLoop id h la line bl subs)) ->
  forall L, P L.
Proof.
  intros H. fix IH 1. intros [id h la line bl subs]. apply H.
  revert subs. fix IHs 1. intros [|S subs]; constructor.
  - apply IH.
  - apply IHs.
Qed.

Lemma Region_tree_ind (P : Region -> Prop) :
  (forall id b0 bs e t subs,
      Forall P subs -> P (mkRegion id b0 bs e t subs)) ->
  forall R, P R.
Proof.
  intros H. fix IH 1. intros [id b0 bs e t subs]. apply H.
  revert subs. fix IHs 1. intros [|S subs]; constructor.
  - apply IH.
  - apply IHs.
Qed.

(** A property that every step of a [for] loop keeps holds after the loop. *)
Lemma fold_left_invariant {A S : Type} (P : S -> Prop) (f : S -> A -> S)
    (l : list A) :
  Forall (fun a => forall s, P s -> P (f s a)) l ->
  forall s, P s -> P (fold_left f l s).
Proof.
  induction 1 as [|a l Ha _ IH]; intros s Hs; cbn; [assumption|].
  apply IH, Ha, Hs.
Qed.

(** ** The predicates *)

(** C7: [isLoopParallel] answers true exactly for a loop that has a latch
    whose terminator carries the parallel marker, unless divergent loops are
    discarded and the terminator also carries the divergence marker; a loop
    without a latch is never parallel. *)
Theorem isLoopParallel_iff (cfg : Config) (L : Loop) :
  (isLoopParallel cfg L = true <->
   exists BB, getLoopLatch L = Some BB
              /\ mdIsParallel (getTerminator BB) = true
              /\ ~ (ClDivergent cfg = true
                    /\ mdIsDivergent (getTerminator BB) = true))
  /\ (getLoopLatch L = None -> isLoopParallel cfg L = false).
Proof.
  unfold isLoopParallel. split.
  - destruct (getLoopLatch L) as [BB|];
      [|split; [discriminate | intros (B & HB & _); discriminate]].
    split.
    + intros H. exists BB.
      destruct (mdIsParallel (getTerminator BB)) eqn:Hp; cbn in H; [|discriminate].
      destruct (ClDivergent cfg) eqn:Hd, (mdIsDivergent (getTerminator BB)) eqn:Hm;
        cbn in H; try discriminate; repeat split; intros [? ?]; discriminate.
    + intros (B & HB & HP & HD). injection HB as <-. rewrite HP. cbn.
      destruct (ClDivergent cfg) eqn:Hd, (mdIsDivergent (getTerminator BB)) eqn:Hm;
        cbn; try reflexivity.
      destruct HD. now split.
  - intros ->. reflexivity.
Qed.

Lemma isLoopParallel_iff_witness :
  isLoopParallel Examples.cfgParallel
    (mkLoop 7 (Examples.block 1 Examples.plain) None 3 [] []) = false.
Proof.
  apply (proj2 (isLoopParallel_iff Examples.cfgParallel
                  (mkLoop 7 (Examples.block 1 Examples.plain) None 3 [] []))).
  reflexivity.
Defined.

Section CoalescingSafety.

Context {PtrRA : Type}.
Variable cfg : Config.
Variable an : Analyses PtrRA.

(** The local map of the function has no part in its answer. *)
Lemma safeCoalescingBlocks_forall (BBs : list BasicBlock) (loops : gmap nat bool) :
  safeCoalescingBlocks cfg an BBs loops = true <->
  forall BB l, In BB BBs -> li_getLoopFor an BB = Some l ->
               isLoopParallel cfg l = true.
Proof.
  revert loops. induction BBs as [|B BBs IH]; intros loops; cbn.
  - split; [intros _ BB l [] | reflexivity].
  - destruct (li_getLoopFor an B) as [l0|] eqn:Hl.
    + destruct (isLoopParallel cfg l0) eqn:Hp; cbn.
      * rewrite IH. split.
        -- intros H BB l [<-|Hin] HBB; [congruence | eauto].
        -- intros H BB l Hin. apply H. now right.
      * split; [discriminate|]. intros H.
        rewrite <- Hp. apply (H B l0); [now left | assumption].
    + rewrite IH. split.
      * intros H BB l [<-|Hin] HBB; [congruence | eauto].
      * intros H BB l Hin. apply H. now right.
Qed.

(** C6, as the code has it: [isSafeMemoryCoalescing] is false for a region
    that has no entering block and is not the top-level region; for any
    other region it is true when the parallel mode is off; and when the
    mode is on it is true exactly when, for every block of the region that
    is in a loop, the loop that [LoopInfo] gives for the block, the
    innermost one that has it, passes [isLoopParallel]. *)
Theorem isSafeMemoryCoalescing_spec (R : Region) :
  (getEnteringBlock R = None -> isTopLevelRegion R = false ->
   isSafeMemoryCoalescing cfg an R = false)
  /\ (~ (getEnteringBlock R = None /\ isTopLevelRegion R = false) ->
      ClEmitParallel cfg = false ->
      isSafeMemoryCoalescing cfg an R = true)
  /\ (~ (getEnteringBlock R = None /\ isTopLevelRegion R = false) ->
      ClEmitParallel cfg = true ->
      (isSafeMemoryCoalescing cfg an R = true <->
       forall BB l, In BB (regionBlocks R) -> li_getLoopFor an BB = Some l ->
                    isLoopParallel cfg l = true)).
Proof.
  assert (~ (getEnteringBlock R = None /\ isTopLevelRegion R = false) ->
          isNull (getEnteringBlock R) && negb (isTopLevelRegion R) = false)
    as Hguard.
  { intros Hn.
    destruct (getEnteringBlock R) eqn:He, (isTopLevelRegion R) eqn:Ht;
      try reflexivity.
    destruct Hn. now split. }
  unfold isSafeMemoryCoalescing. split; [|split].
  - intros -> ->. reflexivity.
  - intros Hn ->. now rewrite (Hguard Hn).
  - intros Hn ->. rewrite (Hguard Hn). cbn [negb].
    apply safeCoalescingBlocks_forall.
Qed.

End CoalescingSafety.

Lemma isSafeMemoryCoalescing_spec_witness :
  isSafeMemoryCoalescing Examples.cfgCoalescing Examples.anCoalescing
    Examples.orphan = false
  /\ isSafeMemoryCoalescing Examples.cfgCoalescing Examples.anCoalescing
       Examples.top = true
  /\ (isSafeMemoryCoalescing Examples.cfgParallel Examples.anCoalescing
        Examples.top = true <->
      forall BB l, In BB (regionBlocks Examples.top) ->
                   li_getLoopFor Examples.anCoalescing BB = Some l ->
                   isLoopParallel Examples.cfgParallel l = true).
Proof.
  split; [|split].
  - apply (proj1 (isSafeMemoryCoalescing_spec Examples.cfgCoalescing
                    Examples.anCoalescing
                    Examples.orphan));
      reflexivity.
  - apply (proj1 (proj2 (isSafeMemoryCoalescing_spec Examples.cfgCoalescing
                           Examples.anCoalescing Examples.top)));
      [intros [_ H]; discriminate | reflexivity].
  - apply (proj2 (proj2 (isSafeMemoryCoalescing_spec Examples.cfgParallel
                           Examples.anCoalescing Examples.top)));
      [intros [_ H]; discriminate | reflexivity].
Defined.

(** C6, as the claim states it, fails in the parallel mode, for each of
    the two readings of its last case. The region of the inner loop is safe
    although the outer loop, which is not parallel, has blocks in it: only
    the loop that [LoopInfo] gives for a block, the innermost one, is
    tested. The region of the conditional is not safe although no loop of
    the nest has all its blocks in it: the loop of its one block is tested,
    and that loop reaches beyond the region. *)
Lemma isSafeMemoryCoalescing_tests_innermost_loops :
  ClEmitParallel Examples.cfgParallel = true
  /\ (getEnteringBlock Nested.regionOfInner <> None
      /\ isSafeMemoryCoalescing Examples.cfgParallel Nested.an
           Nested.regionOfInner = true
      /\ someBlockLiesIn Nested.regionOfInner Nested.unmarkedOuter = true
      /\ isLoopParallel Examples.cfgParallel Nested.unmarkedOuter = false)
  /\ (getEnteringBlock Nested.regionOfIf <> None
      /\ isSafeMemoryCoalescing Examples.cfgParallel Nested.an
           Nested.regionOfIf = false
      /\ forall L : Loop,
           In L (loopNest Nested.unmarkedOuter) ->
           blocksLieIn Nested.regionOfIf L = true ->
           isLoopParallel Examples.cfgParallel L = true).
Proof.
  split; [reflexivity|]. split.
  - split; [discriminate|]. repeat split; vm_compute; reflexivity.
  - split; [discriminate|]. split; [vm_compute; reflexivity|].
    intros L [<- | [<- | []]]; vm_compute; discriminate.
Qed.

Lemma addCommentToLine_other (m : gmap N string) (Line L : N) (frag : string) :
  Line <> L -> addCommentToLine frag Line m !! L = m !! L.
Proof.
  intros H. unfold addCommentToLine.
  destruct (m !! Line) as [text|]; [destruct (Str.find text frag)|];
    try reflexivity; now rewrite lookup_insert_ne.
Qed.

(** ** The policy of the parallel marker *)

Section ParallelMarker.

Context {PtrRA : Type}.
Variable cfg : Config.

(** The test of [denotateLoopParallel] is the one of [isLoopParallel]. *)
Lemma denotateLoopParallel_unfold (L : Loop) (condition : string)
    (st : PassState PtrRA) :
  denotateLoopParallel cfg L condition st =
  if isLoopParallel cfg L
  then fold_left (fun s SubLoop => denotateLoopParallel cfg SubLoop condition s)
         (getSubLoops L)
         (set_Comments
            (addCommentToLine (loopPragma cfg condition)
               (to_unsigned (getStartLine L)))
            (incr_numWL st))
  else st.
Proof.
  destruct L as [id h la line bl subs]. unfold isLoopParallel.
  cbn [denotateLoopParallel getLoopLatch getSubLoops getStartLine].
  destruct la as [BB|]; [|reflexivity].
  destruct (mdIsParallel (getTerminator BB)), (ClDivergent cfg),
    (mdIsDivergent (getTerminator BB)); reflexivity.
Qed.

(** The policy never removes a fragment from a line. *)
Lemma denotateLoopParallel_keeps (L : Loop) (condition : string) (Line : N)
    (f : string) :
  forall st : PassState PtrRA,
    hasFragment (Comments st) Line f ->
    hasFragment (Comments (denotateLoopParallel cfg L condition st)) Line f.
Proof.
  induction L as [id h la line bl subs IH] using Loop_tree_ind.
  intros st Hst. rewrite denotateLoopParallel_unfold.
  destruct (isLoopParallel cfg _); [|assumption].
  cbn [getSubLoops getStartLine].
  apply (fold_left_invariant (fun s => hasFragment (Comments s) Line f)).
  - exact IH.
  - cbn. now apply addCommentToLine_keeps.
Qed.

Lemma annotatedLoops_unfold (L : Loop) :
  annotatedLoops cfg L
  = if isLoopParallel cfg L
    then L :: flat_map (annotatedLoops cfg) (getSubLoops L)
    else [].
Proof. destruct L. reflexivity. Qed.

Lemma annotatedLoops_chain (L : Loop) :
  forall L', In L' (annotatedLoops cfg L) -> markedChain cfg L L'.
Proof.
  induction L as [id h la line bl subs IH] using Loop_tree_ind. intros L'.
  rewrite annotatedLoops_unfold.
  destruct (isLoopParallel cfg _) eqn:Hp; [|intros []].
  cbn [getSubLoops]. intros [<- | Hin].
  - now apply markedChain_here.
  - apply in_flat_map in Hin as (S & HS & Hin).
    apply (markedChain_sub cfg _ S); [exact Hp | exact HS |].
    rewrite Forall_forall in IH. apply IH; [|exact Hin].
    now apply list_elem_of_In.
Qed.

Lemma markedChain_annotatedLoops (L L' : Loop) :
  markedChain cfg L L' -> In L' (annotatedLoops cfg L).
Proof.
  induction 1 as [L0 Hp | L0 S L1 Hp Hin _ IH];
    rewrite annotatedLoops_unfold, Hp.
  - now left.
  - right. apply in_flat_map. now exists S.
Qed.

(** The annotation of one loop: the directive on its start line, and one
    more loop counted. *)
Local Abbreviation annotateLoop condition :=
  (fun (s : PassState PtrRA) (L' : Loop) =>
     set_Comments
       (addCommentToLine (loopPragma cfg condition)
          (to_unsigned (getStartLine L')))
       (incr_numWL s)).

Lemma denotateLoopParallel_annotatedLoops (L : Loop) (condition : string) :
  forall st : PassState PtrRA,
    denotateLoopParallel cfg L condition st
    = fold_left (annotateLoop condition) (annotatedLoops cfg L) st.
Proof.
  induction L as [id h la line bl subs IH] using Loop_tree_ind. intros st.
  rewrite denotateLoopParallel_unfold, annotatedLoops_unfold.
  destruct (isLoopParallel cfg _); [|reflexivity].
  cbn [getSubLoops fold_left].
  generalize (set_Comments
                (addCommentToLine (loopPragma cfg condition)
                   (to_unsigned
                      (getStartLine (mkLoop id h la line bl subs))))
                (incr_numWL st)).
  induction IH as [|S subs HS _ IHsubs]; intros s; [reflexivity|].
  cbn [fold_left flat_map]. rewrite fold_left_app, <- HS. apply IHsubs.
Qed.

(** C3, as the code has it: the policy calls itself on every sub-loop of
    a loop it annotates, with the same guard, and each call tests the
    markers of its own loop again. A loop that fails the test gets no
    directive and the loops below it are not visited; a loop receives the
    directive at its start line when it, the root and every loop between
    them pass the test, and only then: the call is the sequence of the
    annotations of these loops, the root first, and a line that is the
    start line of none of them keeps the entry it had, or stays without
    one. *)
Theorem denotateLoopParallel_marked_chain (L : Loop) (condition : string) :
  (forall st : PassState PtrRA,
      isLoopParallel cfg L = false ->
      denotateLoopParallel cfg L condition st = st)
  /\ (forall (L' : Loop) (st : PassState PtrRA),
         markedChain cfg L L' ->
         hasFragment (Comments (denotateLoopParallel cfg L condition st))
           (to_unsigned (getStartLine L')) (loopPragma cfg condition))
  /\ (forall L' : Loop, In L' (annotatedLoops cfg L) <-> markedChain cfg L L')
  /\ (forall st : PassState PtrRA,
         denotateLoopParallel cfg L condition st
         = fold_left
             (fun s L' =>
                set_Comments
                  (addCommentToLine (loopPragma cfg condition)
                     (to_unsigned (getStartLine L')))
                  (incr_numWL s))
             (annotatedLoops cfg L) st)
  /\ (forall (Line : N) (st : PassState PtrRA),
         (forall L' : Loop,
             markedChain cfg L L' -> to_unsigned (getStartLine L') <> Line) ->
         Comments (denotateLoopParallel cfg L condition st) !! Line
         = Comments st !! Line).
Proof.
  split; [|split; [|split; [|split]]].
  - intros st H. now rewrite denotateLoopParallel_unfold, H.
  - intros L' st Hc. revert st.
    induction Hc as [L0 Hp | L0 S L1 Hp Hin Hc IH]; intros st;
      rewrite denotateLoopParallel_unfold, Hp.
    + apply (fold_left_invariant
               (fun s => hasFragment (Comments s) (to_unsigned (getStartLine L0))
                           (loopPragma cfg condition))).
      * apply Forall_forall. intros S _ s. apply denotateLoopParallel_keeps.
      * cbn. apply addCommentToLine_hasFragment.
    + apply in_split in Hin as (l1 & l2 & ->).
      rewrite fold_left_app. cbn [fold_left].
      apply (fold_left_invariant
               (fun s => hasFragment (Comments s) (to_unsigned (getStartLine L1))
                           (loopPragma cfg condition))).
      * apply Forall_forall. intros S' _ s. apply denotateLoopParallel_keeps.
      * apply IH.
  - intros L'. split;
      [apply annotatedLoops_chain | apply markedChain_annotatedLoops].
  - apply denotateLoopParallel_annotatedLoops.
  - intros Line st Hother. rewrite denotateLoopParallel_annotatedLoops.
    apply (fold_left_invariant
             (fun s => Comments s !! Line = Comments st !! Line));
      [|reflexivity].
    apply Forall_forall. intros L' HL' s Hs. cbn [Comments set_Comments].
    rewrite addCommentToLine_other; [exact Hs|].
    apply Hother, annotatedLoops_chain. now apply list_elem_of_In.
Qed.

End ParallelMarker.

Lemma denotateLoopParallel_marked_chain_witness :
  denotateLoopParallel Examples.cfgParallel Examples.inner EmptyString
    Examples.entryState = Examples.entryState
  /\ hasFragment
       (Comments (denotateLoopParallel Examples.cfgParallel Examples.outerMarked
                    EmptyString Examples.entryState))
       12%N (loopPragma Examples.cfgParallel EmptyString)
  /\ Comments (denotateLoopParallel Examples.cfgParallel Examples.outer
                 EmptyString Examples.entryState) !! 12%N
     = Comments Examples.entryState !! 12%N.
Proof.
  split; [|split].
  - apply (proj1 (denotateLoopParallel_marked_chain Examples.cfgParallel
                    Examples.inner EmptyString)).
    reflexivity.
  - apply (proj1 (proj2 (denotateLoopParallel_marked_chain Examples.cfgParallel
                           Examples.outerMarked EmptyString))
             Examples.innerMarked).
    apply (markedChain_sub _ _ Examples.innerMarked).
    + reflexivity.
    + left. reflexivity.
    + apply markedChain_here. reflexivity.
  - destruct (denotateLoopParallel_marked_chain (PtrRA := gset nat)
                Examples.cfgParallel Examples.outer EmptyString)
      as (_ & _ & Hchain & _ & Hother).
    apply Hother. intros L' HL'. apply Hchain in HL'.
    destruct HL' as [<- | []]. vm_compute. discriminate.
Defined.

(** C3, as the claim states it, fails: the outer loop of the nest is marked
    and annotated at line 10, its sub-loop at line 12 is not marked, and the
    comment map has no entry for line 12. *)
Lemma denotateLoopParallel_sub_loop_not_annotated :
  isLoopParallel Examples.cfgParallel Examples.outer = true
  /\ In Examples.inner (getSubLoops Examples.outer)
  /\ hasFragment
       (Comments (denotateLoopParallel Examples.cfgParallel Examples.outer
                    EmptyString Examples.entryState))
       (to_unsigned (getStartLine Examples.outer))
       (loopPragma Examples.cfgParallel EmptyString)
  /\ Comments (denotateLoopParallel Examples.cfgParallel Examples.outer
                 EmptyString Examples.entryState)
       !! to_unsigned (getStartLine Examples.inner) = None
  /\ ~ hasFragment
       (Comments (denotateLoopParallel Examples.cfgParallel Examples.outer
                    EmptyString Examples.entryState))
       (to_unsigned (getStartLine Examples.inner))
       (loopPragma Examples.cfgParallel EmptyString).
Proof.
  assert (Comments (denotateLoopParallel Examples.cfgParallel Examples.outer
                      EmptyString Examples.entryState)
            !! to_unsigned (getStartLine Examples.inner) = None) as Hnone
    by (vm_compute; reflexivity).
  split; [|split; [|split; [|split]]].
  - reflexivity.
  - now left.
  - exists (loopPragma Examples.cfgParallel EmptyString). split.
    + vm_compute. reflexivity.
    + exists EmptyString, EmptyString. vm_compute. reflexivity.
  - exact Hnone.
  - intros (text & Ht & _). rewrite Hnone in Ht. discriminate.
Qed.

(** ** The routine registry *)

Section RoutineClosure.

Local Open Scope nat_scope.

Variable cfg : Config.
Variable M : gmap string Function.

Local Abbreviation unvisited := (unvisitedFunctions M).

Lemma unvisited_mono (r r' : gmap string bool) :
  dom r ⊆ dom r' -> unvisited r' <= unvisited r.
Proof.
  intros H. unfold unvisitedFunctions. apply subseteq_size.
  intros x [Hx Hn]%elem_of_difference. apply elem_of_difference.
  split; [exact Hx|]. intros Hr. apply Hn, H, Hr.
Qed.

Lemma unvisited_insert (F : string) (r : gmap string bool) :
  is_Some (M !! F) -> r !! F = None ->
  unvisited (<[F := true]> r) < unvisited r.
Proof.
  intros HM Hr. unfold unvisitedFunctions. apply subset_size.
  apply elem_of_dom in HM. apply not_elem_of_dom in Hr.
  rewrite dom_insert_L. split.
  - intros x [Hx Hn]%elem_of_difference. apply elem_of_difference.
    split; [exact Hx|]. intros Hx'. apply Hn, elem_of_union. now right.
  - intros Hsub. specialize (Hsub F). rewrite !elem_of_difference in Hsub.
    destruct Hsub as [_ Hn]; [now split|].
    apply Hn, elem_of_union. left. now apply elem_of_singleton.
Qed.

(** A function that passes the guard of [findACCroutines] is defined in
    the module. *)
Lemma guard_defined (F : string) :
  isDeclaration (getFunction M F) = false -> is_Some (M !! F).
Proof.
  unfold getFunction. destruct (M !! F); [eauto | discriminate].
Qed.

(** The walk over the calls of a body ends when every visit it starts
    ends, and the registry only grows. *)
Lemma forCalls_total (n : nat)
    (visit : string -> gmap string bool -> option (gmap string bool)) :
  (forall F r, unvisited r < n -> r !! F = None ->
               exists r', visit F r = Some r' /\ dom r ⊆ dom r') ->
  forall Insts r, unvisited r < n ->
    exists r', forCalls visit Insts r = Some r' /\ dom r ⊆ dom r'.
Proof.
  intros Hvisit Insts. induction Insts as [|Inst Insts IH]; intros r Hr; cbn.
  - exists r. split; [reflexivity | set_solver].
  - destruct (getCalledFunction Inst) as [callee|]; [|now apply IH].
    destruct (decide (r !! callee = None)) as [Hnone|_]; [|now apply IH].
    destruct (Hvisit callee r Hr Hnone) as (r1 & -> & Hsub).
    destruct (IH r1) as (r2 & H2 & Hsub2).
    + pose proof (unvisited_mono r r1 Hsub). lia.
    + exists r2. split; [assumption | set_solver].
Qed.

Lemma findACCroutines_fuel_fresh (n : nat) :
  forall F r, unvisited r < n -> r !! F = None ->
    exists r', findACCroutines_fuel cfg M n F r = Some r' /\ dom r ⊆ dom r'.
Proof.
  induction n as [|n IH]; intros F r Hr Hnone; [lia|].
  cbn [findACCroutines_fuel].
  destruct (isDeclaration (getFunction M F)) eqn:Hdecl;
    [exists r; split; [reflexivity | set_solver]|].
  destruct (isIntrinsic (getFunction M F) || hasAvailableExternallyLinkage (getFunction M F)
            || negb (Ascii.eqb (ClEmitOMP cfg) ACC)) eqn:Hg.
  - exists r. split; [|set_solver].
    destruct (isIntrinsic (getFunction M F)),
      (hasAvailableExternallyLinkage (getFunction M F)),
      (negb (Ascii.eqb (ClEmitOMP cfg) ACC)); cbn in *; congruence.
  - replace (false || isIntrinsic (getFunction M F)
             || hasAvailableExternallyLinkage (getFunction M F)
             || negb (Ascii.eqb (ClEmitOMP cfg) ACC)) with false
      by (symmetry; exact Hg).
    rewrite decide_True by assumption.
    pose proof (unvisited_insert F r (guard_defined F Hdecl) Hnone) as Hlt.
    destruct (forCalls_total n (findACCroutines_fuel cfg M n) IH
                (allInstructions (fblocks (getFunction M F)))
                (<[F := true]> r)) as (r' & Hr' & Hsub); [lia|].
    exists r'. split; [assumption|].
    rewrite dom_insert_L in Hsub. set_solver.
Qed.

(** Every call of [findACCroutines] returns: the recursion is never deeper
    than the number of functions of the module plus one. *)
Lemma findACCroutines_total (n : nat) (F : string) (r : gmap string bool) :
  unvisited r < n ->
  exists r', findACCroutines_fuel cfg M (S n) F r = Some r' /\ dom r ⊆ dom r'.
Proof.
  intros Hr. cbn [findACCroutines_fuel].
  destruct (isDeclaration (getFunction M F) || isIntrinsic (getFunction M F)
            || hasAvailableExternallyLinkage (getFunction M F)
            || negb (Ascii.eqb (ClEmitOMP cfg) ACC));
    [exists r; split; [reflexivity | set_solver]|].
  destruct (decide (r !! F = None)) as [Hnone|Hsome].
  - destruct (forCalls_total n (findACCroutines_fuel cfg M n)
                (findACCroutines_fuel_fresh n)
                (allInstructions (fblocks (getFunction M F)))
                (<[F := true]> r)) as (r' & Hr' & Hsub).
    + pose proof (unvisited_mono r (<[F := true]> r)) as Hm.
      rewrite dom_insert_L in Hm.
      assert (unvisited (<[F:=true]> r) <= unvisited r) by (apply Hm; set_solver).
      lia.
    + exists r'. split; [assumption|].
      rewrite dom_insert_L in Hsub. set_solver.
  - exact (forCalls_total n (findACCroutines_fuel cfg M n)
             (findACCroutines_fuel_fresh n) _ r Hr).
Qed.

Lemma forCalls_mono
    (visit visit' : string -> gmap string bool -> option (gmap string bool)) :
  (forall F r r', visit F r = Some r' -> visit' F r = Some r') ->
  forall Insts r r',
    forCalls visit Insts r = Some r' -> forCalls visit' Insts r = Some r'.
Proof.
  intros Hv Insts. induction Insts as [|Inst Insts IH]; intros r r'; cbn;
    [trivial|].
  destruct (getCalledFunction Inst) as [callee|]; [|apply IH].
  destruct (decide (r !! callee = None)); [|apply IH].
  destruct (visit callee r) as [r1|] eqn:Hr1; [|discriminate].
  rewrite (Hv _ _ _ Hr1). apply IH.
Qed.

(** More fuel does not change a result. *)
Lemma findACCroutines_fuel_mono (n : nat) :
  forall F r r',
    findACCroutines_fuel cfg M n F r = Some r' ->
    findACCroutines_fuel cfg M (S n) F r = Some r'.
Proof.
  induction n as [|n IH]; intros F r r'; [discriminate|].
  intros H. cbn [findACCroutines_fuel] in *.
  destruct (isDeclaration (getFunction M F) || isIntrinsic (getFunction M F)
            || hasAvailableExternallyLinkage (getFunction M F)
            || negb (Ascii.eqb (ClEmitOMP cfg) ACC)); [assumption|].
  revert H. apply forCalls_mono. exact IH.
Qed.

Lemma findACCroutines_fuel_more (n k : nat) (F : string) (r r' : gmap string bool) :
  findACCroutines_fuel cfg M n F r = Some r' ->
  findACCroutines_fuel cfg M (n + k) F r = Some r'.
Proof.
  intros H. induction k as [|k IH].
  - now rewrite Nat.add_0_r.
  - rewrite Nat.add_succ_r. now apply findACCroutines_fuel_mono.
Qed.

Lemma findACCroutines_fuel_enough (k : nat) (F : string) (r : gmap string bool) :
  findACCroutines_fuel cfg M (size M + 2 + k) F r
  = Some (findACCroutines cfg M F r)
  /\ dom r ⊆ dom (findACCroutines cfg M F r).
Proof.
  destruct (findACCroutines_total (S (size M)) F r) as (r' & Hr' & Hsub).
  - assert (unvisited r <= size (dom M : gset string))
      by (unfold unvisitedFunctions; apply subseteq_size;
          intros x [Hx _]%elem_of_difference; exact Hx).
    rewrite size_dom in *. lia.
  - replace (S (S (size M))) with (size M + 2)%nat in Hr' by lia.
    unfold findACCroutines. rewrite Hr'. cbn. split; [|assumption].
    now apply findACCroutines_fuel_more.
Qed.

End RoutineClosure.

(** C8: [findACCroutines] terminates on every module, whatever the calls
    between its functions: with a recursion depth of the number of functions
    of the module plus two, or any larger one, the model returns the
    registry [findACCroutines] stands for, and the registry it returns
    contains the one it was given. On the module in which [F] calls [G] and
    [G] calls [F], with the accelerator target, the registry that starts
    empty ends with exactly [F] and [G]. *)
Theorem findACCroutines_terminates :
  (forall (cfg : Config) (M : gmap string Function) (F : string)
          (r : gmap string bool) (k : nat),
      findACCroutines_fuel cfg M (size M + 2 + k) F r
      = Some (findACCroutines cfg M F r)
      /\ dom r ⊆ dom (findACCroutines cfg M F r))
  /\ findACCroutines Examples.cfgCoalescing Examples.cycle "F" ∅
     = <["F" := true]> (<["G" := true]> ∅)
  /\ dom (findACCroutines Examples.cfgCoalescing Examples.cycle "F" ∅)
     = ({["F"; "G"]} : gset string).
Proof.
  assert (findACCroutines Examples.cfgCoalescing Examples.cycle "F" ∅
          = <["F" := true]> (<["G" := true]> ∅)) as Hcycle
    by (vm_compute; reflexivity).
  split; [|split].
  - intros cfg M F r k. apply findACCroutines_fuel_enough.
  - exact Hcycle.
  - rewrite Hcycle. rewrite !dom_insert_L, dom_empty_L. set_solver.
Qed.

(** ** What a traversal keeps *)

(** The two traversals are sequences of a few updates of the state. A
    relation between states that is reflexive and transitive and holds
    across each of these updates holds across [functionIdentify]. *)
Section Frame.

Context {PtrRA : Type}.
Variable cfg : Config.
Variable M : gmap string Function.
Variable an : Analyses PtrRA.
Variable Rel : PassState PtrRA -> PassState PtrRA -> Prop.

Hypothesis Rel_refl : forall st, Rel st st.
Hypothesis Rel_trans : forall a b c, Rel a b -> Rel b c -> Rel a c.
Hypothesis Rel_Comments : forall f st, Rel st (set_Comments f st).
Hypothesis Rel_routines : forall f st, Rel st (set_routines f st).
Hypothesis Rel_Expression : forall e st, Rel st (set_Expression e st).
Hypothesis Rel_numL : forall st, Rel st (incr_numL st).
Hypothesis Rel_numAL : forall st, Rel st (incr_numAL st).
Hypothesis Rel_numWL : forall st, Rel st (incr_numWL st).
Hypothesis Rel_ptrRA : forall p st, Rel st (set_ptrRA p st).
Hypothesis Rel_newDescriptor : forall st, Rel st (snd (newDescriptor st)).
Hypothesis Rel_undefined : forall st, Rel st (mark_undefined st).

Local Ltac after tac := eapply Rel_trans; [|tac].

Lemma Rel_fold_left {A : Type} (f : PassState PtrRA -> A -> PassState PtrRA)
    (l : list A) :
  Forall (fun a => forall s, Rel s (f s a)) l ->
  forall st s, Rel st s -> Rel st (fold_left f l s).
Proof.
  intros H st. apply fold_left_invariant.
  eapply Forall_impl; [exact H|]. intros a Ha s Hs.
  exact (Rel_trans _ _ _ Hs (Ha s)).
Qed.

Lemma Rel_denotateLoopParallel (L : Loop) (condition : string) :
  forall st, Rel st (denotateLoopParallel cfg L condition st).
Proof.
  induction L as [id h la line bl subs IH] using Loop_tree_ind.
  intros st. rewrite denotateLoopParallel_unfold.
  destruct (isLoopParallel cfg _); [|apply Rel_refl].
  cbn [getSubLoops getStartLine]. apply Rel_fold_left; [exact IH|].
  after ltac:(apply Rel_Comments). apply Rel_numWL.
Qed.

Lemma Rel_marknumAL (L : Loop) : forall st, Rel st (marknumAL L st).
Proof.
  induction L as [id h la line bl subs IH] using Loop_tree_ind.
  intros st. cbn [marknumAL getSubLoops].
  apply Rel_fold_left; [exact IH | apply Rel_numAL].
Qed.

Lemma Rel_marknumWL (L : Loop) : forall st, Rel st (marknumWL L st).
Proof.
  induction L as [id h la line bl subs IH] using Loop_tree_ind.
  intros st. cbn [marknumWL getSubLoops].
  apply Rel_fold_left; [exact IH | apply Rel_numWL].
Qed.

Lemma Rel_writeKernels (L : Loop) (NAME : string) (restric : bool) :
  forall st, Rel st (writeKernels cfg L NAME restric st).
Proof.
  intros st. unfold writeKernels.
  destruct (negb (ClEmitParallel cfg) && Ascii.eqb (ClEmitOMP cfg) ACC);
    [apply Rel_Comments|].
  destruct (getLoopLatch L) as [BB|]; [|apply Rel_refl].
  destruct (negb (mdIsParallel (getTerminator BB))); [apply Rel_refl|].
  assert (Rel st
            (if Ascii.eqb (ClEmitOMP cfg) ACC
             then set_Comments
                    (addCommentToLine (kernelsPragma NAME restric)
                       (to_unsigned (getStartLine L))) (incr_numWL st)
             else incr_numWL st)) as H.
  { destruct (Ascii.eqb (ClEmitOMP cfg) ACC); [|apply Rel_numWL].
    after ltac:(apply Rel_Comments). apply Rel_numWL. }
  destruct (ClEmitParallel cfg); [|exact H].
  after ltac:(apply Rel_marknumWL).
  after ltac:(apply Rel_denotateLoopParallel). exact H.
Qed.

Lemma Rel_annotateAccKernels (R : Region) (NAME : string) (restric : bool) :
  forall st, Rel st (stateAt (annotateAccKernels cfg an R NAME restric st)).
Proof.
  intros st. unfold annotateAccKernels.
  destruct (negb (isSafeMemoryCoalescing cfg an R)); [apply Rel_refl|].
  cbn [stateAt]. after ltac:(apply Rel_undefined).
  apply (fold_left_invariant
           (fun acc : gmap nat bool * PassState PtrRA => Rel st (snd acc)));
    [|apply Rel_refl].
  apply Forall_forall. intros BB _ [loops s] Hs. cbn [snd] in Hs.
  destruct (li_getLoopFor an BB) as [l|]; [|exact Hs].
  destruct (negb (contains R (getHeader l))); [exact Hs|].
  destruct (decide (loops !! loopId l = None)); cbn [snd]; [|exact Hs].
  exact (Rel_trans _ _ _ Hs (Rel_writeKernels l NAME restric s)).
Qed.

Lemma Rel_writeComputation (line lineEnd : Z) (R : Region) :
  forall st, Rel st (writeComputation cfg M an line lineEnd R st).
Proof.
  intros st. unfold writeComputation.
  pose proof (Rel_newDescriptor st) as Hd.
  destruct (newDescriptor st) as [computationName st1]. cbn [snd] in Hd.
  destruct (RC_analyzeRegion an computationName (ClEmitOMP cfg) (ptrRA st1)
              R line) as [[restric RCComments]|]; [|exact Hd].
  assert (Rel st
            (stateAt
               (annotateAccKernels cfg an R computationName restric
                  (clearExpression
                     (set_Comments (copyComments RCComments)
                        (set_routines (registerCalls cfg M (regionBlocks R))
                           st1)))))) as Hk.
  { after ltac:(apply Rel_annotateAccKernels).
    after ltac:(apply Rel_Expression).
    after ltac:(apply Rel_Comments).
    after ltac:(apply Rel_routines). exact Hd. }
  destruct (annotateAccKernels cfg an R computationName restric _) as [st2|st2];
    cbn [stateAt] in Hk; [|exact Hk].
  after ltac:(apply Rel_Comments). exact Hk.
Qed.

Lemma Rel_regionIdentify (R : Region) :
  forall st, Rel st (regionIdentify cfg M an R st).
Proof.
  induction R as [id b0 bs e t subs IH] using Region_tree_ind.
  intros st. cbn [regionIdentify block_begin subRegions].
  assert (Rel st (fold_left (fun s SR => regionIdentify cfg M an SR s) subs st))
    as Hdescend by (apply Rel_fold_left; [exact IH | apply Rel_refl]).
  destruct (li_getLoopFor an b0) as [l|]; [|exact Hdescend].
  destruct (negb (isLoopParallel cfg l) && ClEmitParallel cfg);
    [exact Hdescend|].
  destruct (negb (isLoopAnalyzable an st l)
            || negb (st_isSafetlyRegionLoops an _)); [exact Hdescend|].
  clear Hdescend.
  pose proof (Rel_marknumAL l st) as H1.
  destruct (getStartLine l =? ERROR_VALUE); [exact H1|].
  pose proof (Rel_newDescriptor (marknumAL l st)) as Hd.
  destruct (newDescriptor (marknumAL l st)) as [computationName st1].
  cbn [snd] in Hd.
  pose proof (Rel_trans _ _ _ H1 Hd) as H2.
  destruct (RC_analyzeLoop an computationName (ClEmitOMP cfg) (ptrRA st1)
              l (getStartLine l)) as [[test RCComments]|]; [|exact H2].
  destruct (ClEmitParallel cfg).
  - after ltac:(apply Rel_denotateLoopParallel).
    after ltac:(apply Rel_Expression).
    after ltac:(apply Rel_Comments).
    after ltac:(apply Rel_routines). exact H2.
  - after ltac:(apply Rel_marknumWL).
    after ltac:(apply Rel_Expression).
    after ltac:(apply Rel_Comments).
    after ltac:(apply Rel_routines). exact H2.
Qed.

Lemma Rel_regionIdentifyCoalescing (R : Region) :
  forall st, Rel st (regionIdentifyCoalescing cfg M an R st).
Proof.
  induction R as [id b0 bs e t subs IH] using Region_tree_ind.
  intros st. cbn [regionIdentifyCoalescing subRegions].
  assert (forall s, Rel st s ->
            Rel st (fold_left
                      (fun s SR => regionIdentifyCoalescing cfg M an SR s) subs s))
    as Hdescend by (intros s; apply Rel_fold_left; exact IH).
  destruct (negb (isSafeMemoryCoalescing cfg an _)
            || negb (st_isSafetlyRegionLoops an _));
    [apply Hdescend, Rel_refl|].
  destruct (negb (ptrRA_HasFullSideEffectInfo an (ptrRA st) _)
            || negb (rr_isSafetly an _)).
  - destruct (rr_returnReducedRegion an _) as [RR|];
      [|apply Hdescend, Rel_ptrRA].
    destruct (rr_isSafetly an RR && ptrRA_HasFullSideEffectInfo an _ RR);
      [|apply Hdescend, Rel_ptrRA].
    after ltac:(apply Rel_writeComputation). apply Rel_ptrRA.
  - apply Rel_writeComputation.
Qed.

Lemma Rel_countLoops (BBs : list BasicBlock) :
  forall st, Rel st (countLoops an BBs st).
Proof.
  intros st. unfold countLoops.
  apply (fold_left_invariant
           (fun acc : gmap nat bool * PassState PtrRA => Rel st (snd acc)));
    [|apply Rel_refl].
  apply Forall_forall. intros BB _ [loops s] Hs. cbn [snd] in Hs.
  destruct (li_getLoopFor an BB) as [l|]; [|exact Hs].
  destruct (decide (loops !! loopId l = None)); cbn [snd]; [|exact Hs].
  exact (Rel_trans _ _ _ Hs (Rel_numL s)).
Qed.

Lemma Rel_functionIdentify (F : Function) :
  forall st, Rel st (functionIdentify cfg M an F st).
Proof.
  intros st. unfold functionIdentify. destruct (ClCoalescing cfg).
  - after ltac:(apply Rel_regionIdentifyCoalescing). apply Rel_countLoops.
  - after ltac:(apply Rel_regionIdentify). apply Rel_countLoops.
Qed.

End Frame.

(** ** The statistic of the calls inside loops *)

Section Statistics.

Context {PtrRA : Type}.
Variable cfg : Config.
Variable M : gmap string Function.

Lemma functionIdentify_numFLC (an : Analyses PtrRA) (F : Function)
    (st : PassState PtrRA) :
  numFLC (functionIdentify cfg M an F st) = numFLC st.
Proof.
  apply (Rel_functionIdentify cfg M an (fun a b => numFLC b = numFLC a));
    try reflexivity.
  all: intros a b c Hab Hbc; now rewrite Hbc.
Qed.

Lemma runOnFunction_numFLC (an : Analyses PtrRA) (F : Function)
    (st : PassState PtrRA) :
  numFLC (runOnFunction cfg M an F st) = numFLC st.
Proof. unfold runOnFunction. now rewrite functionIdentify_numFLC. Qed.

Lemma runPass_numFLC (Fs : list (Analyses PtrRA * Function))
    (st : PassState PtrRA) :
  numFLC (runPass cfg M Fs st) = numFLC st.
Proof.
  unfold runPass. revert st. induction Fs as [|[an F] Fs IH]; intros st; cbn.
  - reflexivity.
  - now rewrite IH, runOnFunction_numFLC.
Qed.

(** [analyzeCalls] is the operation that counts: on an analyzable loop
    with one named call it adds one to the statistic. *)
Lemma analyzeCalls_counts (an : Analyses PtrRA) (L : Loop)
    (st : PassState PtrRA) (callee : string) :
  isLoopAnalyzable an st L = true ->
  loopBlocks L = [ {| blockId := 0; body := [Examples.call callee];
                      getTerminator := Examples.plain |} ] ->
  numFLC (analyzeCalls an L st) = N.succ (numFLC st).
Proof.
  intros Ha Hb. unfold analyzeCalls. rewrite Ha, Hb. reflexivity.
Qed.

End Statistics.

(** C10: no operation that [runOnFunction] reaches changes the statistic
    [numFLC], so [runOnFunction] leaves it as it finds it, and at the end of
    a run of the pass over any list of functions, with any configuration and
    any analyses, it has the value zero it started with. *)
Theorem numFLC_never_incremented :
  forall (PtrRA : Type) (cfg : Config) (M : gmap string Function),
    (forall (an : Analyses PtrRA) (F : Function) (st : PassState PtrRA),
        numFLC (runOnFunction cfg M an F st) = numFLC st)
    /\ (forall (Fs : list (Analyses PtrRA * Function)) (p : PtrRA),
           numFLC (runPass cfg M Fs (initialState p)) = 0%N).
Proof.
  intros PtrRA cfg M. split.
  - apply runOnFunction_numFLC.
  - intros Fs p. now rewrite runPass_numFLC.
Qed.

(** ** The sequence numbers of the descriptors *)

Section SequenceNumbers.

Context {PtrRA : Type}.
Variable cfg : Config.
Variable M : gmap string Function.
Variable an : Analyses PtrRA.

Lemma allocates_refl (st : PassState PtrRA) : allocates st st.
Proof.
  split; [lia|]. exists []. repeat split; [constructor | constructor].
Qed.

Lemma allocates_trans (a b c : PassState PtrRA) :
  allocates a b -> allocates b c -> allocates a c.
Proof.
  intros (Hab & n1 & E1 & D1 & F1) (Hbc & n2 & E2 & D2 & F2).
  split; [lia|]. exists (n2 ++ n1). split; [|split].
  - now rewrite E2, E1, app_assoc.
  - apply NoDup_app. split; [assumption|]. split; [|assumption].
    intros k H2 H1.
    rewrite Forall_forall in F1, F2.
    apply F1 in H1. apply F2 in H2. lia.
  - apply Forall_app. split.
    + eapply Forall_impl; [exact F2|]. cbn. intros k Hk. lia.
    + eapply Forall_impl; [exact F1|]. cbn. intros k Hk. lia.
Qed.

(** An update that leaves the counter and the trace alone. *)
Lemma allocates_same (st st' : PassState PtrRA) :
  NewVars st' = NewVars st -> Descriptors st' = Descriptors st ->
  allocates st st'.
Proof.
  intros Hn Hd. split; [lia|]. exists [].
  repeat split; [assumption | constructor | constructor].
Qed.

Lemma allocates_newDescriptor (st : PassState PtrRA) :
  allocates st (snd (newDescriptor st)).
Proof.
  unfold allocates, newDescriptor, record_Descriptor, set_NewVars.
  cbn [snd NewVars Descriptors]. split; [lia|].
  exists [NewVars st + 1]. split; [reflexivity|]. split.
  - apply NoDup_singleton.
  - repeat constructor; lia.
Qed.

Lemma functionIdentify_allocates (F : Function) (st : PassState PtrRA) :
  allocates st (functionIdentify cfg M an F st).
Proof.
  apply (Rel_functionIdentify cfg M an allocates);
    try (intros; apply allocates_same; reflexivity).
  - apply allocates_trans.
  - apply allocates_newDescriptor.
Qed.

(** C1, as the code has it: [runOnFunction] sets the counter to zero
    before it walks the function. The descriptors created for one function
    receive pairwise distinct sequence numbers, from one to the value of
    the counter at the end of the function. *)
Theorem runOnFunction_sequence_numbers (F : Function) (st : PassState PtrRA) :
  0 <= NewVars (runOnFunction cfg M an F st)
  /\ exists new : list Z,
       Descriptors (runOnFunction cfg M an F st) = new ++ Descriptors st
       /\ NoDup new
       /\ Forall (fun k => 1 <= k <= NewVars (runOnFunction cfg M an F st)) new.
Proof.
  unfold runOnFunction.
  match goal with
  | |- context [functionIdentify cfg M an F ?s] =>
      destruct (functionIdentify_allocates F s) as (Hle & new & E & D & Fa)
  end.
  cbn in Hle, E, Fa. split; [exact Hle|].
  exists new. split; [exact E|]. split; [exact D|].
  eapply Forall_impl; [exact Fa|]. cbn. intros k Hk. lia.
Qed.

End SequenceNumbers.

(** C1, as the claim states it, fails: in a run over two functions that each
    have one region to annotate, both descriptors receive the sequence
    number 1. This is so in the traversal for memory coalescing and in the
    traversal of the loops, whose run meets no undefined behaviour. *)
Lemma runPass_sequence_number_repeats :
  Descriptors
    (runPass Examples.cfgCoalescing ∅
       Examples.twoFunctions Examples.entryState) = [1; 1]
  /\ ~ NoDup
       (Descriptors
          (runPass Examples.cfgCoalescing ∅
             Examples.twoFunctions Examples.entryState))
  /\ Descriptors
       (runPass cfgLoops ∅ Examples.twoFunctions Examples.entryState) = [1; 1]
  /\ ~ NoDup
       (Descriptors
          (runPass cfgLoops ∅ Examples.twoFunctions Examples.entryState))
  /\ undefinedBehaviour
       (runPass cfgLoops ∅ Examples.twoFunctions Examples.entryState) = false.
Proof.
  assert (Descriptors
            (runPass Examples.cfgCoalescing ∅
               Examples.twoFunctions Examples.entryState) = [1; 1]) as H
    by (vm_compute; reflexivity).
  assert (Descriptors
            (runPass cfgLoops ∅ Examples.twoFunctions Examples.entryState)
          = [1; 1]) as H'
    by (vm_compute; reflexivity).
  assert (~ NoDup [1; 1]) as Hdup.
  { intros Hnd. apply NoDup_cons in Hnd as [Hnotin _]. apply Hnotin. now left. }
  split; [exact H|]. split; [now rewrite H|].
  split; [exact H'|]. split; [now rewrite H'|].
  vm_compute. reflexivity.
Qed.

(** ** Iterated increments of a statistic *)

Section Increments.

Context {PtrRA : Type}.

Lemma iter_fold_left (step : PassState PtrRA -> PassState PtrRA)
    (f : Loop -> PassState PtrRA -> PassState PtrRA) (g : Loop -> list Loop)
    (subs : list Loop) :
  Forall (fun S => forall st, f S st = Nat.iter (length (g S)) step st) subs ->
  forall st,
    fold_left (fun s S => f S s) subs st
    = Nat.iter (length (flat_map g subs)) step st.
Proof.
  induction 1 as [|S subs HS _ IH]; intros st; cbn; [reflexivity|].
  rewrite IH, HS, length_app, Nat.add_comm. symmetry. apply Nat.iter_add.
Qed.

Lemma numAL_iter (n : nat) (st : PassState PtrRA) :
  numAL (Nat.iter n incr_numAL st) = (numAL st + N.of_nat n)%N.
Proof.
  induction n as [|n IH]; [cbn; lia|].
  rewrite Nat.iter_succ. unfold incr_numAL at 1. cbn [numAL]. rewrite IH. lia.
Qed.

Lemma numWL_iter (n : nat) (st : PassState PtrRA) :
  numWL (Nat.iter n incr_numWL st) = (numWL st + N.of_nat n)%N.
Proof.
  induction n as [|n IH]; [cbn; lia|].
  rewrite Nat.iter_succ. unfold incr_numWL at 1. cbn [numWL]. rewrite IH. lia.
Qed.

Lemma numL_iter (n : nat) (st : PassState PtrRA) :
  numL (Nat.iter n incr_numL st) = (numL st + N.of_nat n)%N.
Proof.
  induction n as [|n IH]; [cbn; lia|].
  rewrite Nat.iter_succ. unfold incr_numL at 1. cbn [numL]. rewrite IH. lia.
Qed.

Lemma numFLC_iter (n : nat) (st : PassState PtrRA) :
  numFLC (Nat.iter n incr_numFLC st) = (numFLC st + N.of_nat n)%N.
Proof.
  induction n as [|n IH]; [cbn; lia|].
  rewrite Nat.iter_succ. unfold incr_numFLC at 1. cbn [numFLC]. rewrite IH. lia.
Qed.

Lemma marknumAL_iter (L : Loop) :
  forall st : PassState PtrRA,
    marknumAL L st = Nat.iter (length (loopNest L)) incr_numAL st.
Proof.
  induction L as [id h la line bl subs IH] using Loop_tree_ind. intros s.
  cbn [marknumAL loopNest getSubLoops length].
  rewrite (iter_fold_left incr_numAL marknumAL loopNest subs IH).
  now rewrite Nat.iter_succ_r.
Qed.

Lemma marknumWL_iter (L : Loop) :
  forall st : PassState PtrRA,
    marknumWL L st = Nat.iter (length (loopNest L)) incr_numWL st.
Proof.
  induction L as [id h la line bl subs IH] using Loop_tree_ind. intros s.
  cbn [marknumWL loopNest getSubLoops length].
  rewrite (iter_fold_left incr_numWL marknumWL loopNest subs IH).
  now rewrite Nat.iter_succ_r.
Qed.

End Increments.

(** ** The traversals *)

Section Traversals.

Context {PtrRA : Type}.
Variable cfg : Config.
Variable M : gmap string Function.
Variable an : Analyses PtrRA.

(** The descent into the child regions, for each of the two policies. *)
Local Abbreviation descendCoalescing R st :=
  (fold_left (fun s SR => regionIdentifyCoalescing cfg M an SR s)
     (subRegions R) st).

Local Abbreviation descend R st :=
  (fold_left (fun s SR => regionIdentify cfg M an SR s) (subRegions R) st).

Lemma regionIdentifyCoalescing_unfold (R : Region) (st : PassState PtrRA) :
  regionIdentifyCoalescing cfg M an R st =
  if negb (isSafeMemoryCoalescing cfg an R)
     || negb (st_isSafetlyRegionLoops an R)
  then descendCoalescing R st
  else
    if negb (ptrRA_HasFullSideEffectInfo an (ptrRA st) R)
       || negb (rr_isSafetly an R)
    then
      let st' := set_ptrRA (ptrRA_analyzeReducedRegion an R (ptrRA st)) st in
      match rr_returnReducedRegion an R with
      | Some RR =>
          if rr_isSafetly an RR
             && ptrRA_HasFullSideEffectInfo an (ptrRA st') RR
          then writeComputation cfg M an (st_getStartRegionLoops an R)
                 (st_getEndRegionLoops an R + 1) RR st'
          else descendCoalescing R st'
      | None => descendCoalescing R st'
      end
    else writeComputation cfg M an (st_getStartRegionLoops an R)
           (st_getEndRegionLoops an R + 1) R st.
Proof. destruct R. reflexivity. Qed.

(** When the recovery of expressions succeeds for a region for which
    [annotateAccKernels] returns, [writeComputation] leaves the closing
    brace at the end line it was given and the comments of the descriptor
    on their lines, and runs into no undefined behaviour. *)
Lemma writeComputation_closing_brace (line lineEnd : Z) (R : Region)
    (st : PassState PtrRA) (restric : bool) (RCComments : list (N * string)) :
  RC_analyzeRegion an ("AI" +:+ pretty (NewVars st + 1)) (ClEmitOMP cfg)
    (ptrRA st) R line = Some (restric, RCComments) ->
  isSafeMemoryCoalescing cfg an R = false ->
  hasFragment (Comments (writeComputation cfg M an line lineEnd R st))
    (to_unsigned lineEnd) ("}" +:+ Str.nl)
  /\ (forall Line frag, In (Line, frag) RCComments ->
        hasFragment (Comments (writeComputation cfg M an line lineEnd R st))
          Line frag)
  /\ undefinedBehaviour (writeComputation cfg M an line lineEnd R st)
     = undefinedBehaviour st.
Proof.
  intros H Hunsafe. unfold writeComputation, newDescriptor, annotateAccKernels.
  cbn [NewVars set_NewVars record_Descriptor ptrRA]. rewrite H, Hunsafe.
  cbn [negb]. split; [|split; [|reflexivity]].
  - cbn [Comments set_Comments]. apply addCommentToLine_hasFragment.
  - intros Line frag Hin. cbn [Comments set_Comments].
    apply addCommentToLine_keeps.
    cbn [Comments clearExpression set_Expression set_Comments].
    now apply copyComments_In.
Qed.

Lemma regionIdentifyCoalescing_invalid (R : Region) (st : PassState PtrRA) :
  isSafeMemoryCoalescing cfg an R = true ->
  st_isSafetlyRegionLoops an R = true ->
  ptrRA_HasFullSideEffectInfo an (ptrRA st) R = false
  \/ rr_isSafetly an R = false ->
  regionIdentifyCoalescing cfg M an R st
  = match rr_returnReducedRegion an R with
    | Some RR =>
        if rr_isSafetly an RR
           && ptrRA_HasFullSideEffectInfo an
                (ptrRA_analyzeReducedRegion an R (ptrRA st)) RR
        then writeComputation cfg M an (st_getStartRegionLoops an R)
               (st_getEndRegionLoops an R + 1) RR
               (set_ptrRA (ptrRA_analyzeReducedRegion an R (ptrRA st)) st)
        else descendCoalescing R
               (set_ptrRA (ptrRA_analyzeReducedRegion an R (ptrRA st)) st)
    | None =>
        descendCoalescing R
          (set_ptrRA (ptrRA_analyzeReducedRegion an R (ptrRA st)) st)
    end.
Proof.
  intros Hsafe Hloops Hinvalid.
  rewrite regionIdentifyCoalescing_unfold, Hsafe, Hloops. cbn [negb orb].
  replace (negb (ptrRA_HasFullSideEffectInfo an (ptrRA st) R)
           || negb (rr_isSafetly an R)) with true
    by (destruct Hinvalid as [-> | ->];
        [reflexivity | now rewrite orb_true_r]).
  reflexivity.
Qed.

(** C2, as the code has it: a region [R] that passes the two safety tests
    but lacks full side-effect information, or fails the reconstruction
    test, and whose reduced region [RR] is safe and has full information
    once the reduced region was analysed, is handled by
    [writeComputation] on [RR] with the start line and the end line that
    were computed for [R]. The recovery of expressions is given [RR] and
    the start line of [R]; when it succeeds and [annotateAccKernels]
    returns for [RR], the comments it made are on their lines, the closing
    brace is on the line after the end line of [R], and the step adds no
    undefined behaviour. *)
Theorem regionIdentifyCoalescing_reduced_region (R RR : Region)
    (st : PassState PtrRA) :
  isSafeMemoryCoalescing cfg an R = true ->
  st_isSafetlyRegionLoops an R = true ->
  ptrRA_HasFullSideEffectInfo an (ptrRA st) R = false
  \/ rr_isSafetly an R = false ->
  rr_returnReducedRegion an R = Some RR ->
  rr_isSafetly an RR = true ->
  ptrRA_HasFullSideEffectInfo an
    (ptrRA_analyzeReducedRegion an R (ptrRA st)) RR = true ->
  regionIdentifyCoalescing cfg M an R st
  = writeComputation cfg M an (st_getStartRegionLoops an R)
      (st_getEndRegionLoops an R + 1) RR
      (set_ptrRA (ptrRA_analyzeReducedRegion an R (ptrRA st)) st)
  /\ (forall restric RCComments,
         RC_analyzeRegion an ("AI" +:+ pretty (NewVars st + 1)) (ClEmitOMP cfg)
           (ptrRA_analyzeReducedRegion an R (ptrRA st)) RR
           (st_getStartRegionLoops an R) = Some (restric, RCComments) ->
         isSafeMemoryCoalescing cfg an RR = false ->
         hasFragment (Comments (regionIdentifyCoalescing cfg M an R st))
           (to_unsigned (st_getEndRegionLoops an R + 1)) ("}" +:+ Str.nl)
         /\ (forall Line frag, In (Line, frag) RCComments ->
               hasFragment (Comments (regionIdentifyCoalescing cfg M an R st))
                 Line frag)
         /\ undefinedBehaviour (regionIdentifyCoalescing cfg M an R st)
            = undefinedBehaviour st).
Proof.
  intros Hsafe Hloops Hinvalid Hred HsafeRR HfullRR.
  assert (regionIdentifyCoalescing cfg M an R st
          = writeComputation cfg M an (st_getStartRegionLoops an R)
              (st_getEndRegionLoops an R + 1) RR
              (set_ptrRA (ptrRA_analyzeReducedRegion an R (ptrRA st)) st)) as E.
  { rewrite (regionIdentifyCoalescing_invalid R st Hsafe Hloops Hinvalid).
    now rewrite Hred, HsafeRR, HfullRR. }
  split; [exact E|].
  intros restric RCComments H Hunsafe. rewrite E.
  exact (writeComputation_closing_brace (st_getStartRegionLoops an R)
           (st_getEndRegionLoops an R + 1) RR
           (set_ptrRA (ptrRA_analyzeReducedRegion an R (ptrRA st)) st)
           restric RCComments H Hunsafe).
Qed.

Lemma numAL_regionIdentify_annotated (R : Region) (l : Loop)
    (st : PassState PtrRA) :
  li_getLoopFor an (block_begin R) = Some l ->
  ClEmitParallel cfg = false \/ isLoopParallel cfg l = true ->
  isLoopAnalyzable an st l = true ->
  st_isSafetlyRegionLoops an R = true ->
  numAL (regionIdentify cfg M an R st)
  = (numAL st + N.of_nat (length (loopNest l)))%N.
Proof.
  intros Hl Hp Ha Hs. destruct R as [id b0 bs e t subs].
  cbn [regionIdentify block_begin subRegions] in *.
  rewrite Hl, Ha, Hs. cbn [negb orb].
  replace (negb (isLoopParallel cfg l) && ClEmitParallel cfg) with false
    by (destruct Hp as [-> | ->]; [now rewrite andb_false_r | reflexivity]).
  rewrite marknumAL_iter.
  assert (forall s : PassState PtrRA,
            numAL s = numAL (Nat.iter (length (loopNest l)) incr_numAL st) ->
            numAL s = (numAL st + N.of_nat (length (loopNest l)))%N) as Hfin
    by (intros s ->; apply numAL_iter).
  destruct (getStartLine l =? ERROR_VALUE); [now apply Hfin|].
  unfold newDescriptor.
  destruct (RC_analyzeLoop an _ (ClEmitOMP cfg) _ l (getStartLine l))
    as [[test RCComments]|]; [|now apply Hfin].
  apply Hfin. destruct (ClEmitParallel cfg).
  - etransitivity.
    + apply (Rel_denotateLoopParallel cfg (fun a b => numAL b = numAL a));
        try reflexivity.
      intros a b c Hab Hbc. now rewrite Hbc.
    + reflexivity.
  - etransitivity.
    + apply (Rel_marknumWL (fun a b => numAL b = numAL a)); try reflexivity.
      intros a b c Hab Hbc. now rewrite Hbc.
    + reflexivity.
Qed.

(** C5, as the code has it. In the traversal for memory coalescing:
    a region that fails [isSafeMemoryCoalescing] or the test of the scope
    tree is not annotated and the traversal descends into its children; a
    region that passes them but lacks full side-effect information, or
    fails the reconstruction test, is handled through its reduced region,
    after the reduced region was analysed: when the reduced region is safe
    and has full information it is annotated, with the lines of the region,
    and the children are not visited; when there is no reduced region, or
    it is not safe, or it lacks full information, nothing is annotated and
    the traversal descends into the children; so the region itself is
    annotated only when it is its own reduced region and is safe and has
    full information after that analysis. In the traversal for the parallel
    metadata the information of the region is not read: the traversal
    descends into the children when the first block is in no loop, when the
    parallel mode is on and the loop of the first block is not parallel,
    when that loop is not analyzable or when the region fails the test of
    the scope tree; in every other case the loop is handled at the region,
    where the loops of the nest are counted as analyzable, whatever the
    information of the region. *)
Theorem incomplete_region_not_annotated (R : Region) (st : PassState PtrRA) :
  (isSafeMemoryCoalescing cfg an R = false
   \/ st_isSafetlyRegionLoops an R = false ->
   regionIdentifyCoalescing cfg M an R st = descendCoalescing R st)
  /\ (isSafeMemoryCoalescing cfg an R = true ->
      st_isSafetlyRegionLoops an R = true ->
      ptrRA_HasFullSideEffectInfo an (ptrRA st) R = false
      \/ rr_isSafetly an R = false ->
      (forall RR,
          rr_returnReducedRegion an R = Some RR ->
          rr_isSafetly an RR = true ->
          ptrRA_HasFullSideEffectInfo an
            (ptrRA_analyzeReducedRegion an R (ptrRA st)) RR = true ->
          regionIdentifyCoalescing cfg M an R st
          = writeComputation cfg M an (st_getStartRegionLoops an R)
              (st_getEndRegionLoops an R + 1) RR
              (set_ptrRA (ptrRA_analyzeReducedRegion an R (ptrRA st)) st))
      /\ (rr_returnReducedRegion an R = None
          \/ (exists RR,
                 rr_returnReducedRegion an R = Some RR
                 /\ (rr_isSafetly an RR = false
                     \/ ptrRA_HasFullSideEffectInfo an
                          (ptrRA_analyzeReducedRegion an R (ptrRA st)) RR
                        = false)) ->
          regionIdentifyCoalescing cfg M an R st
          = descendCoalescing R
              (set_ptrRA (ptrRA_analyzeReducedRegion an R (ptrRA st)) st))
      /\ (rr_isSafetly an R = false
          \/ ptrRA_HasFullSideEffectInfo an
               (ptrRA_analyzeReducedRegion an R (ptrRA st)) R = false ->
          rr_returnReducedRegion an R = Some R ->
          regionIdentifyCoalescing cfg M an R st
          = descendCoalescing R
              (set_ptrRA (ptrRA_analyzeReducedRegion an R (ptrRA st)) st)))
  /\ (li_getLoopFor an (block_begin R) = None ->
      regionIdentify cfg M an R st = descend R st)
  /\ (forall l,
         li_getLoopFor an (block_begin R) = Some l ->
         (ClEmitParallel cfg = true /\ isLoopParallel cfg l = false)
         \/ isLoopAnalyzable an st l = false
         \/ st_isSafetlyRegionLoops an R = false ->
         regionIdentify cfg M an R st = descend R st)
  /\ (forall l,
         li_getLoopFor an (block_begin R) = Some l ->
         ClEmitParallel cfg = false \/ isLoopParallel cfg l = true ->
         isLoopAnalyzable an st l = true ->
         st_isSafetlyRegionLoops an R = true ->
         numAL (regionIdentify cfg M an R st)
         = (numAL st + N.of_nat (length (loopNest l)))%N).
Proof.
  split; [|split; [|split; [|split]]].
  - intros H. rewrite regionIdentifyCoalescing_unfold.
    destruct H as [-> | ->]; [reflexivity | now rewrite orb_true_r].
  - intros Hsafe Hloops Hinvalid.
    pose proof (regionIdentifyCoalescing_invalid R st Hsafe Hloops Hinvalid) as E.
    assert (forall RR,
              rr_returnReducedRegion an R = Some RR ->
              rr_isSafetly an RR = false
              \/ ptrRA_HasFullSideEffectInfo an
                   (ptrRA_analyzeReducedRegion an R (ptrRA st)) RR = false ->
              regionIdentifyCoalescing cfg M an R st
              = descendCoalescing R
                  (set_ptrRA (ptrRA_analyzeReducedRegion an R (ptrRA st)) st))
      as Hdescend.
    { intros RR Hred Hbad. rewrite E, Hred.
      destruct Hbad as [-> | ->]; [reflexivity | now rewrite andb_false_r]. }
    split; [|split].
    + intros RR Hred Hs Hf. now rewrite E, Hred, Hs, Hf.
    + intros [Hnone | (RR & Hred & Hbad)].
      * now rewrite E, Hnone.
      * exact (Hdescend RR Hred Hbad).
    + intros Hbad Hred. exact (Hdescend R Hred Hbad).
  - intros Hl. destruct R as [id b0 bs e t subs].
    cbn [regionIdentify block_begin subRegions] in *. now rewrite Hl.
  - intros l Hl H. destruct R as [id b0 bs e t subs].
    cbn [regionIdentify block_begin subRegions] in *. rewrite Hl.
    destruct H as [[-> ->] | H]; [reflexivity|].
    destruct (negb (isLoopParallel cfg l) && ClEmitParallel cfg);
      [reflexivity|].
    destruct H as [-> | ->]; [reflexivity | now rewrite orb_true_r].
  - intros l. apply numAL_regionIdentify_annotated.
Qed.

End Traversals.

Lemma regionIdentifyCoalescing_reduced_region_witness :
  Reduction.annotated
  = writeComputation Examples.cfgCoalescing ∅ Reduction.an 5 41
      Reduction.reduced Examples.entryState
  /\ hasFragment (Comments Reduction.annotated) 41%N ("}" +:+ Str.nl)
  /\ (forall Line frag,
        In (Line, frag) [(5%N, Examples.dataPragma "AI1")] ->
        hasFragment (Comments Reduction.annotated) Line frag)
  /\ undefinedBehaviour Reduction.annotated = false.
Proof.
  destruct (regionIdentifyCoalescing_reduced_region Examples.cfgCoalescing ∅
              Reduction.an Reduction.top Reduction.reduced
              Examples.entryState) as [E H];
    try (vm_compute; reflexivity).
  - left. vm_compute. reflexivity.
  - split; [exact E|].
    apply (H false [(5%N, Examples.dataPragma "AI1")]);
      vm_compute; reflexivity.
Defined.

(** C2, as the claim states it, fails: [top] lacks full information and its
    reduced region [reduced], with the lines 20 to 30, is safe for the
    reconstruction and has full information. The run meets no undefined
    behaviour. The closing brace is on line 41, after the end of [top], and
    line 31 has no entry; the comments of the descriptor are on line 5, the
    start of [top], and line 20 has no entry. *)
Lemma regionIdentifyCoalescing_keeps_lines_of_region :
  ptrRA_HasFullSideEffectInfo Reduction.an (ptrRA Examples.entryState)
    Reduction.top = false
  /\ rr_returnReducedRegion Reduction.an Reduction.top = Some Reduction.reduced
  /\ rr_isSafetly Reduction.an Reduction.reduced = true
  /\ ptrRA_HasFullSideEffectInfo Reduction.an (ptrRA Examples.entryState)
       Reduction.reduced = true
  /\ st_getStartRegionLoops Reduction.an Reduction.reduced = 20
  /\ st_getEndRegionLoops Reduction.an Reduction.reduced = 30
  /\ undefinedBehaviour Reduction.annotated = false
  /\ Comments Reduction.annotated !! 20%N = None
  /\ Comments Reduction.annotated !! 31%N = None
  /\ Comments Reduction.annotated !! 41%N = Some ("}" +:+ Str.nl)
  /\ Comments Reduction.annotated !! 5%N = Some (Examples.dataPragma "AI1")
  /\ Comments Reduction.reducedAtOwnLines !! 31%N = Some ("}" +:+ Str.nl)
  /\ Reduction.annotated <> Reduction.reducedAtOwnLines.
Proof.
  assert (Comments Reduction.annotated !! 31%N = None) as H31
    by (vm_compute; reflexivity).
  assert (Comments Reduction.reducedAtOwnLines !! 31%N = Some ("}" +:+ Str.nl))
    as H31' by (vm_compute; reflexivity).
  repeat (split; [vm_compute; reflexivity|]).
  intros E. rewrite E in H31. rewrite H31 in H31'. discriminate.
Qed.

Lemma incomplete_region_not_annotated_witness :
  regionIdentifyCoalescing Examples.cfgCoalescing ∅ Examples.anCoalescing
    Examples.orphan Examples.entryState
  = fold_left
      (fun s SR => regionIdentifyCoalescing Examples.cfgCoalescing ∅
                     Examples.anCoalescing SR s)
      (subRegions Examples.orphan) Examples.entryState
  /\ Reduction.annotated
     = writeComputation Examples.cfgCoalescing ∅ Reduction.an 5 41
         Reduction.reduced Examples.entryState
  /\ regionIdentifyCoalescing Examples.cfgCoalescing ∅ Reduction.an
       Reduction.top (initialState ∅)
     = fold_left
         (fun s SR => regionIdentifyCoalescing Examples.cfgCoalescing ∅
                        Reduction.an SR s)
         (subRegions Reduction.top) (initialState ∅)
  /\ regionIdentify Examples.cfgCoalescing ∅ Examples.anCoalescing
       Examples.child (initialState ∅)
     = fold_left
         (fun s SR => regionIdentify Examples.cfgCoalescing ∅
                        Examples.anCoalescing SR s)
         (subRegions Examples.child) (initialState ∅)
  /\ numAL SharedEntry.annotated = 1%N.
Proof.
  split; [|split; [|split; [|split]]].
  - apply (proj1 (incomplete_region_not_annotated Examples.cfgCoalescing ∅
                    Examples.anCoalescing Examples.orphan Examples.entryState)).
    left. reflexivity.
  - destruct (proj1 (proj2 (incomplete_region_not_annotated
                              Examples.cfgCoalescing ∅ Reduction.an
                              Reduction.top Examples.entryState)))
      as (Hannotate & _ & _).
    + reflexivity.
    + reflexivity.
    + left. vm_compute. reflexivity.
    + apply (Hannotate Reduction.reduced); vm_compute; reflexivity.
  - destruct (proj1 (proj2 (incomplete_region_not_annotated
                              Examples.cfgCoalescing ∅ Reduction.an
                              Reduction.top (initialState ∅))))
      as (_ & Hdescend & _).
    + reflexivity.
    + reflexivity.
    + left. vm_compute. reflexivity.
    + apply Hdescend. right. exists Reduction.reduced.
      split; [reflexivity|]. right. vm_compute. reflexivity.
  - apply (proj1 (proj2 (proj2 (proj2 (incomplete_region_not_annotated
                                         Examples.cfgCoalescing ∅
                                         Examples.anCoalescing Examples.child
                                         (initialState ∅)))))
             Examples.loopOfChild).
    + reflexivity.
    + right. left. vm_compute. reflexivity.
  - apply (proj2 (proj2 (proj2 (proj2 (incomplete_region_not_annotated
                                         cfgLoops ∅ SharedEntry.an
                                         SharedEntry.outside
                                         SharedEntry.entryState))))
             SharedEntry.loopAtEntry).
    + reflexivity.
    + left. reflexivity.
    + vm_compute. reflexivity.
    + reflexivity.
Defined.

(** C5, as the claim states it, fails in both traversals, on runs that meet
    no undefined behaviour. For memory coalescing: [Reduction.top] lacks
    full side-effect information, yet the traversal does not descend into
    its children; it leaves the comments of a descriptor on the first line
    of the region and the closing brace on the line after its last line.
    For the parallel metadata: [SharedEntry.outside] lacks full side-effect
    information, yet the loop of its first block is annotated at this
    region, with a descriptor of its own, and the traversal does not descend
    into its children: the loop of the second child, on line 9, is not
    annotated. *)
Lemma incomplete_region_annotated_by_reduction :
  (ptrRA_HasFullSideEffectInfo Reduction.an (ptrRA Examples.entryState)
     Reduction.top = false
   /\ st_getStartRegionLoops Reduction.an Reduction.top = 5
   /\ st_getEndRegionLoops Reduction.an Reduction.top + 1 = 41
   /\ undefinedBehaviour Reduction.annotated = false
   /\ Comments Reduction.annotated !! 5%N = Some (Examples.dataPragma "AI1")
   /\ Comments Reduction.annotated !! 41%N = Some ("}" +:+ Str.nl)
   /\ Comments Reduction.descended !! 41%N = None
   /\ Reduction.annotated <> Reduction.descended)
  /\ (ptrRA_HasFullSideEffectInfo SharedEntry.an (ptrRA SharedEntry.entryState)
        SharedEntry.outside = false
      /\ li_getLoopFor SharedEntry.an (block_begin SharedEntry.outside)
         = Some SharedEntry.loopAtEntry
      /\ undefinedBehaviour SharedEntry.annotated = false
      /\ Descriptors SharedEntry.annotated = [1]
      /\ Comments SharedEntry.annotated !! 7%N
         = Some (Examples.dataPragma "AI1")
      /\ Comments SharedEntry.annotated !! 9%N = None
      /\ Comments SharedEntry.descended !! 9%N
         = Some (Examples.dataPragma "AI2")
      /\ SharedEntry.annotated <> SharedEntry.descended).
Proof.
  assert (Comments Reduction.annotated !! 41%N = Some ("}" +:+ Str.nl)) as H41
    by (vm_compute; reflexivity).
  assert (Comments Reduction.descended !! 41%N = None) as H41'
    by (vm_compute; reflexivity).
  assert (Comments SharedEntry.annotated !! 9%N = None) as H9
    by (vm_compute; reflexivity).
  assert (Comments SharedEntry.descended !! 9%N
          = Some (Examples.dataPragma "AI2")) as H9'
    by (vm_compute; reflexivity).
  split.
  - repeat (split; [vm_compute; reflexivity|]).
    intros E. rewrite E in H41. rewrite H41 in H41'. discriminate.
  - repeat (split; [vm_compute; reflexivity|]).
    intros E. rewrite E in H9. rewrite H9 in H9'. discriminate.
Qed.

(** * Further properties of the pass *)

(** ** Copies of comments *)

(** Copying entries whose fragments the lines already hold changes nothing. *)
Lemma copyComments_present (l : list (N * string)) (m : gmap N string) :
  Forall (fun e => hasFragment m (fst e) (snd e)) l -> copyComments l m = m.
Proof.
  induction 1 as [|[k f] l (text & Ht & Ho) _ IH]; cbn; [reflexivity|].
  cbn in Ht, Ho. now rewrite (addCommentToLine_present m k f text Ht Ho).
Qed.

(** After [copyComments] each line of the map that was copied holds the
    fragment that was copied for it. *)
Theorem copyComments_hasFragment (l : list (N * string)) (m : gmap N string)
    (Line : N) (frag : string) :
  In (Line, frag) l -> hasFragment (copyComments l m) Line frag.
Proof. apply copyComments_In. Qed.

Lemma copyComments_hasFragment_witness :
  hasFragment (copyComments [(3%N, "a"); (4%N, "b")] {[ 4%N := "x" ]}) 4%N "b".
Proof.
  apply (copyComments_hasFragment [(3%N, "a"); (4%N, "b")] {[ 4%N := "x" ]}).
  right. left. reflexivity.
Defined.

(** Copying the same comments a second time changes nothing: the merge of
    the comments of a descriptor into the comment map is idempotent. *)
Theorem copyComments_idempotent (l : list (N * string)) (m : gmap N string) :
  copyComments l (copyComments l m) = copyComments l m.
Proof.
  apply copyComments_present. apply Forall_forall. intros [k f] Hin.
  apply copyComments_In. now apply list_elem_of_In.
Qed.

(** ** The statistics *)

Section Counters.

Context {PtrRA : Type}.
Variable cfg : Config.
Variable an : Analyses PtrRA.

(** [marknumAL] and [marknumWL] count every loop of the nest once, the
    loop they are given included, and change nothing else: the state they
    return is the one they are given after as many increments of their
    statistic as the nest has loops. *)
Theorem marknum_counts_nest (L : Loop) (st : PassState PtrRA) :
  marknumAL L st = Nat.iter (length (loopNest L)) incr_numAL st
  /\ numAL (marknumAL L st) = (numAL st + N.of_nat (length (loopNest L)))%N
  /\ marknumWL L st = Nat.iter (length (loopNest L)) incr_numWL st
  /\ numWL (marknumWL L st) = (numWL st + N.of_nat (length (loopNest L)))%N.
Proof.
  split; [apply marknumAL_iter|].
  split; [rewrite marknumAL_iter; apply numAL_iter|].
  split; [apply marknumWL_iter|]. rewrite marknumWL_iter. apply numWL_iter.
Qed.

Lemma analyzeCalls_fold (Insts : list Instruction) (st : PassState PtrRA) :
  fold_left
    (fun s Inst =>
       match getCalledFunction Inst with
       | Some _ =>
           if negb (String.eqb (instName Inst) EmptyString) then incr_numFLC s
           else s
       | None => s
       end) Insts st
  = Nat.iter (length (namedCalls Insts)) incr_numFLC st.
Proof.
  revert st. induction Insts as [|Inst Insts IH]; intros st; [reflexivity|].
  cbn [fold_left]. rewrite IH. unfold namedCalls. rewrite filter_cons.
  destruct (getCalledFunction Inst) as [g|] eqn:Hg.
  - destruct (String.eqb_spec (instName Inst) EmptyString) as [E|E];
      cbn [negb].
    + rewrite decide_False by (intros [_ H]; contradiction). reflexivity.
    + rewrite decide_True by (split; [eauto | assumption]).
      cbn [length]. now rewrite Nat.iter_succ_r.
  - rewrite decide_False by (intros [[x Hx] _]; discriminate). reflexivity.
Qed.

(** [analyzeCalls] leaves the state of a loop that is not analyzable as it
    is; for an analyzable loop it adds to [numFLC] the number of call
    instructions of the loop that have a name, and changes nothing else. *)
Theorem analyzeCalls_counts_named_calls (L : Loop) (st : PassState PtrRA) :
  analyzeCalls an L st
  = (if isLoopAnalyzable an st L
     then Nat.iter (length (namedCalls (allInstructions (loopBlocks L))))
            incr_numFLC st
     else st)
  /\ numFLC (analyzeCalls an L st)
     = (numFLC st
        + (if isLoopAnalyzable an st L
           then N.of_nat (length (namedCalls (allInstructions (loopBlocks L))))
           else 0))%N.
Proof.
  unfold analyzeCalls. destruct (isLoopAnalyzable an st L); cbn [negb].
  - rewrite analyzeCalls_fold. split; [reflexivity | apply numFLC_iter].
  - split; [reflexivity | lia].
Qed.

End Counters.

Section LoopCounts.

Context {PtrRA : Type}.
Variable cfg : Config.
Variable an : Analyses PtrRA.

Lemma loopIdsOfBlocks_cons (BB : BasicBlock) (BBs : list BasicBlock) :
  loopIdsOfBlocks an (BB :: BBs)
  = match li_getLoopFor an BB with
    | Some l => {[ loopId l ]} ∪ loopIdsOfBlocks an BBs
    | None => loopIdsOfBlocks an BBs
    end.
Proof.
  unfold loopIdsOfBlocks. cbn [omap list_omap].
  destruct (li_getLoopFor an BB); reflexivity.
Qed.

Lemma gset_difference_new (i : nat) (X D : gset nat) :
  i ∉ D -> size (({[i]} ∪ X) ∖ D) = S (size (X ∖ ({[i]} ∪ D))).
Proof.
  intros Hi.
  assert (({[i]} ∪ X) ∖ D = {[i]} ∪ X ∖ ({[i]} ∪ D)) as ->.
  { apply set_eq. intros x.
    rewrite !elem_of_difference, !elem_of_union, !elem_of_difference,
      !elem_of_union, !elem_of_singleton.
    destruct (decide (x = i)) as [->|Hne]; intuition congruence. }
  rewrite size_union.
  - now rewrite size_singleton.
  - intros x. rewrite elem_of_singleton, elem_of_difference, elem_of_union,
      elem_of_singleton. intuition congruence.
Qed.

Lemma gset_difference_old (i : nat) (X D : gset nat) :
  i ∈ D -> ({[i]} ∪ X) ∖ D = X ∖ D.
Proof.
  intros Hi. apply set_eq. intros x.
  rewrite !elem_of_difference, !elem_of_union, !elem_of_singleton.
  intuition congruence.
Qed.

Lemma gset_difference_empty_l (D : gset nat) : ∅ ∖ D = (∅ : gset nat).
Proof.
  apply set_eq. intros x. rewrite elem_of_difference, elem_of_empty. tauto.
Qed.

Lemma gset_difference_empty_r (X : gset nat) : X ∖ ∅ = X.
Proof.
  apply set_eq. intros x. rewrite elem_of_difference, elem_of_empty. tauto.
Qed.

Lemma countLoops_from (BBs : list BasicBlock) :
  forall (loops : gmap nat bool) (s : PassState PtrRA),
    snd (fold_left
           (fun (acc : gmap nat bool * PassState PtrRA) B =>
              let '(loops, s) := acc in
              match li_getLoopFor an B with
              | Some l =>
                  if decide (loops !! loopId l = None)
                  then (<[loopId l := true]> loops, incr_numL s)
                  else (loops, s)
              | None => (loops, s)
              end)
           BBs (loops, s))
    = Nat.iter (size (loopIdsOfBlocks an BBs ∖ dom loops)) incr_numL s.
Proof.
  induction BBs as [|BB BBs IH]; intros loops s.
  - cbn. unfold loopIdsOfBlocks. cbn.
    now rewrite gset_difference_empty_l, size_empty.
  - cbn [fold_left]. rewrite loopIdsOfBlocks_cons.
    destruct (li_getLoopFor an BB) as [l|]; [|apply IH].
    destruct (decide (loops !! loopId l = None)) as [Hnew|Hold]; rewrite IH.
    + apply not_elem_of_dom in Hnew. rewrite dom_insert_L.
      rewrite (gset_difference_new _ _ _ Hnew). now rewrite Nat.iter_succ_r.
    + assert (loopId l ∈ dom loops) as Hin.
      { apply elem_of_dom. destruct (loops !! loopId l); [eauto | congruence]. }
      now rewrite (gset_difference_old _ _ _ Hin).
Qed.

Lemma countLoops_iter (BBs : list BasicBlock) (st : PassState PtrRA) :
  countLoops an BBs st = Nat.iter (size (loopIdsOfBlocks an BBs)) incr_numL st.
Proof.
  unfold countLoops.
  now rewrite countLoops_from, dom_empty_L, gset_difference_empty_r.
Qed.

(** [countLoops], the first loop of [functionIdentify], adds to [numL] the
    number of distinct loops among the loops of the blocks it is given, and
    changes nothing else: a loop that holds several blocks is counted
    once. *)
Theorem countLoops_counts_distinct_loops (BBs : list BasicBlock)
    (st : PassState PtrRA) :
  countLoops an BBs st
  = Nat.iter (size (loopIdsOfBlocks an BBs)) incr_numL st
  /\ numL (countLoops an BBs st)
     = (numL st + N.of_nat (size (loopIdsOfBlocks an BBs)))%N.
Proof.
  split; [apply countLoops_iter|]. rewrite countLoops_iter. apply numL_iter.
Qed.

Lemma numWL_fold_left (f : Loop -> PassState PtrRA -> PassState PtrRA)
    (g : Loop -> list Loop) (subs : list Loop) :
  Forall (fun S => forall st,
              numWL (f S st) = (numWL st + N.of_nat (length (g S)))%N) subs ->
  forall st,
    numWL (fold_left (fun s S => f S s) subs st)
    = (numWL st + N.of_nat (length (flat_map g subs)))%N.
Proof.
  induction 1 as [|S subs HS _ IH]; intros st; cbn; [lia|].
  rewrite IH, HS, length_app. lia.
Qed.

Lemma denotateLoopParallel_numWL (L : Loop) (condition : string) :
  forall st : PassState PtrRA,
    numWL (denotateLoopParallel cfg L condition st)
    = (numWL st + N.of_nat (length (annotatedLoops cfg L)))%N.
Proof.
  induction L as [id h la line bl subs IH] using Loop_tree_ind. intros st.
  rewrite denotateLoopParallel_unfold. cbn [annotatedLoops].
  destruct (isLoopParallel cfg _); [|cbn; lia].
  cbn [getSubLoops getStartLine length].
  rewrite (numWL_fold_left (fun S s => denotateLoopParallel cfg S condition s)
             (annotatedLoops cfg) subs IH).
  cbn [numWL set_Comments incr_numWL]. lia.
Qed.

(** [denotateLoopParallel] adds to [numWL] the number of loops it
    annotates: the loops of the nest that pass the test of the markers and
    whose ancestors in the nest all pass it. *)
Theorem denotateLoopParallel_counts_annotated (L : Loop) (condition : string)
    (st : PassState PtrRA) :
  numWL (denotateLoopParallel cfg L condition st)
  = (numWL st + N.of_nat (length (annotatedLoops cfg L)))%N.
Proof. apply denotateLoopParallel_numWL. Qed.

(** Without the parallel mode and with a target other than the
    accelerator, [writeKernels] writes no comment. *)
Lemma writeKernels_no_comment (L : Loop) (NAME : string) (restric : bool)
    (st : PassState PtrRA) :
  ClEmitParallel cfg = false -> ClEmitOMP cfg <> ACC ->
  Comments (writeKernels cfg L NAME restric st) = Comments st.
Proof.
  intros Hp Ho. unfold writeKernels. rewrite Hp.
  assert (Ascii.eqb (ClEmitOMP cfg) ACC = false) as -> by now apply Ascii.eqb_neq.
  cbn [negb andb].
  destruct (getLoopLatch L) as [BB|]; [|reflexivity].
  destruct (negb (mdIsParallel (getTerminator BB))); reflexivity.
Qed.

(** Without the parallel mode and with a target other than the
    accelerator, [annotateAccKernels] leaves the comment map as it is,
    whatever the region and its loops: no kernel directive is written,
    neither when the function returns nor when it runs to the end of its
    body. *)
Theorem annotateAccKernels_no_comment (R : Region) (NAME : string)
    (restric : bool) (st : PassState PtrRA) :
  ClEmitParallel cfg = false -> ClEmitOMP cfg <> ACC ->
  Comments (stateAt (annotateAccKernels cfg an R NAME restric st))
  = Comments st.
Proof.
  intros Hp Ho. unfold annotateAccKernels.
  destruct (negb (isSafeMemoryCoalescing cfg an R)); [reflexivity|].
  cbn [stateAt mark_undefined Comments].
  apply (fold_left_invariant
           (fun acc : gmap nat bool * PassState PtrRA =>
              Comments (snd acc) = Comments st)); [|reflexivity].
  apply Forall_forall. intros BB _ [loops s] Hs. cbn [snd] in Hs.
  destruct (li_getLoopFor an BB) as [l|]; [|exact Hs].
  destruct (negb (contains R (getHeader l))); [exact Hs|].
  destruct (decide (loops !! loopId l = None)); cbn [snd]; [|exact Hs].
  now rewrite writeKernels_no_comment.
Qed.

End LoopCounts.

Lemma annotateAccKernels_no_comment_witness :
  Comments (stateAt (annotateAccKernels cfgOpenMP Examples.anCoalescing
                       Examples.child "AI1" false Examples.entryState))
  = Comments Examples.entryState.
Proof.
  apply (annotateAccKernels_no_comment cfgOpenMP Examples.anCoalescing
           Examples.child "AI1" false Examples.entryState).
  - reflexivity.
  - discriminate.
Defined.

(** ** What a traversal keeps, with the updates it really makes *)

(** The section [Frame] asks that a relation hold across every update of
    the comment map and of the registry. The traversals only insert
    comments with [addCommentToLine] and [copyComments], only change the
    registry with [registerCalls] and only change the range analysis with
    [analyzeReducedRegion]; a relation that holds across these holds across
    [functionIdentify]. *)
Section Invariant.

Context {PtrRA : Type}.
Variable cfg : Config.
Variable M : gmap string Function.
Variable an : Analyses PtrRA.
Variable Rel : PassState PtrRA -> PassState PtrRA -> Prop.

Hypothesis Rel_refl : forall st, Rel st st.
Hypothesis Rel_trans : forall a b c, Rel a b -> Rel b c -> Rel a c.
Hypothesis Rel_addComment :
  forall c l st, Rel st (set_Comments (addCommentToLine c l) st).
Hypothesis Rel_copyComments :
  forall cs st, Rel st (set_Comments (copyComments cs) st).
Hypothesis Rel_registerCalls :
  forall BBs st, Rel st (set_routines (registerCalls cfg M BBs) st).
Hypothesis Rel_Expression : forall e st, Rel st (set_Expression e st).
Hypothesis Rel_numL : forall st, Rel st (incr_numL st).
Hypothesis Rel_numAL : forall st, Rel st (incr_numAL st).
Hypothesis Rel_numWL : forall st, Rel st (incr_numWL st).
Hypothesis Rel_analyzeReducedRegion :
  forall R st,
    Rel st (set_ptrRA (ptrRA_analyzeReducedRegion an R (ptrRA st)) st).
Hypothesis Rel_newDescriptor : forall st, Rel st (snd (newDescriptor st)).
Hypothesis Rel_undefined : forall st, Rel st (mark_undefined st).

Local Ltac then_by tac := eapply Rel_trans; [|tac].

Lemma Inv_fold_left {A : Type} (f : PassState PtrRA -> A -> PassState PtrRA)
    (l : list A) :
  Forall (fun a => forall s, Rel s (f s a)) l ->
  forall st s, Rel st s -> Rel st (fold_left f l s).
Proof.
  intros H st. apply fold_left_invariant.
  eapply Forall_impl; [exact H|]. intros a Ha s Hs.
  exact (Rel_trans _ _ _ Hs (Ha s)).
Qed.

Lemma Inv_denotateLoopParallel (L : Loop) (condition : string) :
  forall st, Rel st (denotateLoopParallel cfg L condition st).
Proof.
  induction L as [id h la line bl subs IH] using Loop_tree_ind.
  intros st. rewrite denotateLoopParallel_unfold.
  destruct (isLoopParallel cfg _); [|apply Rel_refl].
  cbn [getSubLoops getStartLine]. apply Inv_fold_left; [exact IH|].
  then_by ltac:(apply Rel_addComment). apply Rel_numWL.
Qed.

Lemma Inv_marknumAL (L : Loop) : forall st, Rel st (marknumAL L st).
Proof.
  intros st. rewrite marknumAL_iter.
  induction (length (loopNest L)) as [|n IH]; [apply Rel_refl|].
  rewrite Nat.iter_succ. then_by ltac:(apply Rel_numAL). exact IH.
Qed.

Lemma Inv_marknumWL (L : Loop) : forall st, Rel st (marknumWL L st).
Proof.
  intros st. rewrite marknumWL_iter.
  induction (length (loopNest L)) as [|n IH]; [apply Rel_refl|].
  rewrite Nat.iter_succ. then_by ltac:(apply Rel_numWL). exact IH.
Qed.

Lemma Inv_writeKernels (L : Loop) (NAME : string) (restric : bool) :
  forall st, Rel st (writeKernels cfg L NAME restric st).
Proof.
  intros st. unfold writeKernels.
  destruct (negb (ClEmitParallel cfg) && Ascii.eqb (ClEmitOMP cfg) ACC);
    [apply Rel_addComment|].
  destruct (getLoopLatch L) as [BB|]; [|apply Rel_refl].
  destruct (negb (mdIsParallel (getTerminator BB))); [apply Rel_refl|].
  assert (Rel st
            (if Ascii.eqb (ClEmitOMP cfg) ACC
             then set_Comments
                    (addCommentToLine (kernelsPragma NAME restric)
                       (to_unsigned (getStartLine L))) (incr_numWL st)
             else incr_numWL st)) as H.
  { destruct (Ascii.eqb (ClEmitOMP cfg) ACC); [|apply Rel_numWL].
    then_by ltac:(apply Rel_addComment). apply Rel_numWL. }
  destruct (ClEmitParallel cfg); [|exact H].
  then_by ltac:(apply Inv_marknumWL).
  then_by ltac:(apply Inv_denotateLoopParallel). exact H.
Qed.

Lemma Inv_annotateAccKernels (R : Region) (NAME : string) (restric : bool) :
  forall st, Rel st (stateAt (annotateAccKernels cfg an R NAME restric st)).
Proof.
  intros st. unfold annotateAccKernels.
  destruct (negb (isSafeMemoryCoalescing cfg an R)); [apply Rel_refl|].
  cbn [stateAt]. then_by ltac:(apply Rel_undefined).
  apply (fold_left_invariant
           (fun acc : gmap nat bool * PassState PtrRA => Rel st (snd acc)));
    [|apply Rel_refl].
  apply Forall_forall. intros BB _ [loops s] Hs. cbn [snd] in Hs.
  destruct (li_getLoopFor an BB) as [l|]; [|exact Hs].
  destruct (negb (contains R (getHeader l))); [exact Hs|].
  destruct (decide (loops !! loopId l = None)); cbn [snd]; [|exact Hs].
  exact (Rel_trans _ _ _ Hs (Inv_writeKernels l NAME restric s)).
Qed.

Lemma Inv_writeComputation (line lineEnd : Z) (R : Region) :
  forall st, Rel st (writeComputation cfg M an line lineEnd R st).
Proof.
  intros st. unfold writeComputation.
  pose proof (Rel_newDescriptor st) as Hd.
  destruct (newDescriptor st) as [computationName st1]. cbn [snd] in Hd.
  destruct (RC_analyzeRegion an computationName (ClEmitOMP cfg) (ptrRA st1)
              R line) as [[restric RCComments]|]; [|exact Hd].
  assert (Rel st
            (stateAt
               (annotateAccKernels cfg an R computationName restric
                  (clearExpression
                     (set_Comments (copyComments RCComments)
                        (set_routines (registerCalls cfg M (regionBlocks R))
                           st1)))))) as Hk.
  { then_by ltac:(apply Inv_annotateAccKernels).
    then_by ltac:(apply Rel_Expression).
    then_by ltac:(apply Rel_copyComments).
    then_by ltac:(apply Rel_registerCalls). exact Hd. }
  destruct (annotateAccKernels cfg an R computationName restric _) as [st2|st2];
    cbn [stateAt] in Hk; [|exact Hk].
  then_by ltac:(apply Rel_addComment). exact Hk.
Qed.

Lemma Inv_regionIdentify (R : Region) :
  forall st, Rel st (regionIdentify cfg M an R st).
Proof.
  induction R as [id b0 bs e t subs IH] using Region_tree_ind.
  intros st. cbn [regionIdentify block_begin subRegions].
  assert (Rel st (fold_left (fun s SR => regionIdentify cfg M an SR s) subs st))
    as Hdescend by (apply Inv_fold_left; [exact IH | apply Rel_refl]).
  destruct (li_getLoopFor an b0) as [l|]; [|exact Hdescend].
  destruct (negb (isLoopParallel cfg l) && ClEmitParallel cfg);
    [exact Hdescend|].
  destruct (negb (isLoopAnalyzable an st l)
            || negb (st_isSafetlyRegionLoops an _)); [exact Hdescend|].
  clear Hdescend.
  pose proof (Inv_marknumAL l st) as H1.
  destruct (getStartLine l =? ERROR_VALUE); [exact H1|].
  pose proof (Rel_newDescriptor (marknumAL l st)) as Hd.
  destruct (newDescriptor (marknumAL l st)) as [computationName st1].
  cbn [snd] in Hd.
  pose proof (Rel_trans _ _ _ H1 Hd) as H2.
  destruct (RC_analyzeLoop an computationName (ClEmitOMP cfg) (ptrRA st1)
              l (getStartLine l)) as [[test RCComments]|]; [|exact H2].
  destruct (ClEmitParallel cfg).
  - then_by ltac:(apply Inv_denotateLoopParallel).
    then_by ltac:(apply Rel_Expression).
    then_by ltac:(apply Rel_copyComments).
    then_by ltac:(apply Rel_registerCalls). exact H2.
  - then_by ltac:(apply Inv_marknumWL).
    then_by ltac:(apply Rel_Expression).
    then_by ltac:(apply Rel_copyComments).
    then_by ltac:(apply Rel_registerCalls). exact H2.
Qed.

Lemma Inv_regionIdentifyCoalescing (R : Region) :
  forall st, Rel st (regionIdentifyCoalescing cfg M an R st).
Proof.
  induction R as [id b0 bs e t subs IH] using Region_tree_ind.
  intros st. cbn [regionIdentifyCoalescing subRegions].
  assert (forall s, Rel st s ->
            Rel st (fold_left
                      (fun s SR => regionIdentifyCoalescing cfg M an SR s) subs s))
    as Hdescend by (intros s; apply Inv_fold_left; exact IH).
  destruct (negb (isSafeMemoryCoalescing cfg an _)
            || negb (st_isSafetlyRegionLoops an _));
    [apply Hdescend, Rel_refl|].
  destruct (negb (ptrRA_HasFullSideEffectInfo an (ptrRA st) _)
            || negb (rr_isSafetly an _)).
  - destruct (rr_returnReducedRegion an _) as [RR|];
      [|apply Hdescend, Rel_analyzeReducedRegion].
    destruct (rr_isSafetly an RR && ptrRA_HasFullSideEffectInfo an _ RR);
      [|apply Hdescend, Rel_analyzeReducedRegion].
    then_by ltac:(apply Inv_writeComputation). apply Rel_analyzeReducedRegion.
  - apply Inv_writeComputation.
Qed.

Lemma Inv_countLoops (BBs : list BasicBlock) :
  forall st, Rel st (countLoops an BBs st).
Proof.
  intros st. rewrite countLoops_iter.
  induction (size (loopIdsOfBlocks an BBs)) as [|n IH]; [apply Rel_refl|].
  rewrite Nat.iter_succ. then_by ltac:(apply Rel_numL). exact IH.
Qed.

Lemma Inv_functionIdentify (F : Function) :
  forall st, Rel st (functionIdentify cfg M an F st).
Proof.
  intros st. unfold functionIdentify. destruct (ClCoalescing cfg).
  - then_by ltac:(apply Inv_regionIdentifyCoalescing). apply Inv_countLoops.
  - then_by ltac:(apply Inv_regionIdentify). apply Inv_countLoops.
Qed.

End Invariant.

(** ** Invariants of a run *)

Section RunInvariants.

Context {PtrRA : Type}.
Variable cfg : Config.
Variable M : gmap string Function.

Lemma commentsExtended_refl (m : gmap N string) : commentsExtended m m.
Proof.
  intros L text H. exists EmptyString. now rewrite Str_app_nil_r.
Qed.

Lemma commentsExtended_trans (a b c : gmap N string) :
  commentsExtended a b -> commentsExtended b c -> commentsExtended a c.
Proof.
  intros Hab Hbc L text H.
  destruct (Hab L text H) as [s1 H1]. destruct (Hbc L _ H1) as [s2 H2].
  exists (s1 +:+ s2). now rewrite H2, Str_app_assoc.
Qed.

Lemma commentsExtended_addCommentToLine (c : string) (l : N) (m : gmap N string) :
  commentsExtended m (addCommentToLine c l m).
Proof.
  intros L text H. unfold addCommentToLine.
  destruct (m !! l) as [t|] eqn:Hl.
  - destruct (Str.find t c).
    + exists EmptyString. now rewrite Str_app_nil_r.
    + destruct (decide (l = L)) as [->|Hne].
      * rewrite lookup_insert_eq. exists c. congruence.
      * rewrite lookup_insert_ne by assumption.
        exists EmptyString. now rewrite Str_app_nil_r.
  - destruct (decide (l = L)) as [->|Hne]; [congruence|].
    rewrite lookup_insert_ne by assumption.
    exists EmptyString. now rewrite Str_app_nil_r.
Qed.

Lemma commentsExtended_copyComments (cs : list (N * string)) (m : gmap N string) :
  commentsExtended m (copyComments cs m).
Proof.
  revert m. induction cs as [|[k f] cs IH]; intros m; cbn.
  - apply commentsExtended_refl.
  - eapply commentsExtended_trans; [apply commentsExtended_addCommentToLine|].
    apply IH.
Qed.

(** The traversal of a function never removes a line from the comment map
    and never changes what a line already holds: the text a line has when
    [functionIdentify] starts is the beginning of the text it has when
    [functionIdentify] returns. *)
Theorem functionIdentify_extends_comments (an : Analyses PtrRA) (F : Function)
    (st : PassState PtrRA) :
  commentsExtended (Comments st) (Comments (functionIdentify cfg M an F st)).
Proof.
  apply (Inv_functionIdentify cfg M an
           (fun a b => commentsExtended (Comments a) (Comments b)));
    try (intros; apply commentsExtended_refl).
  - intros a b c. apply commentsExtended_trans.
  - intros c l s. apply commentsExtended_addCommentToLine.
  - intros cs s. apply commentsExtended_copyComments.
Qed.

Lemma findACCroutines_grows (F : string) (r : gmap string bool) :
  (dom r : gset string) ⊆ dom (findACCroutines cfg M F r).
Proof. exact (proj2 (findACCroutines_fuel_enough cfg M 0 F r)). Qed.

Lemma registerCalls_grows (BBs : list BasicBlock) (r : gmap string bool) :
  (dom r : gset string) ⊆ dom (registerCalls cfg M BBs r).
Proof.
  unfold registerCalls.
  apply (fold_left_invariant
           (fun r' : gmap string bool => (dom r : gset string) ⊆ dom r'));
    [|reflexivity].
  apply Forall_forall. intros Inst _ r' Hr'.
  destruct (getCalledFunction Inst) as [callee|]; [|exact Hr'].
  destruct (decide (r' !! callee = None)); [|exact Hr'].
  etransitivity; [exact Hr' | apply findACCroutines_grows].
Qed.

Lemma functionIdentify_registry (an : Analyses PtrRA) (F : Function)
    (st : PassState PtrRA) :
  (dom (routines st) : gset string)
  ⊆ dom (routines (functionIdentify cfg M an F st)).
Proof.
  apply (Inv_functionIdentify cfg M an
           (fun a b => (dom (routines a) : gset string) ⊆ dom (routines b)));
    try (intros; reflexivity).
  - intros a b c Hab Hbc. etransitivity; eassumption.
  - intros BBs s. apply registerCalls_grows.
Qed.

(** The registry of routines is never reset and never shrinks: a function
    that is registered when a run over any list of functions starts is
    registered when it ends. *)
Theorem runPass_registry_grows (Fs : list (Analyses PtrRA * Function))
    (st : PassState PtrRA) :
  (dom (routines st) : gset string) ⊆ dom (routines (runPass cfg M Fs st)).
Proof.
  unfold runPass. revert st.
  induction Fs as [|[an F] Fs IH]; intros st; cbn [fold_left fst snd];
    [reflexivity|].
  etransitivity; [|apply IH]. unfold runOnFunction.
  etransitivity; [|apply functionIdentify_registry]. reflexivity.
Qed.

Lemma functionIdentify_statistics (an : Analyses PtrRA) (F : Function)
    (st : PassState PtrRA) :
  (numL st <= numL (functionIdentify cfg M an F st)
   /\ numAL st <= numAL (functionIdentify cfg M an F st)
   /\ numWL st <= numWL (functionIdentify cfg M an F st))%N.
Proof.
  apply (Inv_functionIdentify cfg M an
           (fun a b => (numL a <= numL b /\ numAL a <= numAL b
                        /\ numWL a <= numWL b)%N));
    intros; cbn; lia.
Qed.

(** The statistics of loops never decrease during a run. *)
Theorem runPass_statistics_monotone (Fs : list (Analyses PtrRA * Function))
    (st : PassState PtrRA) :
  (numL st <= numL (runPass cfg M Fs st)
   /\ numAL st <= numAL (runPass cfg M Fs st)
   /\ numWL st <= numWL (runPass cfg M Fs st))%N.
Proof.
  unfold runPass. revert st.
  induction Fs as [|[an F] Fs IH]; intros st; cbn [fold_left fst snd];
    [lia|].
  destruct (IH (runOnFunction cfg M an F st)) as (H1 & H2 & H3).
  unfold runOnFunction in *.
  match type of H1 with
  | context [functionIdentify cfg M an F ?s] =>
      destruct (functionIdentify_statistics an F s) as (G1 & G2 & G3)
  end.
  cbn in G1, G2, G3. lia.
Qed.

(** With a target other than the accelerator [findACCroutines] registers
    nothing. *)
Lemma findACCroutines_other_target (F : string) (r : gmap string bool) :
  ClEmitOMP cfg <> ACC -> findACCroutines cfg M F r = r.
Proof.
  intros H. unfold findACCroutines.
  replace (size M + 2)%nat with (S (S (size M))) by lia.
  cbn [findACCroutines_fuel].
  assert (Ascii.eqb (ClEmitOMP cfg) ACC = false) as -> by now apply Ascii.eqb_neq.
  cbn [negb]. now rewrite !orb_true_r.
Qed.

Lemma registerCalls_other_target (BBs : list BasicBlock) (r : gmap string bool) :
  ClEmitOMP cfg <> ACC -> registerCalls cfg M BBs r = r.
Proof.
  intros H. unfold registerCalls.
  apply (fold_left_invariant (fun r' : gmap string bool => r' = r));
    [|reflexivity].
  apply Forall_forall. intros Inst _ r' ->.
  destruct (getCalledFunction Inst) as [callee|]; [|reflexivity].
  destruct (decide (r !! callee = None)); [|reflexivity].
  now apply findACCroutines_other_target.
Qed.

(** With an OpenMP target the registry of routines is left as it is by a
    run over any list of functions: routines are only collected for the
    accelerator. *)
Theorem runPass_registry_other_target (Fs : list (Analyses PtrRA * Function))
    (st : PassState PtrRA) :
  ClEmitOMP cfg <> ACC -> routines (runPass cfg M Fs st) = routines st.
Proof.
  intros Htarget. unfold runPass. revert st.
  induction Fs as [|[an F] Fs IH]; intros st; cbn [fold_left fst snd];
    [reflexivity|].
  rewrite IH. unfold runOnFunction.
  match goal with
  | |- context [functionIdentify cfg M an F ?s] =>
      change (routines st) with (routines s);
      apply (Inv_functionIdentify cfg M an
               (fun a b => routines b = routines a))
  end; try (intros; reflexivity).
  - intros a b c Hab Hbc. now rewrite Hbc.
  - intros BBs s. cbn. now apply registerCalls_other_target.
Qed.

End RunInvariants.

Lemma runPass_registry_other_target_witness :
  routines (runPass cfgOpenMP Examples.cycle Examples.twoFunctions
              Examples.entryState)
  = routines Examples.entryState.
Proof.
  apply (runPass_registry_other_target cfgOpenMP Examples.cycle
           Examples.twoFunctions Examples.entryState).
  discriminate.
Defined.

(** ** The registry is the closure of the calls *)

Section Closure.

Variable cfg : Config.
Variable M : gmap string Function.

Lemma findACCroutines_fuel_step (n : nat) (F : string) (r : gmap string bool) :
  findACCroutines_fuel cfg M (S n) F r
  = if eligible cfg M F
    then forCalls (findACCroutines_fuel cfg M n)
           (allInstructions (fblocks (getFunction M F)))
           (if decide (r !! F = None) then <[F := true]> r else r)
    else Some r.
Proof.
  cbn [findACCroutines_fuel]. unfold eligible.
  destruct (isDeclaration (getFunction M F) || isIntrinsic (getFunction M F)
            || hasAvailableExternallyLinkage (getFunction M F)
            || negb (Ascii.eqb (ClEmitOMP cfg) ACC)); reflexivity.
Qed.

Lemma registered_or_new (F G : string) (r : gmap string bool) :
  G ∈ (dom (if decide (r !! F = None) then <[F := true]> r else r) : gset string) ->
  G = F \/ G ∈ (dom r : gset string).
Proof.
  destruct (decide (r !! F = None)); [|now right].
  rewrite dom_insert_L, elem_of_union, elem_of_singleton. tauto.
Qed.

Lemma registered_after (F : string) (r : gmap string bool) :
  F ∈ (dom (if decide (r !! F = None) then <[F := true]> r else r) : gset string)
  /\ (dom r : gset string)
     ⊆ dom (if decide (r !! F = None) then <[F := true]> r else r).
Proof.
  destruct (decide (r !! F = None)) as [Hn|Hs].
  - rewrite dom_insert_L. split.
    + apply elem_of_union. left. now apply elem_of_singleton.
    + intros x Hx. apply elem_of_union. now right.
  - split; [|reflexivity]. apply elem_of_dom.
    destruct (r !! F); [eauto | congruence].
Qed.

Lemma reachable_eligible (F G : string) :
  reachable cfg M F G -> eligible cfg M F = true /\ eligible cfg M G = true.
Proof.
  induction 1 as [F H | F g G H Hin Hr [_ IH]]; split; assumption.
Qed.

(** *** Every function that is added is reached from the function given *)

Lemma forCalls_sound
    (visit : string -> gmap string bool -> option (gmap string bool))
    (Insts : list Instruction) :
  (forall g r r', visit g r = Some r' ->
     forall G, G ∈ (dom r' : gset string) ->
               G ∈ (dom r : gset string) \/ reachable cfg M g G) ->
  forall r r', forCalls visit Insts r = Some r' ->
    forall G, G ∈ (dom r' : gset string) ->
      G ∈ (dom r : gset string)
      \/ exists g, In g (callees Insts) /\ reachable cfg M g G.
Proof.
  intros Hvisit. induction Insts as [|Inst Insts IH]; intros r r'; cbn [forCalls].
  - intros E G HG. injection E as <-. now left.
  - unfold callees. cbn [omap list_omap]. fold (callees Insts).
    destruct (getCalledFunction Inst) as [callee|].
    + destruct (decide (r !! callee = None)).
      * destruct (visit callee r) as [r1|] eqn:Hv; [|discriminate].
        intros E G HG. destruct (IH _ _ E G HG) as [H1|(g & Hg & Hr)].
        -- destruct (Hvisit _ _ _ Hv G H1) as [H0|Hr]; [now left|].
           right. exists callee. split; [now left | assumption].
        -- right. exists g. split; [now right | assumption].
      * intros E G HG. destruct (IH _ _ E G HG) as [H1|(g & Hg & Hr)];
          [now left|].
        right. exists g. split; [now right | assumption].
    + apply IH.
Qed.

Lemma findACCroutines_fuel_sound (n : nat) :
  forall F r r', findACCroutines_fuel cfg M n F r = Some r' ->
    forall G, G ∈ (dom r' : gset string) ->
              G ∈ (dom r : gset string) \/ reachable cfg M F G.
Proof.
  induction n as [|n IH]; intros F r r'; [discriminate|].
  rewrite findACCroutines_fuel_step.
  destruct (eligible cfg M F) eqn:He.
  - intros E G HG.
    destruct (forCalls_sound _ _ IH _ _ E G HG) as [H1|(g & Hg & Hr)].
    + destruct (registered_or_new F G r H1) as [->|H0]; [|now left].
      right. now apply reachable_here.
    + right. now apply (reachable_call cfg M F g G).
  - intros E G HG. injection E as <-. now left.
Qed.

(** *** Every function that is reached is added *)

Local Abbreviation closedNew := (closedUnderCalls cfg M).

Lemma closedNew_trans (r r1 r' : gmap string bool) :
  (dom r1 : gset string) ⊆ dom r' ->
  closedNew r r1 -> closedNew r1 r' -> closedNew r r'.
Proof.
  intros Hsub H1 H2 G HG Hn g Hg He.
  destruct (decide (G ∈ (dom r1 : gset string))) as [Hin|Hout].
  - apply Hsub. now apply (H1 G Hin Hn g).
  - now apply (H2 G HG Hout g).
Qed.

Lemma forCalls_complete
    (visit : string -> gmap string bool -> option (gmap string bool))
    (Insts : list Instruction) :
  (forall g r r', visit g r = Some r' ->
     (dom r : gset string) ⊆ dom r'
     /\ (eligible cfg M g = true -> g ∈ (dom r' : gset string))
     /\ closedNew r r') ->
  forall r r', forCalls visit Insts r = Some r' ->
    (dom r : gset string) ⊆ dom r'
    /\ (forall g, In g (callees Insts) -> eligible cfg M g = true ->
                  g ∈ (dom r' : gset string))
    /\ closedNew r r'.
Proof.
  intros Hvisit. induction Insts as [|Inst Insts IH]; intros r r'; cbn [forCalls].
  - intros E. injection E as <-. split; [reflexivity|]. split.
    + intros g [].
    + intros G HG Hn. contradiction.
  - unfold callees. cbn [omap list_omap]. fold (callees Insts).
    destruct (getCalledFunction Inst) as [callee|]; [|apply IH].
    destruct (decide (r !! callee = None)) as [Hnone|Hsome].
    + destruct (visit callee r) as [r1|] eqn:Hv; [|discriminate].
      intros E. destruct (Hvisit _ _ _ Hv) as (S1 & C1 & N1).
      destruct (IH _ _ E) as (S2 & C2 & N2).
      split; [etransitivity; eassumption|]. split.
      * intros g [<-|Hg] He; [apply S2, C1, He | now apply C2].
      * now apply (closedNew_trans r r1 r').
    + intros E. destruct (IH _ _ E) as (S2 & C2 & N2).
      split; [assumption|]. split; [|assumption].
      intros g [<-|Hg] He; [|now apply C2].
      apply S2, elem_of_dom. destruct (r !! callee); [eauto | congruence].
Qed.

Lemma findACCroutines_fuel_complete (n : nat) :
  forall F r r', findACCroutines_fuel cfg M n F r = Some r' ->
    (dom r : gset string) ⊆ dom r'
    /\ (eligible cfg M F = true -> F ∈ (dom r' : gset string))
    /\ closedNew r r'.
Proof.
  induction n as [|n IH]; intros F r r'; [discriminate|].
  rewrite findACCroutines_fuel_step.
  destruct (eligible cfg M F) eqn:He.
  - intros E. destruct (forCalls_complete _ _ IH _ _ E) as (S1 & C1 & N1).
    destruct (registered_after F r) as [HF Hsub].
    split; [etransitivity; eassumption|]. split; [intros _; now apply S1|].
    intros G HG Hn g Hg Hel.
    destruct (decide (G ∈ (dom (if decide (r !! F = None)
                                then <[F := true]> r else r) : gset string)))
      as [Hin|Hout].
    + destruct (registered_or_new F G r Hin) as [->|H0]; [|contradiction].
      now apply C1.
    + now apply (N1 G HG Hout g).
  - intros E. injection E as <-. split; [reflexivity|].
    split; [discriminate|]. intros G HG Hn. contradiction.
Qed.

Lemma closed_reachable (r' : gmap string bool) :
  closedNew ∅ r' ->
  forall X G, reachable cfg M X G ->
    X ∈ (dom r' : gset string) -> G ∈ (dom r' : gset string).
Proof.
  intros Hc X G Hr. induction Hr as [F H | F g G H Hin Hr IH]; intros HX;
    [assumption|].
  apply IH. apply (Hc F HX); [|assumption|].
  - rewrite dom_empty_L. apply not_elem_of_empty.
  - now destruct (reachable_eligible _ _ Hr).
Qed.

(** Run on an empty registry, [findACCroutines] registers exactly the
    functions reached from the function it is given along calls through
    functions that pass its guard (a body, not intrinsic, no
    available-externally linkage, accelerator target): the registry is the
    transitive closure of the calls. *)
Theorem findACCroutines_transitive_closure (F G : string) :
  G ∈ (dom (findACCroutines cfg M F ∅) : gset string) <-> reachable cfg M F G.
Proof.
  destruct (findACCroutines_fuel_enough cfg M 0 F ∅) as [E _].
  split.
  - intros HG.
    destruct (findACCroutines_fuel_sound _ _ _ _ E G HG) as [H0|Hr];
      [|assumption].
    rewrite dom_empty_L in H0. now apply not_elem_of_empty in H0.
  - intros Hr.
    destruct (findACCroutines_fuel_complete _ _ _ _ E) as (_ & HF & Hc).
    apply (closed_reachable _ Hc F G Hr). apply HF.
    now destruct (reachable_eligible _ _ Hr).
Qed.

End Closure.

(** ** Source lines *)

Lemma to_int_small (n : N) : (n < 2 ^ 31)%N -> to_int n = Z.of_N n.
Proof.
  intros H. unfold to_int.
  assert (0 <= Z.of_N n < 2 ^ 31) as Hz.
  { split; [lia|]. change (2 ^ 31) with (Z.of_N (2 ^ 31)). lia. }
  rewrite Z.mod_small by lia.
  destruct (Z.ltb_spec (Z.of_N n) (2 ^ 31)); [reflexivity | lia].
Qed.

Lemma to_int_range (n : N) : - 2 ^ 31 <= to_int n <= INT_MAX.
Proof.
  unfold to_int, INT_MAX.
  pose proof (Z.mod_pos_bound (Z.of_N n) (2 ^ 32) eq_refl) as H.
  cbv zeta. destruct (Z.ltb_spec (Z.of_N n mod 2 ^ 32) (2 ^ 31)); lia.
Qed.

Lemma getLineNo_range (V : option Value) : - 2 ^ 31 <= getLineNo V <= INT_MAX.
Proof.
  destruct V as [[[[line|]|]|]|]; cbn [getLineNo];
    try (unfold ERROR_VALUE, INT_MAX; lia).
  apply to_int_range.
Qed.

Lemma wrap_int_small (z : Z) : - 2 ^ 31 <= z < 2 ^ 31 -> wrap_int z = z.
Proof. intros H. unfold wrap_int. rewrite Z.mod_small; lia. Qed.

(** [getLineNo] returns [ERROR_VALUE] for a null pointer, for a value that
    is not an instruction, for an instruction without [dbg] metadata and for
    metadata that is not a [DILocation]; it returns the line of a
    [DILocation] as it is when the line is below [2^31]; and the line
    [2^32 - 1] cannot be told from an error. *)
Theorem getLineNo_cases :
  getLineNo None = ERROR_VALUE
  /\ getLineNo (Some ValOther) = ERROR_VALUE
  /\ getLineNo (Some (ValInstruction None)) = ERROR_VALUE
  /\ getLineNo (Some (ValInstruction (Some MDOther))) = ERROR_VALUE
  /\ (forall line : N, (line < 2 ^ 31)%N ->
        getLineNo (Some (ValInstruction (Some (DILocation line)))) = Z.of_N line)
  /\ getLineNo (Some (ValInstruction (Some (DILocation (2 ^ 32 - 1)))))
     = ERROR_VALUE.
Proof.
  repeat (split; [reflexivity|]). split; [|reflexivity].
  intros line H. cbn [getLineNo]. now apply to_int_small.
Qed.

Lemma getLineNo_cases_witness :
  getLineNo (Some (ValInstruction (Some (DILocation 17)))) = 17.
Proof.
  apply (proj1 (proj2 (proj2 (proj2 (proj2 getLineNo_cases)))) 17%N).
  reflexivity.
Defined.

Section EndLines.

Variable dbg : BasicBlock -> list (option MDNode).


Lemma maxInstructionLine_flat (BBs : list BasicBlock) (m : Z) :
  fold_left
    (fun maxLine BB =>
       fold_left
         (fun maxLine d => keepMax maxLine (getLineNo (Some (ValInstruction d))))
         (dbg BB) maxLine)
    BBs m
  = fold_left keepMax (instructionLines dbg BBs) m.
Proof.
  unfold instructionLines. revert m.
  induction BBs as [|BB BBs IH]; intros m; cbn [fold_left flat_map];
    [reflexivity|].
  rewrite IH, map_app, fold_left_app. f_equal.
  generalize (dbg BB). intros ds. revert m.
  induction ds as [|d ds IHd]; intros m; cbn; [reflexivity | apply IHd].
Qed.

Lemma keepMax_fold (lines : list Z) :
  forall m, ERROR_VALUE <= m ->
    let r := fold_left keepMax lines m in
    m <= r /\ (forall line, In line lines -> line <= r)
    /\ (r = m \/ In r lines).
Proof.
  unfold ERROR_VALUE.
  induction lines as [|x lines IH]; intros m Hm; cbn [fold_left].
  - split; [lia|]. split; [intros line []|now left].
  - assert (-1 <= keepMax m x /\ m <= keepMax m x /\ x <= keepMax m x
            /\ (keepMax m x = m \/ keepMax m x = x)) as (K1 & K2 & K3 & K4).
    { unfold keepMax, ERROR_VALUE.
      destruct (Z.eqb_spec x (-1)), (Z.ltb_spec m x); cbn; lia. }
    destruct (IH (keepMax m x) K1) as (I1 & I2 & I3).
    split; [lia|]. split.
    + intros line [<-|Hin]; [lia | now apply I2].
    + destruct I3 as [E|Hin]; [|right; now right].
      destruct K4 as [E'|E']; [left; congruence|].
      right. left. congruence.
Qed.

Lemma instructionLines_range (BBs : list BasicBlock) (line : Z) :
  In line (instructionLines dbg BBs) -> - 2 ^ 31 <= line <= INT_MAX.
Proof.
  unfold instructionLines. rewrite in_map_iff. intros (d & <- & _).
  apply getLineNo_range.
Qed.

Lemma endLine_spec (BBs : list BasicBlock) :
  let maxLine := maxInstructionLine dbg BBs in
  let e :=
    if negb (maxLine =? ERROR_VALUE) then wrap_int (maxLine + 1)
    else maxLine in
  (e = ERROR_VALUE <-> forall line, In line (instructionLines dbg BBs) -> line < 0)
  /\ ((forall line, In line (instructionLines dbg BBs) -> line < INT_MAX) ->
      e <> ERROR_VALUE ->
      In (e - 1) (instructionLines dbg BBs)
      /\ forall line, In line (instructionLines dbg BBs) -> line < e)
  /\ (In INT_MAX (instructionLines dbg BBs) -> e = - 2 ^ 31).
Proof.
  unfold maxInstructionLine.
  change (fold_left _ BBs ERROR_VALUE)
    with (fold_left
            (fun maxLine BB =>
               fold_left
                 (fun maxLine d =>
                    keepMax maxLine (getLineNo (Some (ValInstruction d))))
                 (dbg BB) maxLine) BBs ERROR_VALUE).
  rewrite maxInstructionLine_flat.
  destruct (keepMax_fold (instructionLines dbg BBs) ERROR_VALUE) as (H1 & H2 & H3);
    [reflexivity|].
  pose proof (instructionLines_range BBs) as Hrange.
  cbv zeta in *. unfold ERROR_VALUE, INT_MAX in *.
  set (r := fold_left keepMax (instructionLines dbg BBs) (-1)) in *.
  destruct (Z.eqb_spec r (-1)) as [E|E]; cbn [negb].
  - split; [|split].
    + split; [|intros _; exact E]. intros _ line Hin. apply H2 in Hin. lia.
    + intros _ Hne. contradiction.
    + intros Hin. apply H2 in Hin. lia.
  - destruct H3 as [H3|H3]; [contradiction|].
    pose proof (Hrange r H3) as Hr.
    assert (r < 2 ^ 31 - 1 -> wrap_int (r + 1) = r + 1) as Hsmall
      by (intros Hlt; apply wrap_int_small; lia).
    assert (r = 2 ^ 31 - 1 -> wrap_int (r + 1) = - 2 ^ 31) as Hmax
      by (intros ->; reflexivity).
    split; [|split].
    + split.
      * intros He. destruct (Z.eq_dec r (2 ^ 31 - 1)) as [Hr'|Hr'].
        -- rewrite (Hmax Hr') in He. discriminate.
        -- rewrite Hsmall in He by lia. lia.
      * intros Hall. apply Hall in H3. lia.
    + intros Hbelow _. rewrite Hsmall by (apply Hbelow, H3). split.
      * now replace (r + 1 - 1) with r by lia.
      * intros line Hin. apply H2 in Hin. lia.
    + intros Hin. apply Hmax. apply H2 in Hin. lia.
Qed.

(** [returnRegionEndLine] returns [ERROR_VALUE] exactly when no instruction
    of the region has a line that is zero or more. When every line is
    below [INT_MAX] and some line is zero or more, it returns a line that
    is one more than the line of some instruction and greater than the line
    of every instruction of the region. When an instruction is at the line
    [INT_MAX] the increment wraps around and the result is [- 2^31], which
    is after no line. *)
Theorem returnRegionEndLine_after_last_line (R : Region) :
  (returnRegionEndLine dbg R = ERROR_VALUE <->
   forall line, In line (instructionLines dbg (regionBlocks R)) -> line < 0)
  /\ ((forall line,
          In line (instructionLines dbg (regionBlocks R)) -> line < INT_MAX) ->
      returnRegionEndLine dbg R <> ERROR_VALUE ->
      In (returnRegionEndLine dbg R - 1) (instructionLines dbg (regionBlocks R))
      /\ forall line, In line (instructionLines dbg (regionBlocks R)) ->
                      line < returnRegionEndLine dbg R)
  /\ (In INT_MAX (instructionLines dbg (regionBlocks R)) ->
      returnRegionEndLine dbg R = - 2 ^ 31).
Proof. exact (endLine_spec (regionBlocks R)). Qed.

(** [returnLoopEndLine] returns [ERROR_VALUE] for a loop without a unique
    exit block, whatever the lines of its instructions. For a loop with a
    unique exit block it returns [ERROR_VALUE] exactly when no instruction
    has a line that is zero or more; when every line is below [INT_MAX] and
    some line is zero or more, it returns a line that is one more than the
    line of some instruction and greater than the line of every instruction
    of the loop; when an instruction is at the line [INT_MAX] the increment
    wraps around and the result is [- 2^31]. *)
Theorem returnLoopEndLine_after_last_line
    (getUniqueExitBlock : Loop -> option BasicBlock) (L : Loop) :
  (getUniqueExitBlock L = None ->
   returnLoopEndLine dbg getUniqueExitBlock L = ERROR_VALUE)
  /\ (forall B, getUniqueExitBlock L = Some B ->
        (returnLoopEndLine dbg getUniqueExitBlock L = ERROR_VALUE <->
         forall line, In line (instructionLines dbg (loopBlocks L)) -> line < 0)
        /\ ((forall line,
                In line (instructionLines dbg (loopBlocks L)) ->
                line < INT_MAX) ->
            returnLoopEndLine dbg getUniqueExitBlock L <> ERROR_VALUE ->
            In (returnLoopEndLine dbg getUniqueExitBlock L - 1)
              (instructionLines dbg (loopBlocks L))
            /\ forall line, In line (instructionLines dbg (loopBlocks L)) ->
                            line < returnLoopEndLine dbg getUniqueExitBlock L)
        /\ (In INT_MAX (instructionLines dbg (loopBlocks L)) ->
            returnLoopEndLine dbg getUniqueExitBlock L = - 2 ^ 31)).
Proof.
  unfold returnLoopEndLine. split.
  - intros ->. reflexivity.
  - intros B ->. exact (endLine_spec (loopBlocks L)).
Qed.

End EndLines.

Lemma returnRegionEndLine_after_last_line_witness :
  (In (returnRegionEndLine (dbgAtLine 7) Examples.child - 1)
     (instructionLines (dbgAtLine 7) (regionBlocks Examples.child))
   /\ forall line,
        In line (instructionLines (dbgAtLine 7) (regionBlocks Examples.child)) ->
        line < returnRegionEndLine (dbgAtLine 7) Examples.child)
  /\ returnRegionEndLine (dbgAtLine (2 ^ 31 - 1)) Examples.child = - 2 ^ 31.
Proof.
  split.
  - apply (proj1 (proj2 (returnRegionEndLine_after_last_line (dbgAtLine 7)
                           Examples.child))).
    + intros line Hin. vm_compute in Hin.
      repeat destruct Hin as [<- | Hin]; try reflexivity. contradiction.
    + vm_compute. discriminate.
  - apply (proj2 (proj2 (returnRegionEndLine_after_last_line
                           (dbgAtLine (2 ^ 31 - 1)) Examples.child))).
    vm_compute. left. reflexivity.
Defined.

Lemma returnLoopEndLine_after_last_line_witness :
  returnLoopEndLine (dbgAtLine 7) (fun _ => None) Examples.loopOfChild
  = ERROR_VALUE
  /\ (In (returnLoopEndLine (dbgAtLine 7)
            (fun _ => Some (Examples.block 9 Examples.plain))
            Examples.loopOfChild - 1)
        (instructionLines (dbgAtLine 7) (loopBlocks Examples.loopOfChild))
      /\ forall line,
           In line
             (instructionLines (dbgAtLine 7) (loopBlocks Examples.loopOfChild)) ->
           line < returnLoopEndLine (dbgAtLine 7)
                    (fun _ => Some (Examples.block 9 Examples.plain))
                    Examples.loopOfChild)
  /\ returnLoopEndLine (dbgAtLine (2 ^ 31 - 1))
       (fun _ => Some (Examples.block 9 Examples.plain)) Examples.loopOfChild
     = - 2 ^ 31.
Proof.
  split; [|split].
  - apply (proj1 (returnLoopEndLine_after_last_line (dbgAtLine 7) (fun _ => None)
                    Examples.loopOfChild)).
    reflexivity.
  - apply (proj1 (proj2 (proj2 (returnLoopEndLine_after_last_line (dbgAtLine 7)
                                  (fun _ => Some (Examples.block 9 Examples.plain))
                                  Examples.loopOfChild)
                           (Examples.block 9 Examples.plain) eq_refl))).
    + intros line Hin. vm_compute in Hin.
      repeat destruct Hin as [<- | Hin]; try reflexivity. contradiction.
    + vm_compute. discriminate.
  - apply (proj2 (proj2 (proj2 (returnLoopEndLine_after_last_line
                                  (dbgAtLine (2 ^ 31 - 1))
                                  (fun _ => Some (Examples.block 9 Examples.plain))
                                  Examples.loopOfChild)
                           (Examples.block 9 Examples.plain) eq_refl))).
    vm_compute. left. reflexivity.
Defined.

Section StartLine.

Context {PtrRA : Type}.
Variable an : Analyses PtrRA.

Lemma loopsOfBlocks_from (BBs : list BasicBlock) :
  forall loops : gmap nat Loop,
    let r :=
      fold_left
        (fun loops BB =>
           match li_getLoopFor an BB with
           | Some L =>
               if decide (loops !! loopId L = None) then <[loopId L := L]> loops
               else loops
           | None => loops
           end) BBs loops in
    (forall id L, r !! id = Some L ->
       loops !! id = Some L
       \/ (loopId L = id /\ exists BB, In BB BBs /\ li_getLoopFor an BB = Some L))
    /\ (forall id, is_Some (loops !! id) -> is_Some (r !! id))
    /\ (forall BB L, In BB BBs -> li_getLoopFor an BB = Some L ->
                     is_Some (r !! loopId L)).
Proof.
  induction BBs as [|B BBs IH]; intros loops; cbn [fold_left].
  - split; [intros id L H; now left|]. split; [trivial|]. intros BB L [].
  - set (loops1 := match li_getLoopFor an B with
                   | Some L =>
                       if decide (loops !! loopId L = None)
                       then <[loopId L := L]> loops else loops
                   | None => loops
                   end).
    destruct (IH loops1) as (I1 & I2 & I3). cbv zeta in *.
    assert (forall id L, loops1 !! id = Some L ->
              loops !! id = Some L
              \/ (loopId L = id /\ li_getLoopFor an B = Some L)) as A1.
    { intros id L. subst loops1.
      destruct (li_getLoopFor an B) as [L0|]; [|now left].
      destruct (decide (loops !! loopId L0 = None)); [|now left].
      destruct (decide (loopId L0 = id)) as [<-|Hne].
      - rewrite lookup_insert_eq. intros E. injection E as <-. now right.
      - rewrite lookup_insert_ne by assumption. now left. }
    assert (forall id, is_Some (loops !! id) -> is_Some (loops1 !! id)) as A2.
    { intros id H. subst loops1.
      destruct (li_getLoopFor an B) as [L0|]; [|exact H].
      destruct (decide (loops !! loopId L0 = None)); [|exact H].
      destruct (decide (loopId L0 = id)) as [<-|Hne].
      - rewrite lookup_insert_eq. eauto.
      - now rewrite lookup_insert_ne by assumption. }
    assert (forall L, li_getLoopFor an B = Some L ->
              is_Some (loops1 !! loopId L)) as A3.
    { intros L HL. subst loops1. rewrite HL.
      destruct (decide (loops !! loopId L = None)) as [Hn|Hs].
      - rewrite lookup_insert_eq. eauto.
      - destruct (loops !! loopId L); [eauto | congruence]. }
    split; [|split].
    + intros id L H. destruct (I1 id L H) as [H1|(E & BB & Hin & HBB)].
      * destruct (A1 id L H1) as [H0|[E HB]]; [now left|].
        right. split; [exact E|]. exists B. split; [now left | exact HB].
      * right. split; [exact E|]. exists BB. split; [now right | exact HBB].
    + intros id H. apply I2, A2, H.
    + intros BB L [<-|Hin] HBB; [apply I2, A3, HBB | now apply (I3 BB L)].
Qed.

Lemma minStartLine_spec (loops : gmap nat Loop) :
  let r :=
    map_fold
      (fun (_ : nat) (L : Loop) (minLine : Z) =>
         let line := getStartLine L in
         if line <? minLine then line else minLine)
      INT_MAX loops in
  r <= INT_MAX
  /\ (forall id L, loops !! id = Some L -> r <= getStartLine L)
  /\ (r = INT_MAX \/ exists id L, loops !! id = Some L /\ r = getStartLine L).
Proof.
  cbv zeta.
  apply (map_fold_weak_ind
           (fun (r : Z) (m : gmap nat Loop) =>
              r <= INT_MAX
              /\ (forall id L, m !! id = Some L -> r <= getStartLine L)
              /\ (r = INT_MAX
                  \/ exists id L, m !! id = Some L /\ r = getStartLine L))).
  - split; [lia|]. split; [|now left]. intros id L H.
    rewrite lookup_empty in H. discriminate.
  - intros i L m r Hnone (H1 & H2 & H3).
    destruct (Z.ltb_spec (getStartLine L) r) as [Hlt|Hge].
    + split; [lia|]. split.
      * intros id L'. destruct (decide (i = id)) as [->|Hne].
        -- rewrite lookup_insert_eq. intros E. injection E as <-. lia.
        -- rewrite lookup_insert_ne by assumption. intros H.
           apply H2 in H. lia.
      * right. exists i, L. split; [apply lookup_insert_eq | reflexivity].
    + split; [lia|]. split.
      * intros id L'. destruct (decide (i = id)) as [->|Hne].
        -- rewrite lookup_insert_eq. intros E. injection E as <-. lia.
        -- rewrite lookup_insert_ne by assumption. apply H2.
      * destruct H3 as [E|(id & L' & HL' & E)]; [now left|].
        right. exists id, L'. split; [|exact E].
        rewrite lookup_insert_ne; [exact HL'|]. intros ->. congruence.
Qed.

(** [returnRegionStartLine] returns the smallest start line of the loops of
    the blocks of the region: it is [INT_MAX] when no block of the region
    is in a loop, it is never above [INT_MAX], it is [INT_MAX] or the start
    line of the loop of some block, and, when a key stands for one loop, it
    is not above the start line of the loop of any block of the region. *)
Theorem returnRegionStartLine_smallest (R : Region) :
  returnRegionStartLine an R <= INT_MAX
  /\ ((forall BB, In BB (regionBlocks R) -> li_getLoopFor an BB = None) ->
      returnRegionStartLine an R = INT_MAX)
  /\ (returnRegionStartLine an R = INT_MAX
      \/ exists BB L, In BB (regionBlocks R) /\ li_getLoopFor an BB = Some L
                      /\ returnRegionStartLine an R = getStartLine L)
  /\ ((forall BB1 BB2 L1 L2,
          In BB1 (regionBlocks R) -> In BB2 (regionBlocks R) ->
          li_getLoopFor an BB1 = Some L1 -> li_getLoopFor an BB2 = Some L2 ->
          loopId L1 = loopId L2 -> L1 = L2) ->
      forall BB L, In BB (regionBlocks R) -> li_getLoopFor an BB = Some L ->
                   returnRegionStartLine an R <= getStartLine L).
Proof.
  unfold returnRegionStartLine.
  destruct (minStartLine_spec (loopsOfBlocks an (regionBlocks R)))
    as (H1 & H2 & H3).
  destruct (loopsOfBlocks_from (regionBlocks R) ∅) as (F1 & _ & F3).
  cbv zeta in *. fold (loopsOfBlocks an (regionBlocks R)) in F1, F3.
  assert (forall id L, loopsOfBlocks an (regionBlocks R) !! id = Some L ->
            loopId L = id
            /\ exists BB, In BB (regionBlocks R) /\ li_getLoopFor an BB = Some L)
    as F1'.
  { intros id L H. destruct (F1 id L H) as [H0|H0]; [|exact H0].
    rewrite lookup_empty in H0. discriminate. }
  split; [exact H1|]. split; [|split].
  - intros Hnone. destruct H3 as [E|(id & L & HL & _)]; [exact E|].
    destruct (F1' id L HL) as (_ & BB & Hin & HBB).
    rewrite (Hnone BB Hin) in HBB. discriminate.
  - destruct H3 as [E|(id & L & HL & E)]; [now left|].
    right. destruct (F1' id L HL) as (_ & BB & Hin & HBB).
    exists BB, L. repeat split; assumption.
  - intros Hid BB L Hin HBB.
    destruct (F3 BB L Hin HBB) as [L' HL'].
    destruct (F1' _ _ HL') as (E & BB' & Hin' & HBB').
    assert (L' = L) as -> by exact (Hid BB' BB L' L Hin' Hin HBB' HBB E).
    exact (H2 _ _ HL').
Qed.

End StartLine.

Lemma returnRegionStartLine_smallest_witness :
  returnRegionStartLine Examples.anCoalescing Examples.orphan = INT_MAX
  /\ returnRegionStartLine Examples.anCoalescing Examples.top
     <= getStartLine Examples.loopOfChild.
Proof.
  split.
  - apply (proj1 (proj2 (returnRegionStartLine_smallest Examples.anCoalescing
                           Examples.orphan))).
    intros BB [<-|[]]. reflexivity.
  - apply (proj2 (proj2 (proj2 (returnRegionStartLine_smallest
                                  Examples.anCoalescing Examples.top)))
             ltac:(intros BB1 BB2 L1 L2 H1 H2;
                   destruct H1 as [<-|[<-|[]]]; destruct H2 as [<-|[<-|[]]];
                   cbn; congruence)
             (Examples.block 2 Examples.plain) Examples.loopOfChild).
    + right. left. reflexivity.
    + reflexivity.
Defined.

(** ** The parallel marker in a region *)

(** A loop that passes [isLoopParallel] and whose latch is a block of the
    region makes [hasLoopParallel] true for the region. *)
Theorem hasLoopParallel_of_parallel_loop (cfg : Config) (R : Region) (L : Loop)
    (BB : BasicBlock) :
  isLoopParallel cfg L = true ->
  getLoopLatch L = Some BB ->
  In BB (regionBlocks R) ->
  hasLoopParallel R = true.
Proof.
  intros Hp Hl Hin. unfold hasLoopParallel. apply existsb_exists.
  exists BB. split; [exact Hin|].
  unfold isLoopParallel in Hp. rewrite Hl in Hp.
  destruct (mdIsParallel (getTerminator BB)); [reflexivity | discriminate].
Qed.

Lemma hasLoopParallel_of_parallel_loop_witness :
  hasLoopParallel
    (mkRegion 3 (Examples.block 5 Examples.parallelBr) [] None true []) = true.
Proof.
  apply (hasLoopParallel_of_parallel_loop Examples.cfgParallel
           (mkRegion 3 (Examples.block 5 Examples.parallelBr) [] None true [])
           Examples.outer (Examples.block 5 Examples.parallelBr)).
  - reflexivity.
  - reflexivity.
  - left. reflexivity.
Defined.

(** ** The file of parallel loops *)

Section ParallelFile.

Context {PtrRA : Type}.
Variable cfg : Config.
Variable char_signed : bool.

Lemma parseLineFrom_mod (Line : string) :
  forall a : Z,
    parseLineFrom char_signed (a mod 2 ^ 32) Line
    = parseExact char_signed a Line mod 2 ^ 32.
Proof.
  induction Line as [|c rest IH]; intros a; cbn [parseLineFrom parseExact].
  - reflexivity.
  - rewrite <- IH. f_equal.
    rewrite Z.mul_mod_idemp_l by lia. now rewrite Z.add_mod_idemp_l by lia.
Qed.

Lemma charValue_digit (d : N) :
  (d < 10)%N -> charValue char_signed (pretty_N_char d) - 48 = Z.of_N d.
Proof.
  intros H.
  assert (d = 0 \/ d = 1 \/ d = 2 \/ d = 3 \/ d = 4 \/ d = 5 \/ d = 6 \/ d = 7
          \/ d = 8 \/ d = 9)%N as Hd by lia.
  destruct char_signed;
    repeat (destruct Hd as [->|Hd]; [reflexivity|]); subst d; reflexivity.
Qed.

Lemma parseExact_pretty_N_go (x : N) :
  exists k : nat, forall (acc : Z) (s : string),
    parseExact char_signed acc (pretty_N_go x s)
    = parseExact char_signed (acc * 10 ^ Z.of_nat k + Z.of_N x) s.
Proof.
  induction (N.lt_wf_0 x) as [x _ IH].
  destruct (decide (x = 0)%N) as [->|Hx].
  - exists 0%nat. intros acc s. rewrite pretty_N_go_0. f_equal. cbn. lia.
  - assert (0 < x)%N as Hpos by lia.
    destruct (IH (x `div` 10)%N) as [k Hk].
    { apply N.div_lt; lia. }
    exists (S k). intros acc s.
    rewrite pretty_N_go_step by assumption. rewrite Hk.
    cbn [parseExact]. f_equal.
    rewrite charValue_digit by (apply N.mod_lt; lia).
    rewrite Nat2Z.inj_succ, Z.pow_succ_r by lia.
    rewrite N2Z.inj_mod, N2Z.inj_div.
    pose proof (Z.div_mod (Z.of_N x) 10). change (Z.of_N 10) with 10. lia.
Qed.

Lemma parseLine_decimal (n : N) :
  parseLine char_signed (pretty n) = (n mod 2 ^ 32)%N.
Proof.
  unfold parseLine.
  change 0 with (0 mod 2 ^ 32) at 1. rewrite parseLineFrom_mod.
  assert (parseExact char_signed 0 (pretty n) = Z.of_N n) as ->.
  { unfold pretty, pretty_N. destruct (decide (n = 0)%N) as [->|Hn].
    - destruct char_signed; reflexivity.
    - destruct (parseExact_pretty_N_go n) as [k Hk]. rewrite Hk.
      cbn [parseExact]. lia. }
  change (2 ^ 32) with (Z.of_N (2 ^ 32)) at 1. rewrite <- N2Z.inj_mod.
  apply N2Z.id.
Qed.

(** The inner loop of [readParallelLoops] undoes the decimal printing of a
    number, up to the width of [unsigned int]: the line number it reads from
    the decimal digits of [n] is [n] modulo [2^32]. *)
Theorem parseLine_pretty (n : N) :
  parseLine char_signed (pretty n) = (n mod 2 ^ 32)%N.
Proof. apply parseLine_decimal. Qed.

(** *** The lines the loop reads *)

Lemma fileLines_not_nil (s : string) : fileLines s <> [].
Proof.
  destruct s as [|c s]; cbn; [discriminate|].
  destruct (isNewline c); [discriminate|].
  destruct (fileLines s); discriminate.
Qed.

Lemma extractLine_fileLines (s : string) :
  match extractLine s with
  | (l, Some rest) =>
      fileLines s = l :: fileLines rest
      /\ (String.length rest < String.length s)%nat
  | (l, None) => fileLines s = [l]
  end.
Proof.
  induction s as [|c s IH]; cbn [extractLine fileLines]; [reflexivity|].
  destruct (isNewline c); [split; [reflexivity | cbn; lia]|].
  destruct (extractLine s) as [l [rest|]].
  - destruct IH as [-> Hlen]. split; [reflexivity | cbn; lia].
  - now rewrite IH.
Qed.

Lemma readParallelLoops_loop_good (fuel : nat) :
  forall (s : string) (st : PassState PtrRA),
    (String.length s + 1 < fuel)%nat ->
    readParallelLoops_loop cfg char_signed fuel
      {| buffer := s; eofbit := false; failbit := false |} st
    = Some (addPragmaForLines cfg char_signed (fileLines s) st).
Proof.
  induction fuel as [|fuel IH]; intros s st Hfuel; [lia|].
  cbn [readParallelLoops_loop eofbit]. unfold getline.
  cbn [eofbit failbit orb buffer].
  pose proof (extractLine_fileLines s) as Hs.
  destruct (extractLine s) as [l [rest|]].
  - destruct Hs as [-> Hlen]. rewrite IH by lia. reflexivity.
  - rewrite Hs. destruct fuel as [|fuel]; [lia|]. reflexivity.
Qed.

(** On a file that can be opened [readParallelLoops] terminates: a number
    of iterations of the length of the file plus two, or more, is enough.
    The state it returns is the one in which the pragma was added, line by
    line, for the number read from each line of the file, where the lines
    are the pieces between the line breaks; a file that is empty or ends
    with a line break has an empty last line, which is read too. *)
Theorem readParallelLoops_reads_lines (s : string) (st : PassState PtrRA)
    (k : nat) :
  readParallelLoops cfg char_signed (String.length s + 2 + k) (Some s) st
  = Some (addPragmaForLines cfg char_signed (fileLines s) st).
Proof.
  unfold readParallelLoops, openFile. apply readParallelLoops_loop_good. lia.
Qed.

(** On a file that cannot be opened the loop of [readParallelLoops] never
    ends: the stream has [failbit] but never [eofbit], so no number of
    iterations is enough. *)
Theorem readParallelLoops_unopened_file_diverges (fuel : nat)
    (st : PassState PtrRA) :
  readParallelLoops cfg char_signed fuel None st = None.
Proof.
  unfold readParallelLoops, openFile. revert st.
  induction fuel as [|fuel IH]; intros st; [reflexivity|].
  cbn [readParallelLoops_loop eofbit]. unfold getline.
  cbn [eofbit failbit orb buffer]. apply IH.
Qed.

Lemma addPragmaForLines_keeps (Lines : list string) (st : PassState PtrRA)
    (L : N) (f : string) :
  hasFragment (Comments st) L f ->
  hasFragment (Comments (addPragmaForLines cfg char_signed Lines st)) L f.
Proof.
  unfold addPragmaForLines.
  apply (fold_left_invariant (fun s => hasFragment (Comments s) L f)).
  apply Forall_forall. intros Line _ s Hs. cbn [Comments set_Comments].
  now apply addCommentToLine_keeps.
Qed.

Lemma addPragmaForLines_In (Lines : list string) (Line : string) :
  In Line Lines ->
  forall st : PassState PtrRA,
    hasFragment (Comments (addPragmaForLines cfg char_signed Lines st))
      (parseLine char_signed Line) (filePragma cfg).
Proof.
  induction Lines as [|l Lines IH]; [intros []|].
  intros [->|Hin] st.
  - unfold addPragmaForLines. cbn [fold_left].
    apply (addPragmaForLines_keeps Lines). cbn [Comments set_Comments].
    apply addCommentToLine_hasFragment.
  - unfold addPragmaForLines. cbn [fold_left]. now apply IH.
Qed.

(** A line of the file that holds the decimal digits of [n] gives the pragma
    to the line [n] modulo [2^32] of the comment map. *)
Theorem readParallelLoops_annotates_numbered_line (s : string) (n : N)
    (st : PassState PtrRA) (k : nat) :
  In (pretty n) (fileLines s) ->
  exists st',
    readParallelLoops cfg char_signed (String.length s + 2 + k) (Some s) st
    = Some st'
    /\ hasFragment (Comments st') (n mod 2 ^ 32)%N (filePragma cfg).
Proof.
  intros Hin. exists (addPragmaForLines cfg char_signed (fileLines s) st).
  split; [apply readParallelLoops_loop_good; lia|].
  rewrite <- parseLine_decimal. now apply addPragmaForLines_In.
Qed.

Lemma fileLines_trailing_newline (s : string) :
  exists l ls, fileLines (s +:+ Str.nl) = (l :: ls) ++ [EmptyString].
Proof.
  induction s as [|c s (l & ls & IH)].
  - exists EmptyString, []. reflexivity.
  - rewrite Str_app_cons. cbn [fileLines]. destruct (isNewline c).
    + exists EmptyString, (l :: ls). now rewrite IH.
    + rewrite IH. exists (String c l), ls. reflexivity.
Qed.

(** A file that is empty or ends with a line break gives the pragma to the
    line 0 of the comment map: after the last line break the loop reads one
    more, empty, line, and the number read from an empty line is 0. *)
Theorem readParallelLoops_trailing_newline (s : string) (st : PassState PtrRA)
    (k : nat) :
  (exists st',
      readParallelLoops cfg char_signed (String.length (s +:+ Str.nl) + 2 + k)
        (Some (s +:+ Str.nl)) st = Some st'
      /\ hasFragment (Comments st') 0%N (filePragma cfg))
  /\ (exists st',
         readParallelLoops cfg char_signed (2 + k) (Some EmptyString) st = Some st'
         /\ hasFragment (Comments st') 0%N (filePragma cfg)).
Proof.
  split.
  - exists (addPragmaForLines cfg char_signed (fileLines (s +:+ Str.nl)) st).
    split; [apply readParallelLoops_loop_good; lia|].
    change 0%N with (parseLine char_signed EmptyString).
    apply addPragmaForLines_In.
    destruct (fileLines_trailing_newline s) as (l & ls & ->).
    apply in_or_app. right. now left.
  - exists (addPragmaForLines cfg char_signed (fileLines EmptyString) st).
    split; [apply readParallelLoops_loop_good; cbn; lia|].
    change 0%N with (parseLine char_signed EmptyString).
    apply addPragmaForLines_In. now left.
Qed.

End ParallelFile.

Lemma readParallelLoops_annotates_numbered_line_witness :
  exists st',
    readParallelLoops Examples.cfgParallel true
      (String.length ("12" +:+ Str.nl +:+ "40") + 2 + 0)
      (Some ("12" +:+ Str.nl +:+ "40")) Examples.entryState = Some st'
    /\ hasFragment (Comments st') (40 mod 2 ^ 32)%N
         (filePragma Examples.cfgParallel).
Proof.
  apply (readParallelLoops_annotates_numbered_line Examples.cfgParallel true
           ("12" +:+ Str.nl +:+ "40") 40%N Examples.entryState 0).
  vm_compute. right. left. reflexivity.
Defined.

(** ** The annotation of a loop and of a region *)

Section Annotation.

Context {PtrRA : Type}.
Variable cfg : Config.
Variable M : gmap string Function.
Variable an : Analyses PtrRA.

Lemma annotateAccKernels_NewVars (R : Region) (NAME : string) (restric : bool)
    (st : PassState PtrRA) :
  NewVars (stateAt (annotateAccKernels cfg an R NAME restric st)) = NewVars st.
Proof.
  apply (Rel_annotateAccKernels cfg an (fun a b => NewVars b = NewVars a));
    try reflexivity.
  intros a b c Hab Hbc. now rewrite Hbc.
Qed.

(** What [writeComputation] leaves, for each of the two answers of the
    recovery of expressions. Both consume a sequence number. A failure
    leaves the comment map, the registry and the mark of undefined
    behaviour as they are. After a success, for a region that fails
    [isSafeMemoryCoalescing], so that [annotateAccKernels] returns, every
    comment of the descriptor is held by its line, the closing brace is
    held by the end line that was given and the mark of undefined behaviour
    is as it was; for a region that passes [isSafeMemoryCoalescing] the
    call of [annotateAccKernels] runs to the end of the body of a function
    that has to return a value, and the state is marked. *)
Theorem writeComputation_outcome (line lineEnd : Z) (R : Region)
    (st : PassState PtrRA) :
  NewVars (writeComputation cfg M an line lineEnd R st) = NewVars st + 1
  /\ (RC_analyzeRegion an ("AI" +:+ pretty (NewVars st + 1)) (ClEmitOMP cfg)
        (ptrRA st) R line = None ->
      Comments (writeComputation cfg M an line lineEnd R st) = Comments st
      /\ routines (writeComputation cfg M an line lineEnd R st) = routines st
      /\ undefinedBehaviour (writeComputation cfg M an line lineEnd R st)
         = undefinedBehaviour st)
  /\ (forall restric RCComments,
         RC_analyzeRegion an ("AI" +:+ pretty (NewVars st + 1)) (ClEmitOMP cfg)
           (ptrRA st) R line = Some (restric, RCComments) ->
         (isSafeMemoryCoalescing cfg an R = false ->
          undefinedBehaviour (writeComputation cfg M an line lineEnd R st)
          = undefinedBehaviour st
          /\ hasFragment
               (Comments (writeComputation cfg M an line lineEnd R st))
               (to_unsigned lineEnd) ("}" +:+ Str.nl)
          /\ forall Line frag, In (Line, frag) RCComments ->
               hasFragment
                 (Comments (writeComputation cfg M an line lineEnd R st))
                 Line frag)
         /\ (isSafeMemoryCoalescing cfg an R = true ->
             undefinedBehaviour (writeComputation cfg M an line lineEnd R st)
             = true)).
Proof.
  unfold writeComputation, newDescriptor.
  cbn [NewVars set_NewVars record_Descriptor ptrRA].
  split; [|split].
  - destruct (RC_analyzeRegion an _ (ClEmitOMP cfg) (ptrRA st) R line)
      as [[restric cs]|]; [|reflexivity].
    match goal with
    | |- context [annotateAccKernels cfg an R ?n restric ?s] =>
        pose proof (annotateAccKernels_NewVars R n restric s) as Hk;
        destruct (annotateAccKernels cfg an R n restric s) as [st2|st2]
    end; cbn [stateAt] in Hk; cbn [NewVars set_Comments]; rewrite Hk;
      reflexivity.
  - intros ->. repeat split.
  - intros restric cs ->. unfold annotateAccKernels. split; intros ->.
    + cbn [negb]. split; [reflexivity|]. split.
      * cbn [Comments set_Comments]. apply addCommentToLine_hasFragment.
      * intros Line frag Hin. cbn [Comments set_Comments].
        apply addCommentToLine_keeps.
        cbn [Comments clearExpression set_Expression set_Comments].
        now apply copyComments_In.
    + reflexivity.
Qed.

Lemma denotateLoopParallel_root (L : Loop) (condition : string)
    (st : PassState PtrRA) :
  isLoopParallel cfg L = true ->
  hasFragment (Comments (denotateLoopParallel cfg L condition st))
    (to_unsigned (getStartLine L)) (loopPragma cfg condition).
Proof.
  intros Hp. rewrite denotateLoopParallel_unfold, Hp.
  apply (fold_left_invariant
           (fun s => hasFragment (Comments s) (to_unsigned (getStartLine L))
                       (loopPragma cfg condition))).
  - apply Forall_forall. intros S _ s. apply denotateLoopParallel_keeps.
  - cbn. apply addCommentToLine_hasFragment.
Qed.

Lemma iter_incr_numAL_frame (n : nat) (st : PassState PtrRA) :
  NewVars (Nat.iter n incr_numAL st) = NewVars st
  /\ ptrRA (Nat.iter n incr_numAL st) = ptrRA st
  /\ numWL (Nat.iter n incr_numAL st) = numWL st.
Proof.
  induction n as [|n IH]; [repeat split|].
  rewrite Nat.iter_succ. unfold incr_numAL at 1 3 5.
  cbn [NewVars ptrRA numWL]. exact IH.
Qed.

(** The annotation of a loop in the parallel mode. When the loop of the
    first block of a region passes [isLoopParallel], is analyzable, the
    region passes the test of the scope tree, the loop has a start line and
    the recovery of expressions succeeds, [regionIdentify] consumes one
    sequence number, counts every loop of the nest as analyzable, leaves
    every comment of the descriptor on its line and the loop directive,
    with the guard returned by the recovery, on the start line of the loop,
    and counts as annotated the loops of the nest that pass the test of the
    markers. *)
Theorem regionIdentify_annotates_parallel_loop (R : Region) (l : Loop)
    (st : PassState PtrRA) (test : string) (RCComments : list (N * string)) :
  ClEmitParallel cfg = true ->
  li_getLoopFor an (block_begin R) = Some l ->
  isLoopParallel cfg l = true ->
  isLoopAnalyzable an st l = true ->
  st_isSafetlyRegionLoops an R = true ->
  getStartLine l <> ERROR_VALUE ->
  RC_analyzeLoop an ("AI" +:+ pretty (NewVars st + 1)) (ClEmitOMP cfg)
    (ptrRA st) l (getStartLine l) = Some (test, RCComments) ->
  let st' := regionIdentify cfg M an R st in
  NewVars st' = NewVars st + 1
  /\ numAL st' = (numAL st + N.of_nat (length (loopNest l)))%N
  /\ numWL st' = (numWL st + N.of_nat (length (annotatedLoops cfg l)))%N
  /\ hasFragment (Comments st') (to_unsigned (getStartLine l))
       (loopPragma cfg test)
  /\ forall Line frag, In (Line, frag) RCComments ->
       hasFragment (Comments st') Line frag.
Proof.
  intros Hmode Hl Hp Ha Hs Hline Hrc st'. subst st'.
  destruct R as [id b0 bs e t subs].
  cbn [regionIdentify block_begin subRegions] in *.
  rewrite Hl, Hp, Hmode, Ha, Hs. cbn [negb andb orb].
  destruct (Z.eqb_spec (getStartLine l) ERROR_VALUE) as [E|_]; [contradiction|].
  unfold newDescriptor. rewrite marknumAL_iter.
  destruct (iter_incr_numAL_frame (length (loopNest l)) st) as (F1 & F2 & F3).
  cbn [NewVars set_NewVars record_Descriptor ptrRA]. rewrite F1, F2, Hrc.
  split; [|split; [|split; [|split]]].
  - apply (Rel_denotateLoopParallel cfg (fun a b => NewVars b = NewVars a));
      try reflexivity.
    intros a b c Hab Hbc. now rewrite Hbc.
  - etransitivity.
    + apply (Rel_denotateLoopParallel cfg (fun a b => numAL b = numAL a));
        try reflexivity.
      intros a b c Hab Hbc. now rewrite Hbc.
    + cbn [numAL clearExpression set_Expression set_Comments set_routines
           record_Descriptor set_NewVars].
      apply numAL_iter.
  - rewrite denotateLoopParallel_numWL.
    cbn [numWL clearExpression set_Expression set_Comments set_routines
         record_Descriptor set_NewVars].
    now rewrite F3.
  - now apply denotateLoopParallel_root.
  - intros Line frag Hin. apply denotateLoopParallel_keeps.
    cbn [Comments clearExpression set_Expression set_Comments].
    now apply copyComments_In.
Qed.

(** A loop without a start line. When the loop of the first block of a
    region passes the tests of [regionIdentify] but its start line is
    [ERROR_VALUE], the loops of its nest are counted as analyzable and
    nothing else happens: no sequence number is consumed, no comment is
    written and the child regions are not visited. *)
Theorem regionIdentify_loop_without_line (R : Region) (l : Loop)
    (st : PassState PtrRA) :
  li_getLoopFor an (block_begin R) = Some l ->
  ClEmitParallel cfg = false \/ isLoopParallel cfg l = true ->
  isLoopAnalyzable an st l = true ->
  st_isSafetlyRegionLoops an R = true ->
  getStartLine l = ERROR_VALUE ->
  regionIdentify cfg M an R st
  = Nat.iter (length (loopNest l)) incr_numAL st.
Proof.
  intros Hl Hp Ha Hs Hline. destruct R as [id b0 bs e t subs].
  cbn [regionIdentify block_begin subRegions] in *.
  rewrite Hl, Ha, Hs, Hline. cbn [negb orb].
  replace (negb (isLoopParallel cfg l) && ClEmitParallel cfg) with false
    by (destruct Hp as [-> | ->]; [now rewrite andb_false_r | reflexivity]).
  cbn [Z.eqb ERROR_VALUE]. apply marknumAL_iter.
Qed.

End Annotation.

Lemma writeComputation_outcome_witness :
  undefinedBehaviour
    (writeComputation Examples.cfgCoalescing ∅ Reduction.an 5 41
       Reduction.reduced Examples.entryState)
  = undefinedBehaviour Examples.entryState
  /\ hasFragment
       (Comments (writeComputation Examples.cfgCoalescing ∅ Reduction.an 5 41
                    Reduction.reduced Examples.entryState))
       (to_unsigned 41) ("}" +:+ Str.nl)
  /\ forall Line frag,
       In (Line, frag) [(5%N, Examples.dataPragma "AI1")] ->
       hasFragment
         (Comments (writeComputation Examples.cfgCoalescing ∅ Reduction.an 5 41
                      Reduction.reduced Examples.entryState))
         Line frag.
Proof.
  apply (proj1 (proj2 (proj2 (writeComputation_outcome Examples.cfgCoalescing
                                ∅ Reduction.an 5 41 Reduction.reduced
                                Examples.entryState))
                  false [(5%N, Examples.dataPragma "AI1")] eq_refl)).
  vm_compute. reflexivity.
Defined.

Lemma regionIdentify_annotates_parallel_loop_witness :
  NewVars (regionIdentify Examples.cfgParallel ∅ anMarkedNest Examples.top
             Examples.entryState) = 1
  /\ numAL (regionIdentify Examples.cfgParallel ∅ anMarkedNest Examples.top
              Examples.entryState) = 2%N
  /\ numWL (regionIdentify Examples.cfgParallel ∅ anMarkedNest Examples.top
              Examples.entryState) = 2%N
  /\ hasFragment
       (Comments (regionIdentify Examples.cfgParallel ∅ anMarkedNest
                    Examples.top Examples.entryState))
       10%N (loopPragma Examples.cfgParallel "if(1)")
  /\ forall Line frag,
       In (Line, frag) [(10%N, Examples.dataPragma "AI1")] ->
       hasFragment
         (Comments (regionIdentify Examples.cfgParallel ∅ anMarkedNest
                      Examples.top Examples.entryState))
         Line frag.
Proof.
  apply (regionIdentify_annotates_parallel_loop Examples.cfgParallel ∅
           anMarkedNest Examples.top Examples.outerMarked Examples.entryState
           "if(1)" [(10%N, Examples.dataPragma "AI1")]);
    try reflexivity.
  discriminate.
Defined.

Lemma regionIdentify_loop_without_line_witness :
  regionIdentify Examples.cfgCoalescing ∅ anWithoutLine Examples.top
    Examples.entryState
  = Nat.iter (length (loopNest loopWithoutLine)) incr_numAL Examples.entryState.
Proof.
  apply (regionIdentify_loop_without_line Examples.cfgCoalescing ∅
           anWithoutLine Examples.top loopWithoutLine Examples.entryState);
    try reflexivity.
  left. reflexivity.
Defined.
